(** * A shallow embedding of the scenario-testing harness

    The development follows the source modules one by one:
    [parse-fixture.mjs], [parse-scenarios.mjs], [setup-nock.mjs],
    [assertions.mjs] and [index.mjs].  JavaScript data is embedded as
    follows.

    - A string is a [string]: a sequence of code units, here the units
      below 256.
    - A number is a [spec_float], the IEEE 754 double the language uses,
      so that strict equality keeps its behaviour at NaN and at the two
      zeros.
    - An object that the code only reads is a record; an object used as
      a dictionary whose enumeration order is not observed is a
      [gmap string _]; an object whose [Object.entries] order is observed
      is a list of pairs.
    - A [throw] is a [Throw] result; an asynchronous call runs to its
      settlement, so [await f()] is the settlement of [f].
    - What a capability of the script under test resolves to, or
      rejects with, is any value: [undefined], [null], a boolean, a
      number, a string, or an object with its own properties.  What a
      value inherits from its prototype chain is a parameter of the
      property read. *)

From Stdlib Require Import ZArith List Ascii String DecimalString Bool Lia.
From Stdlib Require Import Floats.SpecFloat.
From stdpp Require Import base option gmap strings list fin_maps.

Set Warnings "-register-all".

(* ================================================================= *)
(** * Part I: definitions *)
(* ================================================================= *)

(** ** JavaScript values *)

(** The values the harness inspects.  An object carries the address it
    lives at: strict equality on objects compares addresses, never the
    properties. *)
Inductive value : Type :=
| VUndefined
| VNull
| VBool (b : bool)
| VNumber (x : spec_float)
| VString (s : string)
| VObject (ref : nat) (props : list (string * value)).

(** The double nearest to an integer. *)
Definition num (z : Z) : spec_float := binary_normalize 53 1024 z 0 false.

(** [ToBoolean]: what [if (v)], [!v] and [v || w] test. *)
Definition truthy (v : value) : bool :=
  match v with
  | VUndefined | VNull => false
  | VBool b => b
  | VNumber (S754_zero _) | VNumber S754_nan => false
  | VNumber _ => true
  | VString EmptyString => false
  | VString _ => true
  | VObject _ _ => true
  end.

(** [a === b]. *)
Definition strict_eq (a b : value) : bool :=
  match a, b with
  | VUndefined, VUndefined => true
  | VNull, VNull => true
  | VBool x, VBool y => Bool.eqb x y
  | VNumber x, VNumber y => SFeqb x y
  | VString x, VString y => String.eqb x y
  | VObject r1 _, VObject r2 _ => Nat.eqb r1 r2
  | _, _ => false
  end.

(** [a !== b]. *)
Definition strict_neq (a b : value) : bool := negb (strict_eq a b).

(** The own properties of an object, in the order [Object.entries]
    lists them; [find_prop] is the property listed for a key, if there
    is one. *)
Definition object : Type := list (string * value).

Fixpoint find_prop (o : object) (key : string) : option value :=
  match o with
  | [] => None
  | (k, v) :: rest => if String.eqb k key then Some v else find_prop rest key
  end.

(** An [Error] instance: its address, its [message], and whatever other
    properties the thrower attached. *)
Record js_error : Type := mkError {
  err_ref : nat;
  err_message : string;
  err_props : list (string * value)
}.

(** The error object as a value, as when it is stored in a property. *)
Definition error_value (e : js_error) : value :=
  VObject (err_ref e) (("message", VString (err_message e)) :: err_props e).

(** What a [throw] carries. *)
Inductive exn : Type :=
| Error (message : string)   (* [throw new Error(message)] of the harness *)
| Raised (thrown : value)    (* what the script under test threw, passed through *)
| TypeError.                 (* raised by the runtime itself *)

Inductive result (A : Type) : Type :=
| Ok (a : A)
| Throw (e : exn).
Arguments Ok {A} a.
Arguments Throw {A} e.

(** The double quote, for messages that quote a name. *)
Definition dq : string := String "034"%char EmptyString.

(** [`${n}`] for a non-negative integer. *)
Definition string_of_nat (n : nat) : string := NilZero.string_of_uint (Nat.to_uint n).

(** ** Text primitives *)

Definition LF : ascii := "010"%char.
Definition CR : ascii := "013"%char.

(** [s.slice(0, n)] and [s.slice(n)] for [0 <= n]. *)
Fixpoint slice_to (n : nat) (s : string) : string :=
  match n, s with
  | S n', String c s' => String c (slice_to n' s')
  | _, _ => EmptyString
  end.

Fixpoint slice_from (n : nat) (s : string) : string :=
  match n, s with
  | S n', String _ s' => slice_from n' s'
  | _, _ => s
  end.

(** [s.indexOf(needle)]; [None] stands for [-1]. *)
Fixpoint indexOf (needle s : string) : option nat :=
  if String.prefix needle s then Some 0
  else match s with
       | EmptyString => None
       | String _ s' => option_map S (indexOf needle s')
       end.

(** [s.includes(needle)]. *)
Definition includes (needle s : string) : bool :=
  match indexOf needle s with Some _ => true | None => false end.

(** [s.split(sep)] for a one-character separator: never empty. *)
Fixpoint split (sep : ascii) (s : string) : list string :=
  match s with
  | EmptyString => [EmptyString]
  | String c s' =>
      if Ascii.eqb c sep then EmptyString :: split sep s'
      else match split sep s' with
           | l :: ls => String c l :: ls
           | [] => [String c EmptyString]
           end
  end.

(** [s.replace(/\r\n/g, '\n')]: one pass, left to right. *)
Fixpoint replaceCRLF (s : string) : string :=
  match s with
  | EmptyString => EmptyString
  | String c s' =>
      match s' with
      | String c' s'' =>
          if Ascii.eqb c CR && Ascii.eqb c' LF
          then String LF (replaceCRLF s'')
          else String c (replaceCRLF s')
      | EmptyString => String c EmptyString
      end
  end.

(** White space and line terminators that [trim] strips, among the code
    units below 256: TAB, LF, VT, FF, CR, SP and NBSP. *)
Definition is_space (c : ascii) : bool :=
  let n := nat_of_ascii c in
  ((9 <=? n) && (n <=? 13)) || (n =? 32) || (n =? 160).

Fixpoint trimStart (s : string) : string :=
  match s with
  | String c s' => if is_space c then trimStart s' else s
  | EmptyString => EmptyString
  end.

Fixpoint trimEnd (s : string) : string :=
  match s with
  | EmptyString => EmptyString
  | String c s' =>
      match trimEnd s' with
      | EmptyString => if is_space c then EmptyString else String c EmptyString
      | t => String c t
      end
  end.

Definition trim (s : string) : string := trimEnd (trimStart s).

Definition is_digit (c : ascii) : bool :=
  let n := nat_of_ascii c in (48 <=? n) && (n <=? 57).

Definition digit_value (c : ascii) : nat := nat_of_ascii c - 48.

(** [parseInt(s, 10)] on a string of decimal digits. *)
Definition parseInt (s : string) : nat :=
  fold_left (fun acc c => 10 * acc + digit_value c) (list_ascii_of_string s) 0.

(** ** parse-fixture.mjs *)

Module Fixture.
(** [{ statusCode, headers, body }]. *)
Record t : Type := mk {
  statusCode : nat;
  headers : gmap string string;
  body : string
}.
End Fixture.

(** The condition of spec section 7 raised for an unparsable status line. *)
Definition MalformedFixture (statusLine : string) : exn :=
  Error ("Invalid HTTP fixture: expected status line, got " +:+ dq +:+ statusLine +:+ dq).

(** [p+] at the head of [s]: what is left after the longest run. *)
Fixpoint skip_while (p : ascii -> bool) (s : string) : string :=
  match s with
  | String c s' => if p c then skip_while p s' else s
  | EmptyString => EmptyString
  end.

Definition is_digit_or_dot (c : ascii) : bool := is_digit c || Ascii.eqb c "."%char.

(** What is left of [s] after the literal [p], when [s] starts with it. *)
Fixpoint strip_prefix (p s : string) : option string :=
  match p, s with
  | EmptyString, _ => Some s
  | String a p', String b s' => if Ascii.eqb a b then strip_prefix p' s' else None
  | String _ _, EmptyString => None
  end.

(** [statusLine.match(/^HTTP\/[\d.]+ (\d{3})/)], giving group 1.  The
    class [[\d.]] excludes the space, so the greedy run can only end
    where the class ends: the run is the longest one, it must be
    non-empty, and a space and three digits must follow it. *)
Definition statusMatch (statusLine : string) : option string :=
  match strip_prefix "HTTP/" statusLine with
  | None => None
  | Some rest =>
      match rest with
      | String c _ =>
          if is_digit_or_dot c then
            match skip_while is_digit_or_dot rest with
            | String sp (String d1 (String d2 (String d3 _))) =>
                if Ascii.eqb sp " "%char && is_digit d1 && is_digit d2 && is_digit d3
                then Some (String d1 (String d2 (String d3 EmptyString)))
                else None
            | _ => None
            end
          else None
      | EmptyString => None
      end
  end.

(** [headers[name] = value] on an object literal: the key [__proto__]
    reaches the prototype setter, which ignores a string. *)
Definition set_header (name value : string) (headers : gmap string string)
  : gmap string string :=
  if String.eqb name "__proto__" then headers else <[name := value]> headers.

(** The body of the loop over [headerLines[1..]]. *)
Definition parseHeaderLine (headers : gmap string string) (line : string)
  : gmap string string :=
  match line with
  | EmptyString => headers
  | _ =>
      match indexOf ":" line with
      | None => headers
      | Some colonIndex =>
          let name := trim (slice_to colonIndex line) in
          let value := trim (slice_from (colonIndex + 1) line) in
          set_header name value headers
      end
  end.

Definition parseFixtureString (raw : string) : result Fixture.t :=
  let normalised := replaceCRLF raw in
  let separatorIndex := indexOf (String LF (String LF EmptyString)) normalised in
  let headerSection :=
    match separatorIndex with
    | None => normalised
    | Some i => slice_to i normalised
    end in
  let body :=
    match separatorIndex with
    | None => EmptyString
    | Some i => slice_from (i + 2) normalised
    end in
  let headerLines := split LF headerSection in
  let statusLine := hd EmptyString headerLines in
  match statusMatch statusLine with
  | None => Throw (MalformedFixture statusLine)
  | Some digits =>
      let statusCode := parseInt digits in
      let headers := fold_left parseHeaderLine (tl headerLines) ∅ in
      Ok (Fixture.mk statusCode headers body)
  end.

(** The two line ends, as texts. *)
Definition nl : string := String LF EmptyString.
Definition crlf : string := String CR (String LF EmptyString).

(** *** Serialization

    The repository parses fixtures and never writes them.  The
    serializer below follows the wording of spec section 8: the status
    line, each header as [Name: value] on a line of its own, a blank
    line, the body verbatim.  The status line carries the code in three
    digits, as the status-line pattern demands. *)

(** The character of a decimal digit. *)
Definition digit_char (d : nat) : ascii := ascii_of_nat (48 + d).

Definition three_digits (n : nat) : string :=
  String (digit_char (n / 100 mod 10))
    (String (digit_char (n / 10 mod 10))
       (String (digit_char (n mod 10)) EmptyString)).

Definition serializeHeader (h : string * string) : string :=
  h.1 +:+ ": " +:+ h.2 +:+ nl.

Fixpoint concat_strings (l : list string) : string :=
  match l with
  | [] => EmptyString
  | s :: rest => s +:+ concat_strings rest
  end.

Definition serializeFixture (f : Fixture.t) : string :=
  "HTTP/1.1 " +:+ three_digits (Fixture.statusCode f) +:+ nl
  +:+ concat_strings (map serializeHeader (map_to_list (Fixture.headers f)))
  +:+ nl +:+ Fixture.body f.

(** ** The scenario document *)

Module Request.
(** [{ method, url, headers? }]. *)
Record t : Type := mk {
  method : string;
  url : string;
  headers : option (gmap string string)
}.
End Request.

Module Step.
(** [{ request, fixture?, fixtureData?, networkError? }]; an absent
    [networkError] reads as a falsy value. *)
Record t : Type := mk {
  request : Request.t;
  fixture : option string;
  fixtureData : option Fixture.t;
  networkError : bool
}.
End Step.

Module Expectation.
(** The [invoke] or [error] mapping of a scenario, as the assertion
    engine probes it: [returns] is whatever the document binds it to
    ([undefined] when the key is absent), [throws] is the substring
    when the key is present. *)
Record t : Type := mk {
  returns : value;
  throws : option string
}.
End Expectation.

Module Context.
(** [{ secrets?, environment?, ...rest }]. *)
Record t : Type := mk {
  secrets : option (gmap string value);
  environment : option (gmap string value);
  rest : gmap string value
}.
Definition empty : t := mk None None ∅.
End Context.

Module Scenario.
(** One entry of [scenarios]; [None] is an absent (or falsy) key.
    [request] and [fixture] are the shorthand keys. *)
Record t : Type := mk {
  name : option string;
  steps : option (list Step.t);
  request : option Request.t;
  fixture : option string;
  params : option (gmap string value);
  context : option Context.t;
  invoke : option Expectation.t;
  error : option Expectation.t;
  _common : bool
}.
End Scenario.

Module Action.
Record t : Type := mk {
  params : option (gmap string value);
  context : option Context.t
}.
End Action.

Module Doc.
(** What [yaml.load] returns.  [scenarios] is [None] when the key is
    absent, falsy or not an array. *)
Record t : Type := mk {
  action : option Action.t;
  scenarios : option (list Scenario.t)
}.
End Doc.

(** [!name]: absent or the empty string. *)
Definition name_falsy (name : option string) : bool :=
  match name with
  | None | Some EmptyString => true
  | Some _ => false
  end.

(** [`${name}`]. *)
Definition name_text (name : option string) : string :=
  match name with
  | Some s => s
  | None => "undefined"
  end.

(** ** parse-scenarios.mjs *)

(** Apostrophes stand for double quotes in the literals below. *)
Fixpoint qq (s : string) : string :=
  match s with
  | EmptyString => EmptyString
  | String c s' => String (if Ascii.eqb c "'"%char then "034"%char else c) (qq s')
  end.

Module Generated.
(** What a [generate] function returns. *)
Record t : Type := mk {
  steps : list Step.t;
  invoke : Expectation.t
}.
End Generated.

Module CommonScenario.
Record t : Type := mk {
  name : string;
  generate : Request.t -> Generated.t
}.
End CommonScenario.

(** The shape shared by the seven status-code templates. *)
Definition generate_status (statusCode : nat) (headers : gmap string string)
    (body : string) (baseRequest : Request.t) : Generated.t :=
  Generated.mk
    [Step.mk
       (Request.mk (Request.method baseRequest) (Request.url baseRequest) None)
       None
       (Some (Fixture.mk statusCode headers body))
       false]
    (Expectation.mk VUndefined (Some EmptyString)).

Definition generate_network_error (baseRequest : Request.t) : Generated.t :=
  Generated.mk
    [Step.mk
       (Request.mk (Request.method baseRequest) (Request.url baseRequest) None)
       None None true]
    (Expectation.mk VUndefined (Some EmptyString)).

Definition json_headers : gmap string string :=
  {[ "Content-Type" := "application/json" ]}.
Definition html_headers : gmap string string :=
  {[ "Content-Type" := "text/html" ]}.

Definition COMMON_SCENARIOS : list CommonScenario.t :=
  [ CommonScenario.mk "handles 401 unauthorized"
      (generate_status 401 json_headers
         (qq "{'error':'Unauthorized','message':'Invalid or expired token'}"));
    CommonScenario.mk "handles 403 forbidden"
      (generate_status 403 json_headers
         (qq "{'error':'Forbidden','message':'Insufficient permissions'}"));
    CommonScenario.mk "handles 429 rate limit"
      (generate_status 429 (<["Retry-After" := "30"]> json_headers)
         (qq "{'error':'Too Many Requests','message':'Rate limit exceeded'}"));
    CommonScenario.mk "handles 500 internal server error"
      (generate_status 500 json_headers (qq "{'error':'Internal Server Error'}"));
    CommonScenario.mk "handles 502 bad gateway"
      (generate_status 502 html_headers "<html><body>Bad Gateway</body></html>");
    CommonScenario.mk "handles 503 service unavailable"
      (generate_status 503 json_headers (qq "{'error':'Service Unavailable'}"));
    CommonScenario.mk "handles 504 gateway timeout"
      (generate_status 504 html_headers "<html><body>Gateway Timeout</body></html>");
    CommonScenario.mk "handles network error" generate_network_error ].

(** The three messages of the per-scenario checks. *)
Definition missing_steps_message (name : option string) : string :=
  "Scenario " +:+ dq +:+ name_text name +:+ dq +:+ " must have either "
  +:+ dq +:+ "request" +:+ dq +:+ " or " +:+ dq +:+ "steps" +:+ dq.

Definition missing_name_message (index : nat) : string :=
  "Scenario at index " +:+ string_of_nat index +:+ " is missing required field "
  +:+ dq +:+ "name" +:+ dq.

Definition missing_invoke_message (name : option string) : string :=
  "Scenario " +:+ dq +:+ name_text name +:+ dq +:+ " is missing required field "
  +:+ dq +:+ "invoke" +:+ dq.

Definition missing_action_message : string :=
  "scenarios.yaml must have an " +:+ dq +:+ "action" +:+ dq +:+ " section".

Definition missing_scenarios_message : string :=
  "scenarios.yaml must have a " +:+ dq +:+ "scenarios" +:+ dq
  +:+ " array with at least one scenario".

(** Every one of them is the condition [MalformedScenarioFile] of spec
    section 7. *)
Definition MalformedScenarioFile (message : string) : exn := Error message.

Definition normaliseScenario (scenario : Scenario.t) : result Scenario.t :=
  let normalised := scenario in
  match Scenario.steps normalised with
  | Some _ => Ok normalised
  | None =>
      match Scenario.request normalised with
      | None =>
          Throw (MalformedScenarioFile (missing_steps_message (Scenario.name normalised)))
      | Some request =>
          Ok (Scenario.mk
                (Scenario.name normalised)
                (Some [Step.mk request (Scenario.fixture normalised) None false])
                None
                None
                (Scenario.params normalised)
                (Scenario.context normalised)
                (Scenario.invoke normalised)
                (Scenario.error normalised)
                (Scenario._common normalised))
      end
  end.

Definition validateScenario (scenario : Scenario.t) (index : nat) : result unit :=
  if name_falsy (Scenario.name scenario) then
    Throw (MalformedScenarioFile (missing_name_message index))
  else
    match Scenario.invoke scenario with
    | None =>
        Throw (MalformedScenarioFile (missing_invoke_message (Scenario.name scenario)))
    | Some _ => Ok tt
    end.

(** [doc.scenarios.map((s, i) => { validateScenario(s, i); return
    normaliseScenario(s); })], from index [i] on: the first throw ends
    the traversal. *)
Fixpoint map_scenarios (i : nat) (l : list Scenario.t) : result (list Scenario.t) :=
  match l with
  | [] => Ok []
  | s :: rest =>
      match validateScenario s i with
      | Throw e => Throw e
      | Ok _ =>
          match normaliseScenario s with
          | Throw e => Throw e
          | Ok n =>
              match map_scenarios (S i) rest with
              | Throw e => Throw e
              | Ok ns => Ok (n :: ns)
              end
          end
      end
  end.

Module ParseOptions.
(** The [options] argument; [None] is an absent key. *)
Record t : Type := mk { includeCommon : option bool }.
End ParseOptions.

Module Parsed.
Record t : Type := mk {
  action : Action.t;
  scenarios : list Scenario.t;
  filePath : option string
}.
End Parsed.

(** The scenario pushed for a template that is not overridden. *)
Definition common_scenario (common : CommonScenario.t) (templateRequest : Request.t)
  : Scenario.t :=
  let generated := CommonScenario.generate common templateRequest in
  Scenario.mk
    (Some (CommonScenario.name common))
    (Some (Generated.steps generated))
    None None None None
    (Some (Generated.invoke generated))
    None
    true.

(** The body of [for (const common of COMMON_SCENARIOS)]. *)
Definition push_common (userNames : gset string) (templateRequest : Request.t)
    (allScenarios : list Scenario.t) (common : CommonScenario.t) : list Scenario.t :=
  if bool_decide (CommonScenario.name common ∈ userNames) then allScenarios
  else allScenarios ++ [common_scenario common templateRequest].

Section ParseScenarios.
(** [yaml.load] of js-yaml, followed by the reading of the keys the
    harness uses. *)
Variable yaml_load : string -> Doc.t.

(** [options] is [None] when the caller leaves the argument out. *)
Definition parseScenariosString (yamlString : string)
    (options : option ParseOptions.t) : result Parsed.t :=
  let options := default (ParseOptions.mk None) options in
  let includeCommon := default false (ParseOptions.includeCommon options) in
  let doc := yaml_load yamlString in
  match Doc.action doc with
  | None => Throw (MalformedScenarioFile missing_action_message)
  | Some action =>
      match Doc.scenarios doc with
      | None | Some [] => Throw (MalformedScenarioFile missing_scenarios_message)
      | Some scenarios =>
          match map_scenarios 0 scenarios with
          | Throw e => Throw e
          | Ok userScenarios =>
              let allScenarios := userScenarios in
              if includeCommon then
                let userNames : gset string :=
                  list_to_set (omap Scenario.name userScenarios) in
                (* userScenarios[0].steps[0].request *)
                match userScenarios with
                | [] => Throw TypeError
                | first :: _ =>
                    match Scenario.steps first with
                    | None | Some [] => Throw TypeError
                    | Some (step :: _) =>
                        let templateRequest := Step.request step in
                        Ok (Parsed.mk action
                              (fold_left (push_common userNames templateRequest)
                                 COMMON_SCENARIOS allScenarios)
                              None)
                    end
                end
              else Ok (Parsed.mk action allScenarios None)
          end
      end
  end.

(** [readFileSync(path, 'utf-8')]. *)
Variable readFileSync : string -> result string.

Definition parseScenarios (filePath : string) (options : option ParseOptions.t)
  : result Parsed.t :=
  match readFileSync filePath with
  | Throw e => Throw e
  | Ok raw =>
      match parseScenariosString raw options with
      | Throw e => Throw e
      | Ok r => Ok (Parsed.mk (Parsed.action r) (Parsed.scenarios r) (Some filePath))
      end
  end.
End ParseScenarios.

(** ** setup-nock.mjs *)

(** [c.toUpperCase()] for one code unit below 256, as the text it
    gives: the letters a-z and the accented letters 224-254 (247, the
    division sign, apart) lose 32; the sharp s (223) gives [SS]; the
    micro sign (181) and the y with diaeresis (255) have their capitals
    above 255, outside the strings of this development: [None]. *)
Definition upper_char (c : ascii) : option string :=
  let n := nat_of_ascii c in
  if ((97 <=? n) && (n <=? 122))
     || ((224 <=? n) && (n <=? 254) && negb (n =? 247))
  then Some (String (ascii_of_nat (n - 32)) EmptyString)
  else if n =? 223 then Some "SS"
  else if (n =? 181) || (n =? 255) then None
  else Some (String c EmptyString).

(** [s.toUpperCase()]; [None] when the result holds a code unit above
    255.  Such a result is no key of [METHOD_MAP]. *)
Fixpoint toUpperCase (s : string) : option string :=
  match s with
  | EmptyString => Some EmptyString
  | String c s' =>
      match upper_char c, toUpperCase s' with
      | Some u, Some t => Some (u +:+ t)
      | _, _ => None
      end
  end.


Definition METHOD_MAP : gmap string string :=
  {[ "GET" := "get"; "POST" := "post"; "PUT" := "put"; "PATCH" := "patch";
     "DELETE" := "delete"; "HEAD" := "head"; "OPTIONS" := "options" ]}.

(** [METHOD_MAP[method.toUpperCase()]]; [None] is [undefined].  The
    own keys decide: an upper-cased name has no lower-case letter, and
    every member that an object literal inherits has one. *)
Definition lookup_method (method : string) : option string :=
  match toUpperCase method with
  | Some upper => METHOD_MAP !! upper
  | None => None
  end.

Module Url.
(** The three parts of a parsed URL that the code reads. *)
Record t : Type := mk { origin : string; pathname : string; search : string }.
End Url.

(** How an interceptor answers. *)
Inductive reply : Type :=
| ReplyWithError (message : string)
| Reply (statusCode : nat) (body : string) (headers : gmap string string).

Module Interceptor.
(** One registered interceptor, which is also what the scope returned
    for it verifies with [done()]. *)
Record t : Type := mk {
  origin : string;
  method : string;
  path : string;
  reqheaders : option (gmap string string);
  answer : reply
}.
End Interceptor.

Definition UnsupportedMethod (method : string) : exn :=
  Error ("Unsupported HTTP method: " +:+ method).

Definition UnresolvedStep (request : Request.t) : exn :=
  Error ("Step for " +:+ Request.method request +:+ " " +:+ Request.url request
         +:+ " has no fixtureData or networkError").

Section SetupNock.
(** [new URL(text)]; [None] when the constructor throws. *)
Variable URL : string -> option Url.t.
(** [nock(origin)] of the nock library: it builds the scope for an
    origin, or throws; it throws a [TypeError] for an origin whose
    protocol is neither [http:] nor [https:]. *)
Variable nock : string -> result unit.

(** The body of [for (const step of steps)]: the interceptor to
    register and push, or the throw. *)
Definition setupStep (step : Step.t) : result Interceptor.t :=
  let request := Step.request step in
  match URL (Request.url request) with
  | None => Throw TypeError
  | Some url =>
      let origin := Url.origin url in
      let path := Url.pathname url +:+ Url.search url in
      match lookup_method (Request.method request) with
      | None => Throw (UnsupportedMethod (Request.method request))
      | Some method =>
          match nock origin with
          | Throw e => Throw e
          | Ok _ =>
              let interceptor :=
                Interceptor.mk origin method path (Request.headers request) in
              if Step.networkError step then
                Ok (interceptor (ReplyWithError "Network error: connection refused"))
              else
                match Step.fixtureData step with
                | Some fixtureData =>
                    Ok (interceptor (Reply (Fixture.statusCode fixtureData)
                                       (Fixture.body fixtureData)
                                       (Fixture.headers fixtureData)))
                | None => Throw (UnresolvedStep request)
                end
          end
      end
  end.

(** The loop, threading the interceptors registered with nock so far
    ([active]) and the local [scopes]. *)
Fixpoint setupLoop (steps : list Step.t) (scopes active : list Interceptor.t)
  : result (list Interceptor.t) * list Interceptor.t :=
  match steps with
  | [] => (Ok scopes, active)
  | step :: rest =>
      match setupStep step with
      | Throw e => (Throw e, active)
      | Ok scope => setupLoop rest (scopes ++ [scope]) (active ++ [scope])
      end
  end.

Definition setupNock (steps : list Step.t) (active : list Interceptor.t)
  : result (list Interceptor.t) * list Interceptor.t :=
  setupLoop steps [] active.
End SetupNock.

(** [nock.cleanAll()]: no interceptor stays registered. *)
Definition cleanupNock (active : list Interceptor.t) : list Interceptor.t := [].

(** ** assertions.mjs *)

(** How an asynchronous call settles: it resolves to a value or rejects
    with the value that was thrown.  Either may be any value of the
    language: a capability that returns nothing resolves to
    [undefined], and [throw] accepts what is no [Error]. *)
Inductive settled : Type :=
| Resolved (result : value)
| Rejected (thrown : value).

Inductive capability : Type := InvokeCapability | ErrorCapability.

(** One call of a capability of the script, with its two arguments. *)
Record call : Type := mkCall {
  call_capability : capability;
  call_params : gmap string value;
  call_context : Context.t
}.

(** A capability may read and change a world [W] of its own. *)
Definition handler (W : Type) : Type :=
  gmap string value -> Context.t -> W -> settled * W.

Module Script.
(** The script module: [invoke], and [error] when it is exposed. *)
Record t (W : Type) : Type := mk {
  invoke : handler W;
  error : option (handler W)
}.
Arguments mk {W} _ _.
Arguments invoke {W} _.
Arguments error {W} _.
End Script.

(** The state a scenario runs in: the script's world and the log of the
    calls made so far. *)
Record state (W : Type) : Type := mkState {
  world : W;
  calls : list call
}.
Arguments mkState {W} _ _.
Arguments world {W} _.
Arguments calls {W} _.

(** A computation of the harness: it may throw, and it changes the state. *)
Definition M (W A : Type) : Type := state W -> result A * state W.

Definition ret {W A} (a : A) : M W A := fun st => (Ok a, st).
Definition throw {W A} (e : exn) : M W A := fun st => (Throw e, st).
Definition bind {W A B} (m : M W A) (k : A -> M W B) : M W B :=
  fun st =>
    match m st with
    | (Ok a, st') => k a st'
    | (Throw e, st') => (Throw e, st')
    end.

Notation "'let*' x ':=' m 'in' k" := (bind m (fun x => k))
  (at level 10, x name, m at level 100, k at level 200).

(** A thunk such as [() => script.invoke(params, context)], run. *)
Definition thunk (W : Type) : Type := state W -> settled * state W.

Definition call_handler {W} (cap : capability) (h : handler W)
    (params : gmap string value) (context : Context.t) : thunk W :=
  fun st =>
    let (outcome, w) := h params context (world st) in
    (outcome, mkState w (calls st ++ [mkCall cap params context])).

(** [Object.entries(v)]: the properties of an object, the indexed
    characters of a string, nothing for a number or a boolean; a
    [TypeError] ([None]) for [undefined] and [null]. *)
Fixpoint string_entries (i : nat) (s : string) : list (string * value) :=
  match s with
  | EmptyString => []
  | String c s' =>
      (string_of_nat i, VString (String c EmptyString)) :: string_entries (S i) s'
  end.

Definition Object_entries (v : value) : option (list (string * value)) :=
  match v with
  | VObject _ props => Some props
  | VString s => Some (string_entries 0 s)
  | VBool _ | VNumber _ => Some []
  | VUndefined | VNull => None
  end.

(** The own property of a value under a key, if it has one: a property
    of an object; an indexed character or the [length] of a string. *)
Definition own_prop (v : value) (key : string) : option value :=
  match v with
  | VObject _ props => find_prop props key
  | VString s =>
      if String.eqb key "length" then Some (VNumber (num (Z.of_nat (String.length s))))
      else find_prop (string_entries 0 s) key
  | VUndefined | VNull | VBool _ | VNumber _ => None
  end.

Section PropertyReads.
(** What a value inherits under a key from its prototype chain, a
    matter of the runtime: [toString] and the like, each a function and
    so an object; [undefined] for a key that no prototype has. *)
Variable inherited : value -> string -> value.

(** [v[key]]: a [TypeError] on [undefined] and [null]; otherwise the
    own property of that name, and what the value inherits under the
    name when it has no such property. *)
Definition read_prop (v : value) (key : string) : result value :=
  match v with
  | VUndefined | VNull => Throw TypeError
  | _ =>
      match own_prop v key with
      | Some x => Ok x
      | None => Ok (inherited v key)
      end
  end.
End PropertyReads.

Section Assertions.
Context {W : Type}.

(** [`${JSON.stringify(v)}`], a built-in of the runtime. *)
Variable JSON_stringify : value -> string.
(** The inherited members, as in [read_prop]. *)
Variable inherited : value -> string -> value.

(** The condition [AssertionFailed] of spec section 7, and the messages
    the helpers build for it. *)
Definition AssertionFailed (message : string) : exn := Error message.

Definition mismatch_message (what key : string) (expected actual : value) : string :=
  "Expected " +:+ what +:+ " result." +:+ key +:+ " to be "
  +:+ JSON_stringify expected +:+ ", got " +:+ JSON_stringify actual.

Definition not_thrown_message (what : string) : string :=
  "Expected " +:+ what +:+ " to throw, but it returned successfully".

Definition not_contained_message (expectedMessage actual : string) : string :=
  "Expected error message to contain " +:+ dq +:+ expectedMessage +:+ dq
  +:+ ", got " +:+ dq +:+ actual +:+ dq.

(** [for (const [key, value] of Object.entries(expected))]: the first
    property that differs throws, and so does the reading of a property
    of [undefined] or [null].  [what] is [invoke] in
    [assertInvokeReturns] and [error handler] in [assertErrorReturns],
    the only difference between the two loops. *)
Fixpoint assertEntries (what : string) (result : value)
    (entries : list (string * value)) : M W unit :=
  match entries with
  | [] => ret tt
  | (key, value) :: rest =>
      match read_prop inherited result key with
      | Throw e => throw e
      | Ok actual =>
          if strict_neq actual value then
            throw (AssertionFailed (mismatch_message what key value actual))
          else assertEntries what result rest
      end
  end.

(** [await fn()]: a rejection is thrown on. *)
Definition await (fn : thunk W) : M W value :=
  fun st =>
    match fn st with
    | (Resolved r, st') => (Ok r, st')
    | (Rejected thrown, st') => (Throw (Raised thrown), st')
    end.

(** The entries of [expected], where [Object.entries] may throw. *)
Definition entries_of (expected : value) : M W (list (string * value)) :=
  match Object_entries expected with
  | Some entries => ret entries
  | None => throw TypeError
  end.

(** The body that [assertInvokeReturns] and [assertErrorReturns] share;
    [what] is [invoke] in the first and [error handler] in the second,
    and appears in the message only. *)
Definition assertReturns (what : string) (fn : thunk W) (expected : value)
  : M W value :=
  let* result := await fn in
  let* entries := entries_of expected in
  let* _ := assertEntries what result entries in
  ret result.

Definition assertInvokeReturns (invokeFn : thunk W) (expected : value)
  : M W value :=
  assertReturns "invoke" invokeFn expected.

Definition assertErrorReturns (errorFn : thunk W) (expected : value)
  : M W value :=
  assertReturns "error handler" errorFn expected.

(** [let caught; try { await fn(); } catch (error) { caught = error; }]:
    [caught] stays [undefined] when nothing is thrown. *)
Definition try_catch (fn : thunk W) : M W value :=
  fun st =>
    match fn st with
    | (Resolved _, st') => (Ok VUndefined, st')
    | (Rejected thrown, st') => (Ok thrown, st')
    end.

(** [caught.message.includes(expectedMessage)], the message with it:
    [includes] is the method of a string, and the call is a [TypeError]
    on any other [message]. *)
Definition message_includes (caught : value) (expectedMessage : string)
  : result (string * bool) :=
  match read_prop inherited caught "message" with
  | Throw e => Throw e
  | Ok (VString message) => Ok (message, includes expectedMessage message)
  | Ok _ => Throw TypeError
  end.

(** The two tests that follow the [try]: [!caught], and
    [expectedMessage && !caught.message.includes(expectedMessage)]. *)
Definition assertThrows (what : string) (fn : thunk W) (expectedMessage : string)
  : M W value :=
  let* caught := try_catch fn in
  if negb (truthy caught) then throw (AssertionFailed (not_thrown_message what))
  else
    match expectedMessage with
    | EmptyString => ret caught
    | _ =>
        match message_includes caught expectedMessage with
        | Throw e => throw e
        | Ok (message, true) => ret caught
        | Ok (message, false) =>
            throw (AssertionFailed (not_contained_message expectedMessage message))
        end
    end.

Definition assertInvokeThrows (invokeFn : thunk W) (expectedMessage : string)
  : M W value :=
  assertThrows "invoke" invokeFn expectedMessage.

Definition assertErrorThrows (errorFn : thunk W) (expectedMessage : string)
  : M W value :=
  assertThrows "error handler" errorFn expectedMessage.

Definition runScenarioHandlers (script : Script.t W)
    (params : gmap string value) (context : Context.t) (scenario : Scenario.t)
  : M W unit :=
  match Scenario.invoke scenario with
  | None => throw TypeError
  | Some invokeExpect =>
      let errorExpect := Scenario.error scenario in
      if truthy (Expectation.returns invokeExpect) then
        let* _ :=
          assertInvokeReturns
            (call_handler InvokeCapability (Script.invoke script) params context)
            (Expectation.returns invokeExpect) in
        ret tt
      else
        match Expectation.throws invokeExpect with
        | None => ret tt
        | Some invokeThrows =>
            let* caughtError :=
              assertInvokeThrows
                (call_handler InvokeCapability (Script.invoke script) params context)
                invokeThrows in
            match errorExpect, Script.error script with
            | Some errorExpect, Some scriptError =>
                let errorParams := <["error" := caughtError]> params in
                if truthy (Expectation.returns errorExpect) then
                  let* _ :=
                    assertErrorReturns
                      (call_handler ErrorCapability scriptError errorParams context)
                      (Expectation.returns errorExpect) in
                  ret tt
                else
                  match Expectation.throws errorExpect with
                  | Some errorThrows =>
                      let* _ :=
                        assertErrorThrows
                          (call_handler ErrorCapability scriptError errorParams context)
                          errorThrows in
                      ret tt
                  | None => ret tt
                  end
            | _, _ => ret tt
            end
        end
  end.
End Assertions.

(** ** index.mjs *)

Module Merged.
Record t : Type := mk {
  params : gmap string value;
  context : Context.t
}.
End Merged.

(** [{ ...a, ...b }]: the keys of [b] win. *)
Definition spread2 {A} (a b : gmap string A) : gmap string A := b ∪ a.

Definition mergeDefaults (action : Action.t) (scenario : Scenario.t) : Merged.t :=
  let params :=
    spread2 (default ∅ (Action.params action)) (default ∅ (Scenario.params scenario)) in
  let actionContext := default Context.empty (Action.context action) in
  let scenarioContext := default Context.empty (Scenario.context scenario) in
  let context :=
    Context.mk
      (Some (spread2 (default ∅ (Context.secrets actionContext))
                     (default ∅ (Context.secrets scenarioContext))))
      (Some (spread2 (default ∅ (Context.environment actionContext))
                     (default ∅ (Context.environment scenarioContext))))
      (spread2 (Context.rest actionContext) (Context.rest scenarioContext)) in
  Merged.mk params context.

Module RunOptions.
(** The options of [runScenarios] that decide what is registered. *)
Record t : Type := mk {
  scenarios : string;
  includeCommon : option bool;
  callerDir : option string
}.
End RunOptions.

Module Suite.
(** What [runScenarios] registers: one [describe] block, with one
    test for each scenario, in order. *)
Record t : Type := mk {
  title : string;
  tests : list Scenario.t;
  scenariosDir : string
}.
End Suite.

Section RunScenarios.
Variable yaml_load : string -> Doc.t.
Variable readFileSync : string -> result string.
(** [path.resolve], [path.dirname] and [process.cwd()]. *)
Variable resolve : string -> string -> string.
Variable dirname : string -> string.
Variable cwd : string.

(** [callerDir || process.cwd()]. *)
Definition baseDir_of (callerDir : option string) : string :=
  match callerDir with
  | None | Some EmptyString => cwd
  | Some d => d
  end.

(** The synchronous part of [runScenarios]: up to the registration of
    the tests. *)
Definition runScenarios (options : RunOptions.t) : result Suite.t :=
  let scenariosPath := RunOptions.scenarios options in
  let includeCommon := default true (RunOptions.includeCommon options) in
  let baseDir := baseDir_of (RunOptions.callerDir options) in
  let resolvedScenariosPath := resolve baseDir scenariosPath in
  let scenariosDir := dirname resolvedScenariosPath in
  match parseScenarios yaml_load readFileSync resolvedScenariosPath
          (Some (ParseOptions.mk (Some includeCommon))) with
  | Throw e => Throw e
  | Ok parsed =>
      let scenarios := Parsed.scenarios parsed in
      Ok (Suite.mk
            ("scenarios: " +:+ string_of_nat (length scenarios) +:+ " defined")
            scenarios
            scenariosDir)
  end.
End RunScenarios.

(** ** Vocabulary of the statements *)

(** The computation returned. *)
Definition is_Ok {A} (r : result A) : bool :=
  match r with Ok _ => true | Throw _ => false end.

(** The inherited members the examples go by: every value that can be
    read inherits [toString], a function, and nothing else is asked
    for. *)
Definition sample_inherited (v : value) (key : string) : value :=
  if String.eqb key "toString" then VObject 0 [] else VUndefined.

(** *** Merging *)

(** The value a shallow merge leaves under [k]: the overriding map's
    when it has the key, the base map's otherwise. *)
Definition overridden {A} (over base : option (gmap string A)) (k : string)
  : option A :=
  match default ∅ over !! k with
  | Some v => Some v
  | None => default ∅ base !! k
  end.

(** The context of an action or a scenario, [{}] when it has none. *)
Definition context_or_empty (c : option Context.t) : Context.t :=
  default Context.empty c.

(** *** Scenario documents *)

(** What the parser yields from the user-defined scenarios alone: the
    checks, the normalisation, and nothing synthesized. *)
Definition user_scenarios_only (doc : Doc.t) : result Parsed.t :=
  match Doc.action doc with
  | None => Throw (MalformedScenarioFile missing_action_message)
  | Some action =>
      match Doc.scenarios doc with
      | None | Some [] => Throw (MalformedScenarioFile missing_scenarios_message)
      | Some scenarios =>
          match map_scenarios 0 scenarios with
          | Throw e => Throw e
          | Ok userScenarios => Ok (Parsed.mk action userScenarios None)
          end
      end
  end.

(** A scenario entry that passes the three per-scenario checks. *)
Definition scenario_ok (s : Scenario.t) : bool :=
  negb (name_falsy (Scenario.name s))
  && bool_decide (is_Some (Scenario.invoke s))
  && (bool_decide (is_Some (Scenario.steps s))
      || bool_decide (is_Some (Scenario.request s))).

(** The request of the first step a scenario entry will have once it is
    normalised: the first of its [steps], or its shorthand [request]. *)
Definition first_step_request (s : Scenario.t) : option Request.t :=
  match Scenario.steps s with
  | Some (step :: _) => Some (Step.request step)
  | Some [] => None
  | None => Scenario.request s
  end.

(** A template is overridden when a user-defined scenario carries its
    name. *)
Definition overridden_by (userScenarios : list Scenario.t) (c : CommonScenario.t)
  : bool :=
  bool_decide (Some (CommonScenario.name c) ∈ map Scenario.name userScenarios).

(** The scenarios synthesized for the templates that are not overridden,
    in the order of [COMMON_SCENARIOS]. *)
Definition synthesized (userScenarios : list Scenario.t) (templateRequest : Request.t)
  : list Scenario.t :=
  map (fun c => common_scenario c templateRequest)
    (List.filter (fun c => negb (overridden_by userScenarios c)) COMMON_SCENARIOS).

(** The expectation [throws: ''] of every template. *)
Definition throws_anything : Expectation.t :=
  Expectation.mk VUndefined (Some EmptyString).

(** A scenario was generated from the request: one step, for the same
    method and URL. *)
Definition generated_from (templateRequest : Request.t) (s : Scenario.t) : Prop :=
  exists step,
    Scenario.steps s = Some [step]
    /\ Request.method (Step.request step) = Request.method templateRequest
    /\ Request.url (Step.request step) = Request.url templateRequest.

(** The number of scenarios of a parse, [None] when it throws. *)
Definition scenario_count (r : result Parsed.t) : option nat :=
  match r with
  | Ok p => Some (length (Parsed.scenarios p))
  | Throw _ => None
  end.

(** The number of tests registered, [None] when registration throws. *)
Definition suite_count (r : result Suite.t) : option nat :=
  match r with
  | Ok s => Some (length (Suite.tests s))
  | Throw _ => None
  end.

(** The request of the sample scenarios. *)
Definition sample_request : Request.t :=
  Request.mk "POST" "https://example.com/api" None.

(** A shorthand scenario, as the tests of the parser write them. *)
Definition sample_scenario (name : string) : Scenario.t :=
  Scenario.mk (Some name) None (Some sample_request) (Some "f.http") None None
    (Some (Expectation.mk (VObject 1 []) None)) None false.

(** A file with one scenario. *)
Definition sample_doc : Doc.t :=
  Doc.mk (Some (Action.mk None None)) (Some [sample_scenario "basic test"]).

(** A scenario that has a name and lacks [steps], [request] and
    [invoke] alike. *)
Definition scenario_missing_both : Scenario.t :=
  Scenario.mk (Some "x") None None None None None None None false.

(** A file whose only scenario is that one. *)
Definition doc_missing_both : Doc.t :=
  Doc.mk (Some (Action.mk None None)) (Some [scenario_missing_both]).

(** A file that overrides one template. *)
Definition doc_overriding_401 : Doc.t :=
  Doc.mk (Some (Action.mk None None))
    (Some [sample_scenario "handles 401 unauthorized"; sample_scenario "basic test"]).

(** *** Assertions *)

(** The expected entry [(key, value)] agrees with the result: the
    result can be read under the key, and what it holds there is
    strictly equal to the value. *)
Definition entry_matches (inherited : value -> string -> value)
    (result : value) (kv : string * value) : bool :=
  match read_prop inherited result kv.1 with
  | Ok actual => strict_eq actual kv.2
  | Throw _ => false
  end.

(** Every expected entry agrees with the result. *)
Definition all_match (inherited : value -> string -> value)
    (result : value) (entries : list (string * value)) : bool :=
  forallb (entry_matches inherited result) entries.

(** The result is one that properties can be read of: any value but
    [undefined] and [null]. *)
Definition readable (result : value) : bool :=
  match result with
  | VUndefined | VNull => false
  | _ => true
  end.

(** What was thrown is acceptable for the expected substring: it is a
    truthy value, and either nothing more is asked (the empty
    substring) or its [message] is a string that contains the
    substring. *)
Definition acceptable (inherited : value -> string -> value)
    (expectedMessage : string) (thrown : value) : Prop :=
  truthy thrown = true
  /\ (expectedMessage = EmptyString
      \/ exists message,
           read_prop inherited thrown "message" = Ok (VString message)
           /\ includes expectedMessage message = true).

(** The script's error capability appears in a call log. *)
Definition error_called (log : list call) : Prop :=
  exists c, In c log /\ call_capability c = ErrorCapability.

(** The calls a run added to the log it started from. *)
Definition new_calls {W} (before after : state W) : list call :=
  drop (length (calls before)) (calls after).

(** The error expectation has one of the two forms the engine acts on:
    a truthy [returns], or a [throws] key. *)
Definition has_form (e : Expectation.t) : bool :=
  truthy (Expectation.returns e) || bool_decide (is_Some (Expectation.throws e)).

(** Phase 2 calls the error capability. *)
Definition error_phase_runs {W} (script : Script.t W) (scenario : Scenario.t) : bool :=
  match Scenario.error scenario, Script.error script with
  | Some errorExpect, Some _ => has_form errorExpect
  | _, _ => false
  end.

(** The error the sample script rejects with. *)
Definition rejecting_error : js_error := mkError 1 "HTTP 429 Too Many Requests" [].

(** A script whose [invoke] rejects and whose [error] asks for a retry. *)
Definition retrying_script : Script.t unit :=
  Script.mk
    (fun _ _ w => (Rejected (error_value rejecting_error), w))
    (Some (fun _ _ w =>
             (Resolved (VObject 5 [("status", VString "retry_requested")]), w))).

(** A scenario that expects [invoke] to throw, with the given [error]
    expectation. *)
Definition scenario_with_error (error : option Expectation.t) : Scenario.t :=
  Scenario.mk (Some "rate limited") (Some []) None None None None
    (Some (Expectation.mk VUndefined (Some "429"))) error false.

(** *** Interceptors *)

(** The seven verbs of [METHOD_MAP]. *)
Definition VERBS : list string :=
  ["GET"; "POST"; "PUT"; "PATCH"; "DELETE"; "HEAD"; "OPTIONS"].

(** The verb, upper-cased, is one of the seven. *)
Definition supported_verb (method : string) : bool :=
  match toUpperCase method with
  | Some upper => bool_decide (upper ∈ VERBS)
  | None => false
  end.

(** The step has fixture data or the network-error flag. *)
Definition resolved (step : Step.t) : bool :=
  Step.networkError step || bool_decide (is_Some (Step.fixtureData step)).

(** The step's URL is one the [URL] constructor accepts. *)
Definition absolute_url (URL : string -> option Url.t) (step : Step.t) : bool :=
  bool_decide (is_Some (URL (Request.url (Step.request step)))).

(** The nock library builds a scope for the origin of the step's URL. *)
Definition scope_built (URL : string -> option Url.t) (nock : string -> result unit)
    (step : Step.t) : bool :=
  match URL (Request.url (Step.request step)) with
  | Some url => is_Ok (nock (Url.origin url))
  | None => false
  end.

(** Nothing stops the installation of the step's interceptor. *)
Definition installable (URL : string -> option Url.t) (nock : string -> result unit)
    (step : Step.t) : bool :=
  absolute_url URL step
  && supported_verb (Request.method (Step.request step))
  && scope_built URL nock step
  && resolved step.

(** The result of an installation is some [UnsupportedMethod]. *)
Definition fails_unsupported (r : result (list Interceptor.t)) : Prop :=
  exists method, r = Throw (UnsupportedMethod method).

(** The [URL] constructor on the two addresses the examples use. *)
Definition sample_URL (text : string) : option Url.t :=
  if String.eqb text "https://example.com/users"
  then Some (Url.mk "https://example.com" "/users" EmptyString)
  else if String.eqb text "ftp://example.com/users"
  then Some (Url.mk "ftp://example.com" "/users" EmptyString)
  else None.

(** [nock(origin)] on their origins: the protocol must be [http:] or
    [https:]. *)
Definition sample_nock (origin : string) : result unit :=
  if String.prefix "http://" origin || String.prefix "https://" origin
  then Ok tt else Throw TypeError.

(** A fixture to answer with. *)
Definition sample_fixture : Fixture.t := Fixture.mk 200 ∅ "{}".

(** A step with a supported verb and nothing to answer with. *)
Definition unresolved_step : Step.t :=
  Step.mk (Request.mk "GET" "https://example.com/users" None) None None false.

(** A step with an unsupported verb that is otherwise complete. *)
Definition unsupported_step : Step.t :=
  Step.mk (Request.mk "TRACE" "https://example.com/users" None) None
    (Some sample_fixture) false.

(** A complete step whose verb is written in lower case. *)
Definition lowercase_step : Step.t :=
  Step.mk (Request.mk "post" "https://example.com/users" None) None
    (Some sample_fixture) false.

(** A complete step whose URL has the protocol [ftp:]. *)
Definition ftp_step : Step.t :=
  Step.mk (Request.mk "GET" "ftp://example.com/users" None) None
    (Some sample_fixture) false.

(** *** Fixture text *)

(** The character occurs in the text. *)
Fixpoint has_char (c : ascii) (s : string) : bool :=
  match s with
  | EmptyString => false
  | String x s' => Ascii.eqb x c || has_char c s'
  end.

(** The text ends with a carriage return. *)
Fixpoint ends_with_CR (s : string) : bool :=
  match s with
  | EmptyString => false
  | String c EmptyString => Ascii.eqb c CR
  | String _ s' => ends_with_CR s'
  end.

(** The blank line that ends the header block. *)
Definition blank : string := String LF (String LF EmptyString).

(** A string of three decimal digits. *)
Definition digits3 (d1 d2 d3 : ascii) : string :=
  String d1 (String d2 (String d3 EmptyString)).

(** The first line of the header block, which the pattern is tried on. *)
Definition status_line (raw : string) : string :=
  let normalised := replaceCRLF raw in
  let headerSection :=
    match indexOf (String LF (String LF EmptyString)) normalised with
    | None => normalised
    | Some i => slice_to i normalised
    end in
  hd EmptyString (split LF headerSection).

(** The header block as text: its lines, joined by line feeds. *)
Fixpoint header_text (line : string) (lines : list string) : string :=
  match lines with
  | [] => line
  | next :: rest => line +:+ String LF (header_text next rest)
  end.

(** The line a header is serialized to, without its line feed. *)
Definition header_line (h : string * string) : string := h.1 +:+ ": " +:+ h.2.

(** A header as the parser stores it: both parts trimmed and on one
    line, the name free of colons and not [__proto__]. *)
Definition clean_header (name value : string) : Prop :=
  trim name = name /\ has_char ":" name = false /\ has_char LF name = false
  /\ name <> "__proto__"
  /\ trim value = value /\ has_char LF value = false.

(** A raw text whose body keeps a CR LF pair after the line endings are
    normalised. *)
Definition raw_with_CR_CR_LF : string :=
  "HTTP/1.1 200 OK" +:+ nl +:+ nl +:+ "A" +:+ String CR crlf +:+ "B".

(* ================================================================= *)
(** * Part I, continued: the rest of the source modules *)
(* ================================================================= *)

(** ** parse-fixture.mjs: parseFixture *)

Section ParseFixture.
(** [path.isAbsolute], [path.resolve] and [readFileSync(path, 'utf-8')]. *)
Variable isAbsolute : string -> bool.
Variable resolve : string -> string -> string.
Variable readFileSync : string -> result string.

Definition parseFixture (filePath baseDir : string) : result Fixture.t :=
  let resolved := if isAbsolute filePath then filePath else resolve baseDir filePath in
  match readFileSync resolved with
  | Throw e => Throw e
  | Ok raw => parseFixtureString raw
  end.

(** ** index.mjs: resolveStepFixtures *)

Definition MissingFixture (request : Request.t) : exn :=
  Error ("Step for " +:+ Request.method request +:+ " " +:+ Request.url request
         +:+ " has no fixture, fixtureData, or networkError").

(** The callback of [steps.map]. *)
Definition resolveStep (scenariosDir : string) (step : Step.t) : result Step.t :=
  if bool_decide (is_Some (Step.fixtureData step)) || Step.networkError step then
    Ok step
  else
    match Step.fixture step with
    | None | Some EmptyString => Throw (MissingFixture (Step.request step))
    | Some fixture =>
        match parseFixture fixture scenariosDir with
        | Throw e => Throw e
        | Ok fixtureData =>
            Ok (Step.mk (Step.request step) (Step.fixture step) (Some fixtureData)
                  (Step.networkError step))
        end
    end.

(** [steps.map(step => ...)]: the first throw ends the traversal. *)
Fixpoint resolveStepFixtures (steps : list Step.t) (scenariosDir : string)
  : result (list Step.t) :=
  match steps with
  | [] => Ok []
  | step :: rest =>
      match resolveStep scenariosDir step with
      | Throw e => Throw e
      | Ok s =>
          match resolveStepFixtures rest scenariosDir with
          | Throw e => Throw e
          | Ok ss => Ok (s :: ss)
          end
      end
  end.
End ParseFixture.

(** ** index.mjs: the body of a registered test *)

Module Env.
(** What a test runs in: the world of the script, the interceptors
    registered with nock, whether real connections are allowed, and the
    console. *)
Record t (W C : Type) : Type := mk {
  world : W;
  active : list Interceptor.t;
  netConnect : bool;
  console : C
}.
Arguments mk {W C} _ _ _ _.
Arguments world {W C} _.
Arguments active {W C} _.
Arguments netConnect {W C} _.
Arguments console {W C} _.
End Env.

Section TestBody.
Context {W C : Type}.
Variable JSON_stringify : value -> string.
Variable inherited : value -> string -> value.
Variable URL : string -> option Url.t.
Variable nock : string -> result unit.
Variable isAbsolute : string -> bool.
Variable resolve : string -> string -> string.
Variable readFileSync : string -> result string.
(** [scope.done()] of nock: it throws when the interceptor of the scope
    was not used. *)
Variable scope_done : Env.t W C -> Interceptor.t -> result unit.
(** The console with [log] and [error] replaced by [() => {}]. *)
Variable muted : C.

(** [for (const scope of scopes) scope.done()]. *)
Fixpoint verifyScopes (scopes : list Interceptor.t) (env : Env.t W C) : result unit :=
  match scopes with
  | [] => Ok tt
  | scope :: rest =>
      match scope_done env scope with
      | Throw e => Throw e
      | Ok _ => verifyScopes rest env
      end
  end.

(** The callback of [test(scenario.name, async () => ...)]. *)
Definition runTest (script : Script.t (Env.t W C)) (action : Action.t)
    (scenario : Scenario.t) (scenariosDir : string) (st : state (Env.t W C))
  : result unit * state (Env.t W C) :=
  let merged := mergeDefaults action scenario in
  let params := Merged.params merged in
  let context := Merged.context merged in
  match Scenario.steps scenario with
  | None => (Throw TypeError, st)
  | Some steps =>
      match resolveStepFixtures isAbsolute resolve readFileSync steps scenariosDir with
      | Throw e => (Throw e, st)
      | Ok resolvedSteps =>
          let env := world st in
          (* nock.disableNetConnect() *)
          let env := Env.mk (Env.world env) (Env.active env) false (Env.console env) in
          match setupNock URL nock resolvedSteps (Env.active env) with
          | (Throw e, active) =>
              (Throw e,
               mkState (Env.mk (Env.world env) active false (Env.console env)) (calls st))
          | (Ok scopes, active) =>
              let origConsole := Env.console env in
              let env := Env.mk (Env.world env) active false muted in
              let (outcome, st') :=
                runScenarioHandlers JSON_stringify inherited script params context scenario
                  (mkState env (calls st)) in
              let outcome :=
                match outcome with
                | Throw e => Throw e
                | Ok _ => verifyScopes scopes (world st')
                end in
              (* finally *)
              let env' := world st' in
              (outcome,
               mkState (Env.mk (Env.world env') (Env.active env') (Env.netConnect env')
                          origConsole)
                 (calls st'))
          end
      end
  end.

(** [afterEach(() => { cleanupNock(); })]: [nock.cleanAll()] and
    [nock.enableNetConnect()]. *)
Definition afterEach (st : state (Env.t W C)) : state (Env.t W C) :=
  let env := world st in
  mkState (Env.mk (Env.world env) (cleanupNock (Env.active env)) true (Env.console env))
    (calls st).
End TestBody.

(** ** cli/init.mjs *)

Module Exit.
(** How the process ends: with an exit code, or on an exception that
    nothing catches. *)
Inductive t : Type :=
| Code (n : nat)
| Uncaught (e : exn).
End Exit.

Module InitResult.
(** What a run of the command leaves: how it ended, what the command
    wrote to [process.stderr] and logged with [console.log], call by
    call, the file system, and the calls of [writeFileSync], each with
    the file system it ran on, the path and the content.  What the
    runtime prints for an uncaught exception is not part of it. *)
Record t (FS : Type) : Type := mk {
  exit : Exit.t;
  stderr : list string;
  stdout : list string;
  fs : FS;
  writes : list (FS * string * string)
}.
Arguments mk {FS} _ _ _ _ _.
Arguments exit {FS} _.
Arguments stderr {FS} _.
Arguments stdout {FS} _.
Arguments fs {FS} _.
Arguments writes {FS} _.
End InitResult.

Module Progress.
(** The file system and the two lists [created] and [skipped], with the
    log of the writes. *)
Record t (FS : Type) : Type := mk {
  fs : FS;
  created : list string;
  skipped : list string;
  writes : list (FS * string * string)
}.
Arguments mk {FS} _ _ _ _.
Arguments fs {FS} _.
Arguments created {FS} _.
Arguments skipped {FS} _.
Arguments writes {FS} _.
End Progress.

Section Init.
(** The file system, and the four functions of [fs] the command calls. *)
Variable FS : Type.
Variable existsSync : FS -> string -> bool.
Variable readFileSync : FS -> string -> result string.
Variable mkdirSync : FS -> string -> result unit * FS.
Variable writeFileSync : FS -> string -> string -> result unit * FS.
(** [path.join]. *)
Variable join : list string -> string.
(** [yaml.load(raw)] followed by [{ name: doc.name, inputs: doc.inputs
    ?? {} }]; either may throw. *)
Variable Metadata : Type.
Variable load_metadata : string -> result Metadata.
(** [`${metadata.name}`]. *)
Variable metadata_name : Metadata -> string.
(** The two generators of [generate.mjs]. *)
Variable generateScenariosYaml : Metadata -> result string.
Variable generateFixture : result string.

Definition metadata_missing : list string :=
  [ "Error: metadata.yaml not found in current directory." +:+ nl;
    "Run this command from the root of an action repository." +:+ nl ].

Definition initialized_message (name : string) : string :=
  nl +:+ "Initialized scenario tests for " +:+ name +:+ nl.

Definition created_message (f : string) : string := "  Created: " +:+ f.

Definition skipped_message (f : string) : string :=
  "  Skipped: " +:+ f +:+ " (already exists)".

Definition next_steps : string :=
  nl +:+ concat_strings (map (fun line => line +:+ nl)
    [ "Next steps:";
      "  1. Edit tests/scenarios.yaml:";
      "     - Set the request method and URL to match your action's API call";
      "     - Set invoke.returns to match your action's actual return values";
      "     - Add more scenarios for error cases (429, 401, etc.)";
      "  2. Edit tests/fixtures/200-success.http:";
      "     - Replace the body with an actual API response (use: curl -i <url>)";
      "     - Create additional fixtures for error scenarios";
      "  3. Update tests/script.test.js to use scenario-based testing:";
      "     import { runScenarios } from '@sgnl-actions/testing';";
      "     runScenarios({ script: './src/script.mjs', scenarios: './tests/scenarios.yaml' });";
      "  4. Run: npm test" ]).

(** [if (existsSync(path)) { skipped.push(label); } else {
    writeFileSync(path, content); created.push(label); }]. *)
Definition write_unless_exists (path content label : string) (p : Progress.t FS)
  : result unit * Progress.t FS :=
  if existsSync (Progress.fs p) path then
    (Ok tt,
     Progress.mk (Progress.fs p) (Progress.created p) (Progress.skipped p ++ [label])
       (Progress.writes p))
  else
    let log := Progress.writes p ++ [(Progress.fs p, path, content)] in
    match writeFileSync (Progress.fs p) path content with
    | (Throw e, fs') =>
        (Throw e, Progress.mk fs' (Progress.created p) (Progress.skipped p) log)
    | (Ok _, fs') =>
        (Ok tt, Progress.mk fs' (Progress.created p ++ [label]) (Progress.skipped p) log)
    end.

(** The run ends on an exception. *)
Definition uncaught (e : exn) (p : Progress.t FS) : InitResult.t FS :=
  InitResult.mk (Exit.Uncaught e) [] [] (Progress.fs p) (Progress.writes p).

(** The script, run in the directory [cwd] on the file system [fs]. *)
Definition init (cwd : string) (fs : FS) : InitResult.t FS :=
  let start := Progress.mk fs [] [] [] in
  let metadataPath := join [cwd; "metadata.yaml"] in
  if negb (existsSync fs metadataPath) then
    InitResult.mk (Exit.Code 1) metadata_missing [] fs []
  else
    match readFileSync fs metadataPath with
    | Throw e => uncaught e start
    | Ok raw =>
    match load_metadata raw with
    | Throw e => uncaught e start
    | Ok metadata =>
    match generateScenariosYaml metadata with
    | Throw e => uncaught e start
    | Ok scenariosContent =>
    match generateFixture with
    | Throw e => uncaught e start
    | Ok fixtureContent =>
    let scenariosPath := join [cwd; "tests"; "scenarios.yaml"] in
    let fixturesDir := join [cwd; "tests"; "fixtures"] in
    let fixturePath := join [fixturesDir; "200-success.http"] in
    match mkdirSync fs fixturesDir with
    | (Throw e, fs1) => uncaught e (Progress.mk fs1 [] [] [])
    | (Ok _, fs1) =>
    match write_unless_exists scenariosPath scenariosContent "tests/scenarios.yaml"
            (Progress.mk fs1 [] [] []) with
    | (Throw e, p) => uncaught e p
    | (Ok _, p) =>
    match write_unless_exists fixturePath fixtureContent
            "tests/fixtures/200-success.http" p with
    | (Throw e, p) => uncaught e p
    | (Ok _, p) =>
        InitResult.mk (Exit.Code 0) []
          ([initialized_message (metadata_name metadata)]
           ++ map created_message (Progress.created p)
           ++ map skipped_message (Progress.skipped p)
           ++ [next_steps])
          (Progress.fs p) (Progress.writes p)
    end end end end end end end.
End Init.

(** ** Vocabulary of the further statements *)

(** *** Fixture text *)

(** The text with its CR LF pairs replaced, as the parser reads it. *)
Definition normalised (raw : string) : string := replaceCRLF raw.

(** The text consists of digits and dots, and has one at least: what
    the pattern admits as the protocol version. *)
Definition version_text (v : string) : Prop :=
  v <> EmptyString /\ skip_while is_digit_or_dot v = EmptyString.

(** The lines of the header block after the status line. *)
Definition header_lines (raw : string) : list string :=
  let normalised := replaceCRLF raw in
  let headerSection :=
    match indexOf (String LF (String LF EmptyString)) normalised with
    | None => normalised
    | Some i => slice_to i normalised
    end in
  tl (split LF headerSection).

(** The header a line stands for: the trimmed texts before and after
    its first colon; none for a line without a colon. *)
Definition header_of_line (line : string) : option (string * string) :=
  match indexOf ":" line with
  | None => None
  | Some i => Some (trim (slice_to i line), trim (slice_from (i + 1) line))
  end.

(** The value of the last line, in the order of the text, that stands
    for a header of the given name. *)
Definition last_header (name : string) (lines : list string) : option string :=
  last (omap (fun line =>
                match header_of_line line with
                | Some (k, v) => if String.eqb k name then Some v else None
                | None => None
                end) lines).

(** The text with every line feed preceded by a carriage return. *)
Fixpoint to_crlf (s : string) : string :=
  match s with
  | EmptyString => EmptyString
  | String c s' =>
      if Ascii.eqb c LF then String CR (String LF (to_crlf s'))
      else String c (to_crlf s')
  end.

(** A fixture text saved with LF line ends. *)
Definition sample_fixture_text : string :=
  "HTTP/1.1 429 Too Many Requests" +:+ nl
  +:+ "Content-Type: text/plain" +:+ nl
  +:+ "Retry-After: 30" +:+ nl
  +:+ "Retry-After : 60" +:+ nl +:+ nl
  +:+ "slow down" +:+ nl +:+ nl +:+ "please".


(** *** Resolution of the fixtures *)

(** [!step.fixture]: the step names no fixture file. *)
Definition no_fixture (step : Step.t) : bool :=
  match Step.fixture step with
  | None | Some EmptyString => true
  | Some _ => false
  end.

(** The step can be resolved: [resolveStepFixtures] gets past it. *)
Definition resolvable (isAbsolute : string -> bool) (resolve : string -> string -> string)
    (readFileSync : string -> result string) (scenariosDir : string) (step : Step.t)
  : bool :=
  is_Ok (resolveStep isAbsolute resolve readFileSync scenariosDir step).

(** A step and the step it is resolved to, for the outcome [load] of
    reading a fixture file. *)
Definition resolution (load : string -> result Fixture.t) (step step' : Step.t) : Prop :=
  Step.request step' = Step.request step
  /\ Step.fixture step' = Step.fixture step
  /\ Step.networkError step' = Step.networkError step
  /\ resolved step' = true
  /\ (resolved step = true -> step' = step)
  /\ (resolved step = false ->
      exists path fixtureData,
        Step.fixture step = Some path /\ path <> EmptyString
        /\ load path = Ok fixtureData
        /\ Step.fixtureData step' = Some fixtureData).

(** The step's URL is absolute, its verb is supported, and the nock
    library builds a scope for its origin. *)
Definition addressable (URL : string -> option Url.t) (nock : string -> result unit)
    (step : Step.t) : bool :=
  absolute_url URL step
  && supported_verb (Request.method (Step.request step))
  && scope_built URL nock step.

(** A directory with one fixture file, [/t/200.http]. *)
Definition sample_isAbsolute (path : string) : bool :=
  match path with String "/" _ => true | _ => false end.

Definition sample_resolve (baseDir path : string) : string :=
  if sample_isAbsolute path then path else baseDir +:+ "/" +:+ path.

Definition sample_readFileSync (path : string) : result string :=
  if String.eqb path "/t/200.http" then Ok ("HTTP/1.1 200 OK" +:+ nl +:+ nl +:+ "{}")
  else Throw (Error ("ENOENT: no such file or directory, open '" +:+ path +:+ "'")).

(** A step that names the fixture file, and a step that names nothing. *)
Definition fixture_step : Step.t :=
  Step.mk (Request.mk "get" "https://example.com/users" None) (Some "200.http") None false.

Definition network_error_step : Step.t :=
  Step.mk (Request.mk "GET" "https://example.com/users" None) None None true.


(** *** Acceptance of a scenario document *)

(** The document has an [action] and a non-empty [scenarios] sequence
    whose entries all pass the per-scenario checks. *)
Definition well_formed (doc : Doc.t) : bool :=
  bool_decide (is_Some (Doc.action doc))
  && match Doc.scenarios doc with
     | Some (first :: others) => forallb scenario_ok (first :: others)
     | Some [] | None => false
     end.

(** The request the templates are instantiated with: that of the first
    step of the first scenario. *)
Definition template_request (doc : Doc.t) : option Request.t :=
  match Doc.scenarios doc with
  | Some (first :: _) => first_step_request first
  | Some [] | None => None
  end.

(** The request with its header constraint left out, as the templates
    copy it. *)
Definition method_and_url (request : Request.t) : Request.t :=
  Request.mk (Request.method request) (Request.url request) None.

(** A scenario written with an empty list of steps. *)
Definition scenario_without_steps : Scenario.t :=
  Scenario.mk (Some "no request at all") (Some []) None None None None
    (Some (Expectation.mk (VObject 1 []) None)) None false.


(** *** Interceptors, continued *)

(** The names of the interceptor methods of nock that [METHOD_MAP]
    selects. *)
Definition NOCK_METHODS : list string :=
  ["get"; "post"; "put"; "patch"; "delete"; "head"; "options"].

(** The step with the verb of its request written differently. *)
Definition with_method (method : string) (step : Step.t) : Step.t :=
  Step.mk
    (Request.mk method (Request.url (Step.request step))
       (Request.headers (Step.request step)))
    (Step.fixture step) (Step.fixtureData step) (Step.networkError step).


(** *** Verdicts *)


(** The call of [invoke] a scenario makes, and the call of the error
    capability for a caught error. *)
Definition invoke_call (params : gmap string value) (context : Context.t) : call :=
  mkCall InvokeCapability params context.

Definition error_call (params : gmap string value) (context : Context.t)
    (caught : value) : call :=
  mkCall ErrorCapability (<["error" := caught]> params) context.


(** *** A registered test *)

(** The state in which the handlers of a scenario run: the world of the
    script as it was, the interceptors as the installation left them,
    real connections blocked and the console muted. *)
Definition handlers_state {W C : Type} (muted : C) (active : list Interceptor.t)
    (st : state (Env.t W C)) : state (Env.t W C) :=
  mkState (Env.mk (Env.world (world st)) active false muted) (calls st).

(** A script that resolves to an empty result, and logs nothing. *)
Definition quiet_script : Script.t (Env.t unit bool) :=
  Script.mk (fun _ _ env => (Resolved (VObject 3 [("ok", VBool true)]), env)) None.

(** A scenario of one step that names the fixture file and expects
    [invoke] to return [ok: true]. *)
Definition fixture_scenario : Scenario.t :=
  Scenario.mk (Some "lists the users") (Some [fixture_step]) None None None None
    (Some (Expectation.mk (VObject 1 [("ok", VBool true)]) None)) None false.

(** The state before any test: nothing registered, real connections
    allowed, the console audible ([true]; [false] is the muted one). *)
Definition fresh_state : state (Env.t unit bool) :=
  mkState (Env.mk tt [] true true) [].


(** A script that uses up every registered interceptor and resolves. *)
Definition fetching_script : Script.t (Env.t unit bool) :=
  Script.mk
    (fun _ _ env =>
       (Resolved (VObject 3 [("ok", VBool true)]),
        Env.mk (Env.world env) [] (Env.netConnect env) (Env.console env)))
    None.

(** [scope.done()] where interceptors are used up in the order they were
    registered: it throws while some interceptor is pending. *)
Definition sample_scope_done (env : Env.t unit bool) (scope : Interceptor.t)
  : result unit :=
  match Env.active env with
  | [] => Ok tt
  | pending :: _ =>
      Throw (Error ("Mocks not yet satisfied: " +:+ Interceptor.method pending +:+ " "
                    +:+ Interceptor.origin pending +:+ Interceptor.path pending))
  end.

(** A scenario whose step names a file that is not there. *)
Definition missing_fixture_scenario : Scenario.t :=
  Scenario.mk (Some "lists the users")
    (Some [Step.mk (Request.mk "GET" "https://example.com/users" None)
             (Some "404.http") None false])
    None None None None
    (Some (Expectation.mk (VObject 1 [("ok", VBool true)]) None)) None false.


(** *** The command line *)

(** The two files the command creates, relative to the directory it
    runs in. *)
Definition scenarios_label : string := "tests/scenarios.yaml".
Definition fixture_label : string := "tests/fixtures/200-success.http".

(** A file system of regular files, in which every directory can be
    made and every file written. *)
Definition sample_join (parts : list string) : string :=
  match parts with
  | [] => "."
  | first :: rest => fold_left (fun acc part => acc +:+ "/" +:+ part) rest first
  end.

Definition sample_existsSync (fs : gmap string string) (path : string) : bool :=
  bool_decide (is_Some (fs !! path)).

Definition sample_readFile (fs : gmap string string) (path : string) : result string :=
  match fs !! path with
  | Some content => Ok content
  | None => Throw (Error ("ENOENT: no such file or directory, open '" +:+ path +:+ "'"))
  end.

Definition sample_mkdirSync (fs : gmap string string) (path : string)
  : result unit * gmap string string :=
  (Ok tt, fs).

Definition sample_writeFileSync (fs : gmap string string) (path content : string)
  : result unit * gmap string string :=
  (Ok tt, <[path := content]> fs).

(** The command on that file system, with generators that return fixed
    texts and a loader that takes the whole file for the name. *)
Definition sample_init (fs : gmap string string) : InitResult.t (gmap string string) :=
  init (gmap string string) sample_existsSync sample_readFile sample_mkdirSync
    sample_writeFileSync sample_join string (fun raw => Ok raw) (fun name => name)
    (fun _ => Ok "scenarios: []") (Ok "HTTP/1.1 200 OK") "/repo" fs.

(** A repository that has its metadata and already has a scenarios
    file. *)
Definition sample_repo : gmap string string :=
  {[ "/repo/metadata.yaml" := "suspend-user";
     "/repo/tests/scenarios.yaml" := "mine" ]}.


(** *** Counting the tests *)

(** The templates that some user-defined scenario overrides by name. *)
Definition overridden_templates (userScenarios : list Scenario.t)
  : list CommonScenario.t :=
  List.filter (overridden_by userScenarios) COMMON_SCENARIOS.

(* ================================================================= *)
(** * Part II: properties *)
(* ================================================================= *)

(** Text built with [+:+] is to compute under [cbn]. *)
#[local] Arguments String.append !s1 s2 / : simpl nomatch.

(** ** mergeDefaults *)

Lemma spread2_lookup {A} (a b : gmap string A) (k : string) :
  spread2 a b !! k = match b !! k with Some v => Some v | None => a !! k end.
Proof.
  unfold spread2. rewrite lookup_union.
  destruct (b !! k), (a !! k); reflexivity.
Qed.

(** C6.  For every action-defaults record and every scenario, the
    merged [params], [context.secrets] and [context.environment] hold,
    under each key, the scenario-level value when the scenario specifies
    the key and the action-level value otherwise; the value is taken
    whole, nothing below a key is merged.  In particular action params
    [{a:1,b:2}] and scenario params [{b:3,c:4}] merge to
    [{a:1,b:3,c:4}]. *)
Theorem mergeDefaults_overrides :
  (forall (action : Action.t) (scenario : Scenario.t),
      let merged := mergeDefaults action scenario in
      (forall k, Merged.params merged !! k
                 = overridden (Scenario.params scenario) (Action.params action) k)
      /\ (exists secrets,
             Context.secrets (Merged.context merged) = Some secrets
             /\ forall k, secrets !! k
                  = overridden
                      (Context.secrets (context_or_empty (Scenario.context scenario)))
                      (Context.secrets (context_or_empty (Action.context action))) k)
      /\ (exists environment,
             Context.environment (Merged.context merged) = Some environment
             /\ forall k, environment !! k
                  = overridden
                      (Context.environment (context_or_empty (Scenario.context scenario)))
                      (Context.environment (context_or_empty (Action.context action))) k))
  /\ (forall actionContext name steps request fixture context invoke error common,
         Merged.params
           (mergeDefaults
              (Action.mk
                 (Some {[ "a" := VNumber (num 1); "b" := VNumber (num 2) ]})
                 actionContext)
              (Scenario.mk name steps request fixture
                 (Some {[ "b" := VNumber (num 3); "c" := VNumber (num 4) ]})
                 context invoke error common))
         = {[ "a" := VNumber (num 1); "b" := VNumber (num 3); "c" := VNumber (num 4) ]}).
Proof.
  split.
  - intros action scenario merged. subst merged. unfold mergeDefaults, overridden.
    cbn [Merged.params Merged.context Context.secrets Context.environment].
    split; [| split].
    + intros k. apply spread2_lookup.
    + eexists. split; [reflexivity |]. intros k. apply spread2_lookup.
    + eexists. split; [reflexivity |]. intros k. apply spread2_lookup.
  - intros. unfold mergeDefaults. cbn [Merged.params Action.params Scenario.params default].
    vm_compute. reflexivity.
Qed.

(** ** runScenarioHandlers: expectations that are neither form *)

(** C9.  When the invoke expectation has neither a truthy [returns] nor
    a [throws] key, [runScenarioHandlers] returns normally and leaves
    the state as it was: no capability of the script is called and
    nothing is thrown. *)
Theorem runScenarioHandlers_vacuous {W : Type} (JSON_stringify : value -> string)
    (inherited : value -> string -> value)
    (script : Script.t W) (params : gmap string value) (context : Context.t)
    (scenario : Scenario.t) (invokeExpect : Expectation.t) (st : state W) :
  Scenario.invoke scenario = Some invokeExpect ->
  truthy (Expectation.returns invokeExpect) = false ->
  Expectation.throws invokeExpect = None ->
  runScenarioHandlers JSON_stringify inherited script params context scenario st
  = (Ok tt, st)
  /\ calls
       (runScenarioHandlers JSON_stringify inherited script params context scenario st).2
     = calls st.
Proof.
  intros Hinvoke Hreturns Hthrows.
  unfold runScenarioHandlers. rewrite Hinvoke, Hreturns, Hthrows.
  split; reflexivity.
Qed.

(** An empty [invoke] mapping, and one whose [returns] is [null]: the
    scenario passes without the script being called, even though its
    [invoke] would reject. *)
Lemma runScenarioHandlers_vacuous_witness :
  let script : Script.t unit :=
    Script.mk (fun _ _ w => (Rejected (error_value (mkError 0 "boom" [])), w)) None in
  let scenario :=
    Scenario.mk (Some "neither form") (Some []) None None None None
      (Some (Expectation.mk VNull None)) None false in
  let st := mkState tt [] in
  runScenarioHandlers (fun _ => EmptyString) sample_inherited script ∅ Context.empty
    scenario st
  = (Ok tt, st)
  /\ calls
       (runScenarioHandlers (fun _ => EmptyString) sample_inherited script ∅
          Context.empty scenario st).2
     = calls st.
Proof.
  intros script scenario st.
  apply (runScenarioHandlers_vacuous (fun _ => EmptyString) sample_inherited script ∅
           Context.empty scenario (Expectation.mk VNull None) st); reflexivity.
Defined.

(** ** The two defaults of includeCommon *)

Lemma parseScenariosString_without_common (yaml_load : string -> Doc.t)
    (yamlString : string) :
  parseScenariosString yaml_load yamlString (Some (ParseOptions.mk (Some false)))
  = user_scenarios_only (yaml_load yamlString).
Proof.
  unfold parseScenariosString, user_scenarios_only. cbn [default ParseOptions.includeCommon].
  destruct (Doc.action (yaml_load yamlString)); [| reflexivity].
  destruct (Doc.scenarios (yaml_load yamlString)) as [[| s l] |]; try reflexivity.
Qed.

(** C10.  [parseScenariosString] takes [includeCommon] to be false when
    the options, or the key, are left out, and then yields the
    user-defined scenarios only; [runScenarios] takes it to be true when
    it is left out.  On a one-scenario file the first gives one
    scenario and the second registers nine tests. *)
Theorem includeCommon_defaults :
  (forall (yaml_load : string -> Doc.t) (yamlString : string),
      parseScenariosString yaml_load yamlString None
      = parseScenariosString yaml_load yamlString (Some (ParseOptions.mk (Some false)))
      /\ parseScenariosString yaml_load yamlString (Some (ParseOptions.mk None))
         = parseScenariosString yaml_load yamlString (Some (ParseOptions.mk (Some false)))
      /\ parseScenariosString yaml_load yamlString None
         = user_scenarios_only (yaml_load yamlString))
  /\ (forall yaml_load readFileSync resolve dirname cwd scenariosPath callerDir,
         runScenarios yaml_load readFileSync resolve dirname cwd
           (RunOptions.mk scenariosPath None callerDir)
         = runScenarios yaml_load readFileSync resolve dirname cwd
             (RunOptions.mk scenariosPath (Some true) callerDir))
  /\ scenario_count (parseScenariosString (fun _ => sample_doc) "text" None) = Some 1
  /\ suite_count
       (runScenarios (fun _ => sample_doc) (fun _ => Ok "text")
          (fun base path => path) (fun path => path) "/"
          (RunOptions.mk "scenarios.yaml" None None)) = Some 9.
Proof.
  split; [| split; [| split]].
  - intros yaml_load yamlString.
    split; [reflexivity |]. split; [reflexivity |].
    apply (parseScenariosString_without_common yaml_load yamlString).
  - intros. reflexivity.
  - vm_compute. reflexivity.
  - vm_compute. reflexivity.
Qed.

(** ** The assertion helpers *)

Section AssertionFacts.
Context {W : Type}.
Variable JSON_stringify : value -> string.
Variable inherited : value -> string -> value.

(** Reading a property fails on [undefined] and [null], and there only. *)
Lemma readable_read (result : value) (key : string) :
  readable result = true -> exists actual, read_prop inherited result key = Ok actual.
Proof.
  unfold read_prop.
  destruct result; cbn [readable]; intros H; try discriminate H;
    match goal with |- context [own_prop ?v ?k] => destruct (own_prop v k) end; eauto.
Qed.

Lemma unreadable_read (result : value) (key : string) :
  readable result = false -> read_prop inherited result key = Throw TypeError.
Proof. destruct result; cbn; intros H; try discriminate H; reflexivity. Qed.


Lemma assertEntries_all_match (what : string) (result : value)
    (entries : list (string * value)) (st : state W) :
  all_match inherited result entries = true ->
  assertEntries JSON_stringify inherited what result entries st = (Ok tt, st).
Proof.
  induction entries as [| [key v] rest IH]; intros Hall; [reflexivity |].
  cbn in Hall. apply andb_true_iff in Hall as [Hhead Hrest].
  cbn [assertEntries]. unfold strict_neq.
  unfold entry_matches in Hhead. cbn [fst snd] in Hhead.
  destruct (read_prop inherited result key) as [actual | e]; [| discriminate Hhead].
  rewrite Hhead. cbn. apply IH, Hrest.
Qed.

Lemma assertEntries_first_mismatch (what : string) (result : value)
    (pre post : list (string * value)) (key : string) (v actual : value)
    (st : state W) :
  all_match inherited result pre = true ->
  read_prop inherited result key = Ok actual ->
  strict_eq actual v = false ->
  assertEntries JSON_stringify inherited what result (pre ++ (key, v) :: post) st
  = (Throw (AssertionFailed (mismatch_message JSON_stringify what key v actual)), st).
Proof.
  induction pre as [| [k w] pre IH]; intros Hall Hread Hneq.
  - cbn [app assertEntries]. unfold strict_neq. rewrite Hread, Hneq. reflexivity.
  - cbn in Hall. apply andb_true_iff in Hall as [Hhead Hrest].
    cbn [app assertEntries]. unfold strict_neq.
    unfold entry_matches in Hhead. cbn [fst snd] in Hhead.
    destruct (read_prop inherited result k) as [held | e]; [| discriminate Hhead].
    rewrite Hhead. cbn. apply IH; assumption.
Qed.

Lemma assertEntries_unreadable (what : string) (result : value)
    (key : string) (v : value) (post : list (string * value)) (st : state W) :
  readable result = false ->
  assertEntries JSON_stringify inherited what result ((key, v) :: post) st
  = (Throw TypeError, st).
Proof.
  intros Hres. cbn [assertEntries]. rewrite unreadable_read by exact Hres. reflexivity.
Qed.

Lemma assertEntries_ok_inv (what : string) (result : value)
    (entries : list (string * value)) (st st' : state W) (u : unit) :
  assertEntries JSON_stringify inherited what result entries st = (Ok u, st') ->
  all_match inherited result entries = true.
Proof.
  induction entries as [| [key v] rest IH]; intros Hrun; [reflexivity |].
  cbn [assertEntries] in Hrun. unfold strict_neq in Hrun.
  cbn. unfold entry_matches at 1. cbn [fst snd].
  destruct (read_prop inherited result key) as [actual | e]; [| discriminate Hrun].
  destruct (strict_eq actual v); cbn in Hrun.
  - cbn. apply IH, Hrun.
  - discriminate Hrun.
Qed.

(** The loop looks at the result only under the expected keys. *)
Lemma assertEntries_agree (what : string) (r1 r2 : value)
    (entries : list (string * value)) (st : state W) :
  (forall kv,
      In kv entries -> read_prop inherited r1 kv.1 = read_prop inherited r2 kv.1) ->
  assertEntries JSON_stringify inherited what r1 entries st
  = assertEntries JSON_stringify inherited what r2 entries st.
Proof.
  induction entries as [| [key v] rest IH]; intros Hagree; [reflexivity |].
  cbn [assertEntries].
  pose proof (Hagree (key, v) (or_introl eq_refl)) as Hkey. cbn in Hkey. rewrite Hkey.
  destruct (read_prop inherited r2 key) as [actual | e]; [| reflexivity].
  destruct (strict_neq actual v); [reflexivity |].
  apply IH. intros kv Hin. apply Hagree. right. exact Hin.
Qed.

Lemma assertReturns_rejected (what : string) (fn : thunk W) (expected : value)
    (st st' : state W) (thrown : value) :
  fn st = (Rejected thrown, st') ->
  assertReturns JSON_stringify inherited what fn expected st
  = (Throw (Raised thrown), st').
Proof.
  intros Hfn. unfold assertReturns, bind, await. rewrite Hfn. reflexivity.
Qed.

Lemma assertReturns_resolved (what : string) (fn : thunk W) (expected : value)
    (entries : list (string * value)) (st st' : state W) (result : value) :
  Object_entries expected = Some entries ->
  fn st = (Resolved result, st') ->
  assertReturns JSON_stringify inherited what fn expected st
  = match assertEntries JSON_stringify inherited what result entries st' with
    | (Ok _, st'') => (Ok result, st'')
    | (Throw e, st'') => (Throw e, st'')
    end.
Proof.
  intros Hentries Hfn. unfold assertReturns, bind, await, entries_of.
  rewrite Hfn, Hentries. cbn.
  destruct (assertEntries JSON_stringify inherited what result entries st')
    as [[u | e] st''];
    reflexivity.
Qed.

(** Whatever the outcome, the state after a helper is the state the
    thunk left. *)
Lemma assertEntries_state (what : string) (result : value)
    (entries : list (string * value)) (st : state W) :
  (assertEntries JSON_stringify inherited what result entries st).2 = st.
Proof.
  induction entries as [| [key v] rest IH]; [reflexivity |].
  cbn [assertEntries]. destruct (read_prop inherited result key)
    as [actual | e]; [| reflexivity].
  destruct (strict_neq actual v); [reflexivity |].
  exact IH.
Qed.

Lemma assertReturns_state (what : string) (fn : thunk W) (expected : value)
    (st : state W) :
  (assertReturns JSON_stringify inherited what fn expected st).2 = (fn st).2.
Proof.
  unfold assertReturns, bind, await, entries_of.
  destruct (fn st) as [[result | thrown] st']; [| reflexivity].
  cbn. destruct (Object_entries expected) as [entries |]; [| reflexivity].
  cbn. pose proof (assertEntries_state what result entries st') as Hst.
  destruct (assertEntries JSON_stringify inherited what result entries st')
    as [[u | e] st''];
    cbn in *; congruence.
Qed.

(** The helper of the throws form, in one equation: what is caught, and
    the two tests. *)
Lemma assertThrows_run (what : string) (fn : thunk W) (expectedMessage : string)
    (st : state W) :
  assertThrows inherited what fn expectedMessage st
  = (let caught :=
       match (fn st).1 with Resolved _ => VUndefined | Rejected thrown => thrown end in
     if negb (truthy caught) then Throw (AssertionFailed (not_thrown_message what))
     else
       match expectedMessage with
       | EmptyString => Ok caught
       | _ =>
           match message_includes inherited caught expectedMessage with
           | Throw e => Throw e
           | Ok (message, true) => Ok caught
           | Ok (message, false) =>
               Throw (AssertionFailed (not_contained_message expectedMessage message))
           end
       end,
     (fn st).2).
Proof.
  unfold assertThrows, bind, try_catch.
  destruct (fn st) as [[result | thrown] st']; cbn [fst snd]; [reflexivity |].
  destruct (truthy thrown); cbn [negb]; [| reflexivity].
  destruct expectedMessage as [| c m]; [reflexivity |].
  destruct (message_includes inherited thrown (String c m))
    as [[message []] | e]; reflexivity.
Qed.

Lemma assertThrows_state (what : string) (fn : thunk W) (expectedMessage : string)
    (st : state W) :
  (assertThrows inherited what fn expectedMessage st).2 = (fn st).2.
Proof. rewrite assertThrows_run. reflexivity. Qed.



Lemma assertThrows_acceptable (what : string) (fn : thunk W) (expectedMessage : string)
    (st st' : state W) (thrown : value) :
  fn st = (Rejected thrown, st') ->
  acceptable inherited expectedMessage thrown ->
  assertThrows inherited what fn expectedMessage st = (Ok thrown, st').
Proof.
  intros Hfn [Htruthy Hmessage]. rewrite assertThrows_run, Hfn. cbn [fst snd].
  cbv zeta. rewrite Htruthy. cbn [negb].
  destruct Hmessage as [-> | (message & Hread & Hinc)]; [reflexivity |].
  destruct expectedMessage as [| c m]; [reflexivity |].
  unfold message_includes. rewrite Hread, Hinc. reflexivity.
Qed.

Lemma assertThrows_Ok_inv (what : string) (fn : thunk W) (expectedMessage : string)
    (st st' : state W) (caught : value) :
  assertThrows inherited what fn expectedMessage st = (Ok caught, st') ->
  fn st = (Rejected caught, st') /\ acceptable inherited expectedMessage caught.
Proof.
  rewrite assertThrows_run. unfold acceptable.
  destruct (fn st) as [[result | thrown] st0]; cbn [fst snd]; [discriminate |].
  cbv zeta. destruct (truthy thrown) eqn:Htruthy; cbn [negb]; [| discriminate].
  destruct expectedMessage as [| c m].
  - intros [= <- <-]. auto.
  - unfold message_includes.
    destruct (read_prop inherited thrown "message")
      as [[| | | | message |] | e] eqn:Hread; try discriminate.
    destruct (includes (String c m) message) eqn:Hinc; [| discriminate].
    intros [= <- <-]. split; [reflexivity |]. split; [exact Htruthy |].
    right. exists message. auto.
Qed.



End AssertionFacts.

(** ** Substring search *)

Lemma prefix_spec (p s : string) :
  String.prefix p s = true <-> exists post, s = p +:+ post.
Proof.
  revert s. induction p as [| a p IH]; intros s; cbn.
  - destruct s; split; eauto.
  - destruct s as [| b s]; cbn.
    + split; [discriminate | intros [post Hpost]; cbn in Hpost; discriminate].
    + destruct (ascii_dec a b) as [-> | Hne].
      * rewrite IH. split; intros [post Hpost]; exists post; cbn in *; congruence.
      * split; [discriminate | intros [post Hpost]; cbn in Hpost; congruence].
Qed.

Lemma indexOf_Some_split (needle s : string) (n : nat) :
  indexOf needle s = Some n ->
  exists pre post, s = pre +:+ needle +:+ post /\ String.length pre = n.
Proof.
  revert n. induction s as [| c s IH]; intros n Hidx; cbn [indexOf] in Hidx.
  - destruct (String.prefix needle EmptyString) eqn:Hp; [| discriminate].
    apply prefix_spec in Hp as [post Hpost]. injection Hidx as <-.
    exists EmptyString, post. split; [exact Hpost | reflexivity].
  - destruct (String.prefix needle (String c s)) eqn:Hp.
    + apply prefix_spec in Hp as [post Hpost]. injection Hidx as <-.
      exists EmptyString, post. split; [exact Hpost | reflexivity].
    + destruct (indexOf needle s) as [m |] eqn:Hm; [| discriminate].
      cbn in Hidx. injection Hidx as <-.
      destruct (IH m eq_refl) as (pre & post & Hs & Hlen).
      exists (String c pre), post. cbn. split; congruence.
Qed.

Lemma indexOf_occurs (needle pre post : string) :
  exists n, indexOf needle (pre +:+ needle +:+ post) = Some n.
Proof.
  induction pre as [| c pre IH]; cbn [append indexOf].
  - assert (String.prefix needle (needle +:+ post) = true) as Hp
        by (apply prefix_spec; eauto).
    destruct (needle +:+ post) eqn:Hs; cbn [indexOf]; rewrite Hp; eauto.
  - destruct (String.prefix needle (String c (pre +:+ needle +:+ post))); [eauto |].
    destruct IH as [n ->]. cbn. eauto.
Qed.

(** [includes] is the plain substring test: the needle occurs, unit for
    unit, somewhere in the text. *)
Lemma includes_spec (needle s : string) :
  includes needle s = true <-> exists pre post, s = pre +:+ needle +:+ post.
Proof.
  unfold includes. split.
  - destruct (indexOf needle s) as [n |] eqn:Hidx; [| discriminate].
    intros _. destruct (indexOf_Some_split _ _ _ Hidx) as (pre & post & Hs & _).
    eauto.
  - intros (pre & post & ->).
    destruct (indexOf_occurs needle pre post) as [n ->]. reflexivity.
Qed.

(** ** The returns form *)

(** C2, as the code has it.  Let the expected mapping have the entries
    [entries].  The assertion succeeds exactly when the call resolves
    and the result's value under every expected key is strictly equal
    to the expected value.  When the call resolves to a value other
    than [undefined] and [null], the first entry, in the order of the
    mapping, whose value is not strictly equal raises [AssertionFailed]
    with the message that names the key, the expected value and the
    actual value.  When it resolves to [undefined] or to [null] and the
    mapping has an entry, reading the first key raises a [TypeError]
    instead.  A rejection of the call is passed on; the result is read
    under the expected keys only, so other keys are ignored; strict
    equality of objects is identity, not structure.
    [assertErrorReturns] follows the same rule and differs in the
    wording of the message. *)
Theorem returns_matching {W : Type} (JSON_stringify : value -> string)
    (inherited : value -> string -> value)
    (fn : thunk W) (expected : value) (entries : list (string * value))
    (st : state W) :
  Object_entries expected = Some entries ->
  ((exists r st',
       assertInvokeReturns JSON_stringify inherited fn expected st = (Ok r, st'))
   <-> (exists result st', fn st = (Resolved result, st')
                           /\ all_match inherited result entries = true))
  /\ ((exists r st',
          assertErrorReturns JSON_stringify inherited fn expected st = (Ok r, st'))
      <-> (exists result st', fn st = (Resolved result, st')
                              /\ all_match inherited result entries = true))
  /\ (forall result st',
         fn st = (Resolved result, st') ->
         all_match inherited result entries = true ->
         assertInvokeReturns JSON_stringify inherited fn expected st = (Ok result, st')
         /\ assertErrorReturns JSON_stringify inherited fn expected st = (Ok result, st'))
  /\ (forall result st' pre key v post,
         fn st = (Resolved result, st') ->
         readable result = true ->
         entries = pre ++ (key, v) :: post ->
         all_match inherited result pre = true ->
         entry_matches inherited result (key, v) = false ->
         exists actual,
           read_prop inherited result key = Ok actual
           /\ strict_eq actual v = false
           /\ assertInvokeReturns JSON_stringify inherited fn expected st
              = (Throw (AssertionFailed
                          (mismatch_message JSON_stringify "invoke" key v actual)), st')
           /\ assertErrorReturns JSON_stringify inherited fn expected st
              = (Throw (AssertionFailed
                          (mismatch_message JSON_stringify "error handler" key v actual)),
                 st'))
  /\ (forall result st' key v post,
         fn st = (Resolved result, st') ->
         readable result = false ->
         entries = (key, v) :: post ->
         assertInvokeReturns JSON_stringify inherited fn expected st
         = (Throw TypeError, st')
         /\ assertErrorReturns JSON_stringify inherited fn expected st
            = (Throw TypeError, st'))
  /\ (forall thrown st',
         fn st = (Rejected thrown, st') ->
         assertInvokeReturns JSON_stringify inherited fn expected st
         = (Throw (Raised thrown), st')
         /\ assertErrorReturns JSON_stringify inherited fn expected st
            = (Throw (Raised thrown), st'))
  /\ (forall what r1 r2 (st' : state W),
         (forall kv,
             In kv entries ->
             read_prop inherited r1 kv.1 = read_prop inherited r2 kv.1) ->
         assertEntries JSON_stringify inherited what r1 entries st'
         = assertEntries JSON_stringify inherited what r2 entries st')
  /\ (forall r1 r2 props, r1 <> r2 ->
         strict_eq (VObject r1 props) (VObject r2 props) = false).
Proof.
  intros Hentries.
  assert (forall what,
             (exists r st',
                 assertReturns JSON_stringify inherited what fn expected st = (Ok r, st'))
             <-> (exists result st', fn st = (Resolved result, st')
                                     /\ all_match inherited result entries = true)) as Hiff.
  { intros what. split.
    - intros (r & st' & Hrun).
      destruct (fn st) as [[result | thrown] st1] eqn:Hfn.
      + rewrite (assertReturns_resolved _ _ _ _ _ _ _ _ _ Hentries Hfn) in Hrun.
        destruct (assertEntries JSON_stringify inherited what result entries st1)
          as [[u | e] st2] eqn:Hloop; [| discriminate].
        exists result, st1. split; [reflexivity |].
        eapply assertEntries_ok_inv, Hloop.
      + rewrite (assertReturns_rejected _ _ _ _ _ _ _ _ Hfn) in Hrun. discriminate.
    - intros (result & st' & Hfn & Hall).
      exists result, st'.
      rewrite (assertReturns_resolved _ _ _ _ _ _ _ _ _ Hentries Hfn).
      rewrite assertEntries_all_match by assumption. reflexivity. }
  assert (forall what result st',
             fn st = (Resolved result, st') ->
             all_match inherited result entries = true ->
             assertReturns JSON_stringify inherited what fn expected st
             = (Ok result, st')) as Hok.
  { intros what result st' Hfn Hall.
    rewrite (assertReturns_resolved _ _ _ _ _ _ _ _ _ Hentries Hfn).
    rewrite assertEntries_all_match by assumption. reflexivity. }
  assert (forall what result st' pre key v post actual,
             fn st = (Resolved result, st') ->
             entries = pre ++ (key, v) :: post ->
             all_match inherited result pre = true ->
             read_prop inherited result key = Ok actual ->
             strict_eq actual v = false ->
             assertReturns JSON_stringify inherited what fn expected st
             = (Throw (AssertionFailed
                         (mismatch_message JSON_stringify what key v actual)), st'))
    as Hfail.
  { intros what result st' pre key v post actual Hfn -> Hpre Hread Hneq.
    rewrite (assertReturns_resolved _ _ _ _ _ _ _ _ _ Hentries Hfn).
    rewrite (assertEntries_first_mismatch _ _ _ _ _ _ _ _ actual) by assumption.
    reflexivity. }
  assert (forall what result st' key v post,
             fn st = (Resolved result, st') ->
             readable result = false ->
             entries = (key, v) :: post ->
             assertReturns JSON_stringify inherited what fn expected st
             = (Throw TypeError, st'))
    as Htype.
  { intros what result st' key v post Hfn Hres ->.
    rewrite (assertReturns_resolved _ _ _ _ _ _ _ _ _ Hentries Hfn).
    rewrite assertEntries_unreadable by exact Hres. reflexivity. }
  unfold assertInvokeReturns, assertErrorReturns.
  split; [apply Hiff |]. split; [apply Hiff |].
  split; [intros result st' Hfn Hall; split; apply Hok; assumption |].
  split.
  { intros result st' pre key v post Hfn Hres Hsplit Hpre Hmiss.
    destruct (readable_read inherited result key Hres) as [actual Hread].
    unfold entry_matches in Hmiss. cbn [fst snd] in Hmiss. rewrite Hread in Hmiss.
    exists actual. split; [exact Hread |]. split; [exact Hmiss |].
    split; eapply Hfail; eassumption. }
  split; [intros result st' key v post Hfn Hres Hsplit; split; eapply Htype; eassumption |].
  split; [intros thrown st' Hfn; split; eapply assertReturns_rejected; eassumption |].
  split.
  - intros what r1 r2 st' Hagree. apply assertEntries_agree, Hagree.
  - intros r1 r2 props Hne. cbn. apply Nat.eqb_neq, Hne.
Qed.

(** The test "fails when a key value does not match": the second
    expected entry differs, and the message names it. *)
Lemma returns_matching_witness :
  let JSON_stringify := fun v =>
    match v with VBool true => "true" | VBool false => "false" | _ => "?" end in
  let fn : thunk unit := fun st =>
    (Resolved (VObject 9 [("userId", VString "usr123"); ("suspended", VBool false)]),
     st) in
  let expected :=
    VObject 7 [("userId", VString "usr123"); ("suspended", VBool true)] in
  assertInvokeReturns JSON_stringify sample_inherited fn expected (mkState tt [])
  = (Throw (Error "Expected invoke result.suspended to be true, got false"),
     mkState tt []).
Proof.
  intros JSON_stringify fn expected.
  pose proof (returns_matching JSON_stringify sample_inherited fn expected
                [("userId", VString "usr123"); ("suspended", VBool true)]
                (mkState tt []) eq_refl) as (_ & _ & _ & Hfail & _).
  destruct (Hfail _ _ [("userId", VString "usr123")] "suspended" (VBool true) []
              eq_refl eq_refl eq_refl eq_refl eq_refl)
    as (actual & [= <-] & _ & Hinvoke & _).
  exact Hinvoke.
Defined.

(** C2, as stated, fails: [invoke] resolves to [undefined], as a
    capability that returns nothing does; the expected key [status] has
    no strictly equal value in it, and yet what is raised is not an
    [AssertionFailed] that names the key but the [TypeError] of the
    reading. *)
Lemma undefined_result_raises_TypeError :
  let fn : thunk unit := fun st => (Resolved VUndefined, st) in
  let expected := VObject 7 [("status", VString "ok")] in
  let outcome :=
    assertInvokeReturns (fun _ => EmptyString) sample_inherited fn expected
      (mkState tt []) in
  Object_entries expected = Some [("status", VString "ok")]
  /\ entry_matches sample_inherited VUndefined ("status", VString "ok") = false
  /\ outcome = (Throw TypeError, mkState tt [])
  /\ forall message, outcome.1 <> Throw (AssertionFailed message).
Proof.
  cbv zeta. split; [reflexivity |]. split; [reflexivity |]. split; [reflexivity |].
  intros message. vm_compute. discriminate.
Qed.

(** ** The throws form *)




(** ** Phase 2 of runScenarioHandlers *)

Section PhaseTwo.
Context {W : Type}.
Variable JSON_stringify : value -> string.
Variable inherited : value -> string -> value.

Lemma call_handler_run (cap : capability) (h : handler W)
    (params : gmap string value) (context : Context.t) (st : state W)
    (outcome : settled) (w : W) :
  h params context (world st) = (outcome, w) ->
  call_handler cap h params context st
  = (outcome, mkState w (calls st ++ [mkCall cap params context])).
Proof. intros Hh. unfold call_handler. rewrite Hh. reflexivity. Qed.

Lemma call_handler_calls (cap : capability) (h : handler W)
    (params : gmap string value) (context : Context.t) (st : state W) :
  calls (call_handler cap h params context st).2
  = calls st ++ [mkCall cap params context].
Proof.
  unfold call_handler. destruct (h params context (world st)). reflexivity.
Qed.

Lemma bind_ret_state {A : Type} (m : M W A) (st : state W) :
  ((let* _ := m in ret tt) st).2 = (m st).2.
Proof. unfold bind, ret. destruct (m st) as [[a | e] st']; reflexivity. Qed.

(** The call log after a scenario whose [invoke] is expected to throw
    and does so acceptably. *)
Lemma runScenarioHandlers_throws_calls (script : Script.t W)
    (params : gmap string value) (context : Context.t) (scenario : Scenario.t)
    (invokeExpect : Expectation.t) (invokeThrows : string) (e : value)
    (w : W) (st : state W) :
  Scenario.invoke scenario = Some invokeExpect ->
  truthy (Expectation.returns invokeExpect) = false ->
  Expectation.throws invokeExpect = Some invokeThrows ->
  Script.invoke script params context (world st) = (Rejected e, w) ->
  acceptable inherited invokeThrows e ->
  calls (runScenarioHandlers JSON_stringify inherited script params context scenario st).2
  = calls st ++ mkCall InvokeCapability params context
      :: (if error_phase_runs script scenario
          then [mkCall ErrorCapability (<["error" := e]> params) context]
          else []).
Proof.
  intros Hinvoke Hreturns Hthrows Hrun Hacc.
  unfold runScenarioHandlers. rewrite Hinvoke, Hreturns, Hthrows.
  unfold assertInvokeThrows. unfold bind at 1.
  rewrite (assertThrows_acceptable _ _ _ _ _ _ _
             (call_handler_run InvokeCapability _ _ _ _ _ _ Hrun) Hacc).
  unfold error_phase_runs, has_form.
  destruct (Scenario.error scenario) as [errorExpect |]; [| reflexivity].
  destruct (Script.error script) as [scriptError |]; [| reflexivity].
  destruct (truthy (Expectation.returns errorExpect)); cbn [orb].
  - rewrite bind_ret_state. unfold assertErrorReturns.
    rewrite assertReturns_state, call_handler_calls. cbn [calls].
    rewrite <- app_assoc. reflexivity.
  - destruct (Expectation.throws errorExpect) as [errorThrows |]; cbn.
    + rewrite bind_ret_state. unfold assertErrorThrows.
      rewrite assertThrows_state, call_handler_calls. cbn [calls].
      rewrite <- app_assoc. reflexivity.
    + reflexivity.
Qed.

End PhaseTwo.

(** C1, as the code has it.  Take a scenario whose invoke expectation is
    [throws] and a script whose [invoke] rejects with an acceptable
    message.  Then [invoke] is called once, and the error capability is
    called, once and after it, if and only if the scenario has an
    [error] expectation with a truthy [returns] or a [throws] key and
    the script exposes an error capability.  When it is called, its
    first argument is the merged params with the key [error] bound to
    the very error that was caught, and its second argument is the
    merged context. *)
Theorem error_capability_called {W : Type} (JSON_stringify : value -> string)
    (inherited : value -> string -> value)
    (script : Script.t W) (params : gmap string value) (context : Context.t)
    (scenario : Scenario.t) (invokeExpect : Expectation.t) (invokeThrows : string)
    (e : value) (w : W) (st : state W) :
  Scenario.invoke scenario = Some invokeExpect ->
  truthy (Expectation.returns invokeExpect) = false ->
  Expectation.throws invokeExpect = Some invokeThrows ->
  Script.invoke script params context (world st) = (Rejected e, w) ->
  acceptable inherited invokeThrows e ->
  let after :=
    (runScenarioHandlers JSON_stringify inherited script params context scenario st).2 in
  (error_called (new_calls st after)
   <-> exists errorExpect scriptError,
         Scenario.error scenario = Some errorExpect
         /\ has_form errorExpect = true
         /\ Script.error script = Some scriptError)
  /\ (forall c, In c (new_calls st after) ->
                call_capability c = ErrorCapability ->
                call_params c = <["error" := e]> params
                /\ call_context c = context)
  /\ new_calls st after
     = mkCall InvokeCapability params context
         :: (if error_phase_runs script scenario
             then [mkCall ErrorCapability (<["error" := e]> params) context]
             else []).
Proof.
  intros Hinvoke Hreturns Hthrows Hrun Hacc after.
  assert (new_calls st after
          = mkCall InvokeCapability params context
              :: (if error_phase_runs script scenario
                  then [mkCall ErrorCapability (<["error" := e]> params) context]
                  else [])) as Hnew.
  { unfold new_calls, after.
    rewrite (runScenarioHandlers_throws_calls JSON_stringify inherited script params context
               scenario invokeExpect invokeThrows e w st) by assumption.
    rewrite drop_app_length. reflexivity. }
  split; [| split; [| exact Hnew]].
  - rewrite Hnew. unfold error_called, error_phase_runs. split.
    + intros (c & Hin & Hcap).
      destruct (Scenario.error scenario) as [errorExpect |],
               (Script.error script) as [scriptError |];
        try (destruct Hin as [<- | []]; discriminate Hcap).
      destruct (has_form errorExpect) eqn:Hform.
      * exists errorExpect, scriptError. auto.
      * destruct Hin as [<- | []]; discriminate Hcap.
    + intros (errorExpect & scriptError & -> & -> & ->).
      eexists. split; [right; left; reflexivity | reflexivity].
  - rewrite Hnew. intros c Hin Hcap.
    destruct Hin as [<- | Hin]; [discriminate Hcap |].
    destruct (error_phase_runs script scenario); [| destruct Hin].
    destruct Hin as [<- | []]. split; reflexivity.
Qed.

(** The scenario "rate limited" of spec section 8: [invoke] rejects
    with a message containing the expected text, and the error
    capability is then called with the caught error under [error]. *)
Lemma error_capability_called_witness :
  let scenario :=
    scenario_with_error
      (Some (Expectation.mk (VObject 2 [("status", VString "retry_requested")]) None)) in
  let st := mkState tt [] in
  let after :=
    (runScenarioHandlers (fun _ => EmptyString) sample_inherited retrying_script
       {[ "userId" := VString "usr123" ]} Context.empty scenario st).2 in
  new_calls st after
  = [ mkCall InvokeCapability {[ "userId" := VString "usr123" ]} Context.empty;
      mkCall ErrorCapability
        (<["error" := error_value rejecting_error]> {[ "userId" := VString "usr123" ]})
        Context.empty ].
Proof.
  intros scenario st after.
  refine (proj2 (proj2 (error_capability_called (fun _ => EmptyString) sample_inherited
            retrying_script {[ "userId" := VString "usr123" ]} Context.empty scenario
            (Expectation.mk VUndefined (Some "429")) "429" (error_value rejecting_error)
            tt st eq_refl eq_refl eq_refl eq_refl _))).
  split; [reflexivity |]. right. eexists. split; [reflexivity |].
  vm_compute. reflexivity.
Defined.

(** C1, as stated, fails: with [error: {}] in the scenario and an error
    capability in the script, both conditions of the claim hold and yet
    the capability is not called. *)
Lemma error_expectation_without_form_not_called :
  let scenario := scenario_with_error (Some (Expectation.mk VUndefined None)) in
  let st := mkState tt [] in
  let after :=
    (runScenarioHandlers (fun _ => EmptyString) sample_inherited retrying_script ∅
       Context.empty scenario st).2 in
  Scenario.invoke scenario = Some (Expectation.mk VUndefined (Some "429"))
  /\ Script.invoke retrying_script ∅ Context.empty (world st)
     = (Rejected (error_value rejecting_error), tt)
  /\ acceptable sample_inherited "429" (error_value rejecting_error)
  /\ ~ (error_called (new_calls st after)
        <-> (is_Some (Scenario.error scenario)
             /\ is_Some (Script.error retrying_script))).
Proof.
  intros scenario st after.
  split; [reflexivity |]. split; [reflexivity |].
  split; [split; [reflexivity |]; right; eexists; split;
          [reflexivity | vm_compute; reflexivity] |].
  intros [_ Hcalled].
  destruct Hcalled as (c & Hin & Hcap); [split; eexists; reflexivity |].
  vm_compute in Hin. destruct Hin as [<- | []]. discriminate Hcap.
Qed.

(** ** Validation of the scenario document *)

Lemma append_assoc (a b c : string) : (a +:+ b) +:+ c = a +:+ b +:+ c.
Proof. induction a as [| x a IH]; cbn; [reflexivity | rewrite IH; reflexivity]. Qed.

Lemma length_append (a b : string) :
  String.length (a +:+ b) = String.length a + String.length b.
Proof. induction a as [| x a IH]; cbn; [reflexivity | rewrite IH; reflexivity]. Qed.

Lemma includes_app_l (needle a b : string) :
  includes needle a = true -> includes needle (a +:+ b) = true.
Proof.
  rewrite !includes_spec. intros (pre & post & ->).
  exists pre, (post +:+ b). rewrite !append_assoc. reflexivity.
Qed.

Lemma includes_app_r (needle a b : string) :
  includes needle b = true -> includes needle (a +:+ b) = true.
Proof.
  rewrite !includes_spec. intros (pre & post & ->).
  exists (a +:+ pre), post. rewrite !append_assoc. reflexivity.
Qed.

(** Finds a needle that lies within one literal piece of a message. *)
Ltac find_in_text :=
  first [ apply includes_app_l; vm_compute; reflexivity
        | vm_compute; reflexivity
        | apply includes_app_r; find_in_text ].

Lemma map_scenarios_app_ok (pre rest : list Scenario.t) (i : nat) :
  Forall (fun s => scenario_ok s = true) pre ->
  exists ns,
    length ns = length pre
    /\ map Scenario.name ns = map Scenario.name pre
    /\ map_scenarios i (pre ++ rest)
       = match map_scenarios (i + length pre) rest with
         | Ok r => Ok (ns ++ r)
         | Throw e => Throw e
         end.
Proof.
  intros Hpre. revert i. induction Hpre as [| s pre Hs Hpre IH]; intros i.
  - exists []. cbn. rewrite Nat.add_0_r.
    destruct (map_scenarios i rest); auto.
  - unfold scenario_ok in Hs.
    apply andb_true_iff in Hs as [Hs Hsteps]. apply andb_true_iff in Hs as [Hname Hinv].
    apply negb_true_iff in Hname. apply bool_decide_eq_true in Hinv as [inv Hinv].
    destruct (IH (S i)) as (ns & Hlen & Hnames & Hrun).
    assert (exists n, normaliseScenario s = Ok n /\ Scenario.name n = Scenario.name s)
      as (n & Hn & Hnn).
    { unfold normaliseScenario.
      destruct (Scenario.steps s) as [steps |]; [eauto |].
      destruct (Scenario.request s) as [request |]; [eauto |].
      cbn in Hsteps. discriminate Hsteps. }
    exists (n :: ns). cbn [length map app map_scenarios].
    unfold validateScenario. rewrite Hname, Hinv, Hn, Hrun.
    replace (i + S (length pre)) with (S i + length pre) by lia.
    split; [congruence |]. split; [congruence |].
    destruct (map_scenarios (S i + length pre) rest); reflexivity.
Qed.

Lemma parseScenariosString_throw (yaml_load : string -> Doc.t) (yamlString : string)
    (options : option ParseOptions.t) (action : Action.t)
    (scenarios : list Scenario.t) (e : exn) :
  Doc.action (yaml_load yamlString) = Some action ->
  Doc.scenarios (yaml_load yamlString) = Some scenarios ->
  map_scenarios 0 scenarios = Throw e ->
  parseScenariosString yaml_load yamlString options = Throw e.
Proof.
  intros Haction Hscenarios Hmap. unfold parseScenariosString.
  rewrite Haction, Hscenarios, Hmap.
  destruct scenarios; [discriminate Hmap | reflexivity].
Qed.

(** C4, as the code has it.  The checks run in this order: the [action]
    section; the [scenarios] sequence; then, scenario by scenario, its
    [name], its [invoke], and last its [steps] or [request].  Each
    failure is a [MalformedScenarioFile] whose message names the field.
    A scenario that lacks both [invoke] and [steps]/[request] fails on
    [invoke]. *)
Theorem validation_order (yaml_load : string -> Doc.t) (yamlString : string)
    (options : option ParseOptions.t) :
  let doc := yaml_load yamlString in
  let outcome := parseScenariosString yaml_load yamlString options in
  (Doc.action doc = None ->
   outcome = Throw (MalformedScenarioFile missing_action_message))
  /\ (is_Some (Doc.action doc) ->
      Doc.scenarios doc = None \/ Doc.scenarios doc = Some [] ->
      outcome = Throw (MalformedScenarioFile missing_scenarios_message))
  /\ (forall pre s post,
         is_Some (Doc.action doc) ->
         Doc.scenarios doc = Some (pre ++ s :: post) ->
         Forall (fun s => scenario_ok s = true) pre ->
         (name_falsy (Scenario.name s) = true ->
          outcome = Throw (MalformedScenarioFile (missing_name_message (length pre))))
         /\ (name_falsy (Scenario.name s) = false ->
             Scenario.invoke s = None ->
             outcome
             = Throw (MalformedScenarioFile (missing_invoke_message (Scenario.name s))))
         /\ (name_falsy (Scenario.name s) = false ->
             is_Some (Scenario.invoke s) ->
             Scenario.steps s = None ->
             Scenario.request s = None ->
             outcome
             = Throw (MalformedScenarioFile (missing_steps_message (Scenario.name s)))))
  /\ (includes "action" missing_action_message = true
      /\ includes "scenarios" missing_scenarios_message = true
      /\ (forall index, includes "name" (missing_name_message index) = true)
      /\ (forall name, includes "invoke" (missing_invoke_message name) = true)
      /\ (forall name, includes "request" (missing_steps_message name) = true
                       /\ includes "steps" (missing_steps_message name) = true)).
Proof.
  intros doc outcome. subst outcome.
  split; [| split; [| split]].
  - unfold parseScenariosString. fold doc. intros ->. reflexivity.
  - unfold parseScenariosString. fold doc. intros [action ->] [-> | ->]; reflexivity.
  - intros pre s post [action Haction] Hdoc Hpre.
    destruct (map_scenarios_app_ok pre (s :: post) 0 Hpre) as (ns & _ & _ & Hrun).
    cbn [Nat.add] in Hrun. fold doc in Hdoc.
    assert (forall e,
               map_scenarios (length pre) (s :: post) = Throw e ->
               parseScenariosString yaml_load yamlString options = Throw e) as Hthrow.
    { intros e He.
      apply (parseScenariosString_throw yaml_load yamlString options action
               (pre ++ s :: post) e Haction Hdoc).
      rewrite Hrun, He. reflexivity. }
    split; [| split].
    + intros Hname. apply Hthrow. cbn [map_scenarios]. unfold validateScenario.
      rewrite Hname. reflexivity.
    + intros Hname Hinv. apply Hthrow. cbn [map_scenarios]. unfold validateScenario.
      rewrite Hname, Hinv. reflexivity.
    + intros Hname [inv Hinv] Hsteps Hrequest. apply Hthrow.
      cbn [map_scenarios]. unfold validateScenario, normaliseScenario.
      rewrite Hname, Hinv, Hsteps, Hrequest. reflexivity.
  - split; [vm_compute; reflexivity |]. split; [vm_compute; reflexivity |].
    split; [| split].
    + intros index. unfold missing_name_message. find_in_text.
    + intros name. unfold missing_invoke_message. find_in_text.
    + intros name. unfold missing_steps_message. split; find_in_text.
Qed.

(** A scenario with a name and neither [invoke] nor [steps]/[request]
    is rejected for its [invoke]. *)
Lemma validation_order_witness :
  parseScenariosString (fun _ => doc_missing_both) "text" None
  = Throw (Error ("Scenario " +:+ dq +:+ "x" +:+ dq +:+ " is missing required field "
                  +:+ dq +:+ "invoke" +:+ dq)).
Proof.
  pose proof (validation_order (fun _ => doc_missing_both) "text" None)
    as (_ & _ & Hscenario & _).
  destruct (Hscenario [] scenario_missing_both [] ltac:(eexists; reflexivity) eq_refl
              (List.Forall_nil _)) as (_ & Hinvoke & _).
  exact (Hinvoke eq_refl eq_refl).
Defined.

(** C4, as stated, fails: the claim has the [steps]/[request] check
    fire before the [invoke] check, but for a scenario that lacks both
    the failure is the one for [invoke], and its message names neither
    [steps] nor [request]. *)
Lemma missing_both_fails_on_invoke :
  let outcome := parseScenariosString (fun _ => doc_missing_both) "text" None in
  Scenario.steps scenario_missing_both = None
  /\ Scenario.request scenario_missing_both = None
  /\ Scenario.invoke scenario_missing_both = None
  /\ outcome = Throw (MalformedScenarioFile (missing_invoke_message (Some "x")))
  /\ outcome <> Throw (MalformedScenarioFile (missing_steps_message (Some "x")))
  /\ includes "steps" (missing_invoke_message (Some "x")) = false
  /\ includes "request" (missing_invoke_message (Some "x")) = false.
Proof.
  cbv zeta. repeat split; try reflexivity.
  vm_compute. discriminate.
Qed.

(** ** Synthesis of the common scenarios *)

Lemma normaliseScenario_ok (s : Scenario.t) :
  scenario_ok s = true ->
  exists n,
    normaliseScenario s = Ok n
    /\ Scenario.name n = Scenario.name s
    /\ (forall r, first_step_request s = Some r ->
                  exists step steps,
                    Scenario.steps n = Some (step :: steps) /\ Step.request step = r).
Proof.
  unfold scenario_ok, normaliseScenario, first_step_request. intros Hok.
  apply andb_true_iff in Hok as [_ Hsteps].
  destruct (Scenario.steps s) as [steps |] eqn:Hs.
  - exists s. split; [reflexivity |]. split; [reflexivity |].
    intros r Hr. destruct steps as [| step steps]; [discriminate |].
    injection Hr as <-. rewrite Hs. eauto.
  - destruct (Scenario.request s) as [request |]; [| discriminate Hsteps].
    eexists. split; [reflexivity |]. split; [reflexivity |].
    intros r Hr. injection Hr as <-. cbn. eauto.
Qed.

Lemma map_scenarios_ok (l : list Scenario.t) (i : nat) :
  Forall (fun s => scenario_ok s = true) l ->
  exists ns,
    map_scenarios i l = Ok ns
    /\ Forall2 (fun s n => normaliseScenario s = Ok n) l ns.
Proof.
  intros Hl. revert i. induction Hl as [| s l Hs Hl IH]; intros i.
  - exists []. split; [reflexivity | constructor].
  - destruct (normaliseScenario_ok s Hs) as (n & Hn & _).
    destruct (IH (S i)) as (ns & Hrun & Hall).
    exists (n :: ns). split; [| constructor; assumption].
    unfold scenario_ok in Hs.
    apply andb_true_iff in Hs as [Hs _]. apply andb_true_iff in Hs as [Hname Hinv].
    apply negb_true_iff in Hname. apply bool_decide_eq_true in Hinv as [inv Hinv].
    cbn [map_scenarios]. unfold validateScenario.
    rewrite Hname, Hinv, Hn, Hrun. reflexivity.
Qed.

Lemma normalised_names (l ns : list Scenario.t) :
  Forall2 (fun s n => normaliseScenario s = Ok n) l ns ->
  map Scenario.name ns = map Scenario.name l.
Proof.
  induction 1 as [| s n l ns Hn _ IH]; [reflexivity |].
  cbn. rewrite IH. f_equal.
  unfold normaliseScenario in Hn.
  destruct (Scenario.steps s); [congruence |].
  destruct (Scenario.request s); [| discriminate Hn].
  injection Hn as <-. reflexivity.
Qed.

Lemma fold_push_common (userNames : gset string) (templateRequest : Request.t)
    (templates : list CommonScenario.t) (allScenarios : list Scenario.t) :
  fold_left (push_common userNames templateRequest) templates allScenarios
  = allScenarios
    ++ map (fun c => common_scenario c templateRequest)
         (List.filter (fun c => negb (bool_decide (CommonScenario.name c ∈ userNames)))
            templates).
Proof.
  revert allScenarios. induction templates as [| c templates IH]; intros allScenarios.
  - cbn. rewrite app_nil_r. reflexivity.
  - cbn [fold_left List.filter]. rewrite IH. unfold push_common.
    destruct (bool_decide (CommonScenario.name c ∈ userNames)); cbn [negb].
    + reflexivity.
    + cbn [map]. rewrite <- app_assoc. reflexivity.
Qed.

Lemma userNames_spec (userScenarios : list Scenario.t) (name : string) :
  name ∈ (list_to_set (omap Scenario.name userScenarios) : gset string)
  <-> Some name ∈ map Scenario.name userScenarios.
Proof.
  rewrite elem_of_list_to_set, list_elem_of_omap, list_elem_of_In, in_map_iff.
  split.
  - intros (s & Hin & Hname). exists s. split; [exact Hname |].
    apply list_elem_of_In, Hin.
  - intros (s & Hname & Hin). exists s. split; [| exact Hname].
    apply list_elem_of_In, Hin.
Qed.

Lemma filter_userNames (userScenarios : list Scenario.t)
    (templates : list CommonScenario.t) :
  List.filter
    (fun c => negb (bool_decide
                      (CommonScenario.name c
                       ∈ (list_to_set (omap Scenario.name userScenarios) : gset string))))
    templates
  = List.filter (fun c => negb (overridden_by userScenarios c)) templates.
Proof.
  apply List.filter_ext. intros c. unfold overridden_by. f_equal.
  apply bool_decide_ext, userNames_spec.
Qed.

Lemma COMMON_SCENARIOS_names :
  map CommonScenario.name COMMON_SCENARIOS
  = [ "handles 401 unauthorized"; "handles 403 forbidden"; "handles 429 rate limit";
      "handles 500 internal server error"; "handles 502 bad gateway";
      "handles 503 service unavailable"; "handles 504 gateway timeout";
      "handles network error" ].
Proof. reflexivity. Qed.

Lemma COMMON_SCENARIOS_NoDup : NoDup (map CommonScenario.name COMMON_SCENARIOS).
Proof.
  rewrite COMMON_SCENARIOS_names. apply (bool_decide_unpack _). vm_compute. exact I.
Qed.

Lemma synthesized_names (userScenarios : list Scenario.t) (templateRequest : Request.t) :
  map Scenario.name (synthesized userScenarios templateRequest)
  = map Some
      (List.filter
         (fun n => negb (bool_decide (Some n ∈ map Scenario.name userScenarios)))
         (map CommonScenario.name COMMON_SCENARIOS)).
Proof.
  unfold synthesized, overridden_by.
  induction COMMON_SCENARIOS as [| c l IH]; [reflexivity |].
  cbn [map List.filter].
  destruct (bool_decide (Some (CommonScenario.name c) ∈ map Scenario.name userScenarios));
    cbn [negb map]; rewrite IH; reflexivity.
Qed.

Lemma synthesized_length (userScenarios : list Scenario.t) (templateRequest : Request.t) :
  length (synthesized userScenarios templateRequest) <= 8.
Proof.
  unfold synthesized. rewrite length_map.
  etransitivity; [apply List.filter_length_le | reflexivity].
Qed.

Lemma synthesized_each (userScenarios : list Scenario.t) (templateRequest : Request.t)
    (s : Scenario.t) :
  In s (synthesized userScenarios templateRequest) ->
  Scenario._common s = true
  /\ Scenario.invoke s = Some throws_anything
  /\ generated_from templateRequest s
  /\ ~ In (Scenario.name s) (map Scenario.name userScenarios).
Proof.
  unfold synthesized. rewrite in_map_iff. intros (c & <- & Hc).
  apply List.filter_In in Hc as [Hc Hfree].
  apply negb_true_iff, bool_decide_eq_false in Hfree.
  split; [reflexivity |].
  assert (Scenario.invoke (common_scenario c templateRequest) = Some throws_anything
          /\ generated_from templateRequest (common_scenario c templateRequest))
    as [Hinv Hgen].
  { unfold generated_from.
    cbn in Hc.
    repeat (destruct Hc as [<- | Hc]; [split; [reflexivity | eexists; repeat split] |]).
    destruct Hc. }
  split; [exact Hinv |]. split; [exact Hgen |].
  intros Hin. apply Hfree. apply list_elem_of_In. exact Hin.
Qed.

(** C5.  Take a file with an [action], with at least one scenario, whose
    scenarios all pass the checks, and whose first scenario has a first
    step.  Parsed with [includeCommon = true] it yields the user-defined
    scenarios, normalised and in their order, followed by the scenarios
    synthesized from the templates that no user-defined scenario
    overrides by name, in the order of the templates (401, 403, 429,
    500, 502, 503, 504, network error), hence at most eight.  Each
    synthesized scenario is generated from the request of the first
    step of the first user-defined scenario, is tagged [_common], and
    expects [throws: '']; none bears the name of a user-defined
    scenario or of another synthesized one, so that the names of the
    result have no duplicates when the user-defined names, which the
    data model takes to be unique, have none. *)
Theorem common_scenarios_appended (yaml_load : string -> Doc.t) (yamlString : string)
    (action : Action.t) (first : Scenario.t) (others : list Scenario.t)
    (templateRequest : Request.t) :
  Doc.action (yaml_load yamlString) = Some action ->
  Doc.scenarios (yaml_load yamlString) = Some (first :: others) ->
  Forall (fun s => scenario_ok s = true) (first :: others) ->
  first_step_request first = Some templateRequest ->
  exists userScenarios,
    Forall2 (fun s n => normaliseScenario s = Ok n) (first :: others) userScenarios
    /\ map Scenario.name userScenarios = map Scenario.name (first :: others)
    /\ (exists first' rest step steps,
           userScenarios = first' :: rest
           /\ Scenario.steps first' = Some (step :: steps)
           /\ Step.request step = templateRequest)
    /\ parseScenariosString yaml_load yamlString (Some (ParseOptions.mk (Some true)))
       = Ok (Parsed.mk action
               (userScenarios ++ synthesized userScenarios templateRequest) None)
    /\ length (synthesized userScenarios templateRequest) <= 8
    /\ map CommonScenario.name COMMON_SCENARIOS
       = [ "handles 401 unauthorized"; "handles 403 forbidden";
           "handles 429 rate limit"; "handles 500 internal server error";
           "handles 502 bad gateway"; "handles 503 service unavailable";
           "handles 504 gateway timeout"; "handles network error" ]
    /\ (forall s, In s (synthesized userScenarios templateRequest) ->
                  Scenario._common s = true
                  /\ Scenario.invoke s = Some throws_anything
                  /\ generated_from templateRequest s
                  /\ ~ In (Scenario.name s) (map Scenario.name userScenarios))
    /\ NoDup (map Scenario.name (synthesized userScenarios templateRequest))
    /\ (NoDup (map Scenario.name (first :: others)) ->
        NoDup (map Scenario.name
                 (userScenarios ++ synthesized userScenarios templateRequest))).
Proof.
  intros Haction Hscenarios Hok Hrequest.
  destruct (map_scenarios_ok (first :: others) 0 Hok) as (userScenarios & Hrun & Hnorm).
  pose proof (normalised_names _ _ Hnorm) as Hnames.
  exists userScenarios.
  assert (exists first' rest step steps,
             userScenarios = first' :: rest
             /\ Scenario.steps first' = Some (step :: steps)
             /\ Step.request step = templateRequest) as Hfirst.
  { inversion Hnorm as [| s n l ns Hn Hrest]; subst.
    apply Forall_cons_1 in Hok as [Hok _].
    destruct (normaliseScenario_ok first Hok) as (n' & Hn' & _ & Hstep).
    assert (n' = n) as -> by congruence.
    destruct (Hstep _ Hrequest) as (step & steps & Hsteps & Hreq).
    exists n, ns, step, steps. auto. }
  split; [exact Hnorm |]. split; [exact Hnames |]. split; [exact Hfirst |].
  assert (NoDup (map Scenario.name (synthesized userScenarios templateRequest)))
    as Hsynth.
  { rewrite synthesized_names. apply (NoDup_fmap_2 Some).
    apply NoDup_ListNoDup, List.NoDup_filter, NoDup_ListNoDup.
    exact COMMON_SCENARIOS_NoDup. }
  split; [| split; [apply synthesized_length |
             split; [apply COMMON_SCENARIOS_names |
               split; [apply synthesized_each | split; [exact Hsynth |]]]]].
  - destruct Hfirst as (first' & rest & step & steps & -> & Hsteps & <-).
    unfold parseScenariosString. rewrite Haction, Hscenarios, Hrun.
    cbn [default ParseOptions.includeCommon]. rewrite Hsteps.
    rewrite fold_push_common, filter_userNames. reflexivity.
  - intros Hnodup. rewrite map_app. apply NoDup_app.
    split; [rewrite Hnames; exact Hnodup |]. split.
    + intros x Hx Hsyn. apply list_elem_of_In, in_map_iff in Hsyn as (s & <- & Hs).
      apply synthesized_each in Hs as (_ & _ & _ & Hfree).
      apply Hfree, list_elem_of_In, Hx.
    + exact Hsynth.
Qed.

(** A file that overrides the 401 template gets the seven others. *)
Lemma common_scenarios_appended_witness :
  exists userScenarios,
    map Scenario.name userScenarios
    = [Some "handles 401 unauthorized"; Some "basic test"]
    /\ parseScenariosString (fun _ => doc_overriding_401) "text"
         (Some (ParseOptions.mk (Some true)))
       = Ok (Parsed.mk (Action.mk None None)
               (userScenarios ++ synthesized userScenarios sample_request) None).
Proof.
  destruct (common_scenarios_appended (fun _ => doc_overriding_401) "text"
              (Action.mk None None) (sample_scenario "handles 401 unauthorized")
              [sample_scenario "basic test"] sample_request eq_refl eq_refl
              ltac:(constructor; [reflexivity | constructor; [reflexivity | constructor]])
              eq_refl)
    as (userScenarios & _ & Hnames & _ & Hparse & _).
  exists userScenarios. split; [exact Hnames | exact Hparse].
Defined.

(** ** Installation of the interceptors *)

Lemma METHOD_MAP_lookup (verb : string) :
  is_Some (METHOD_MAP !! verb) <-> verb ∈ VERBS.
Proof.
  rewrite list_elem_of_In. unfold METHOD_MAP, VERBS.
  repeat (rewrite lookup_insert; case_decide;
          [subst; split; [intros _; cbn; tauto | intros _; eexists; reflexivity] |]).
  rewrite lookup_singleton. case_decide.
  - subst. split; [intros _; cbn; tauto | intros _; eexists; reflexivity].
  - split; [intros [x Hx]; discriminate | cbn; intuition congruence].
Qed.

Lemma lookup_method_supported (method : string) :
  is_Some (lookup_method method) <-> supported_verb method = true.
Proof.
  unfold lookup_method, supported_verb.
  destruct (toUpperCase method) as [upper |].
  - rewrite bool_decide_eq_true. apply METHOD_MAP_lookup.
  - split; [intros [x Hx]; discriminate | discriminate].
Qed.

Lemma lookup_method_unsupported (method : string) :
  supported_verb method = false -> lookup_method method = None.
Proof.
  intros Hverb. destruct (lookup_method method) as [m |] eqn:Hm; [| reflexivity].
  assert (supported_verb method = true) as Hyes
    by (apply lookup_method_supported; eauto).
  congruence.
Qed.

Section SetupNockFacts.
Variable URL : string -> option Url.t.
Variable nock : string -> result unit.

Lemma setupStep_relative (step : Step.t) :
  absolute_url URL step = false -> setupStep URL nock step = Throw TypeError.
Proof.
  unfold absolute_url, setupStep. intros Hurl%bool_decide_eq_false.
  destruct (URL (Request.url (Step.request step))); [| reflexivity].
  exfalso. apply Hurl. eauto.
Qed.

Lemma setupStep_unsupported (step : Step.t) :
  absolute_url URL step = true ->
  supported_verb (Request.method (Step.request step)) = false ->
  setupStep URL nock step
  = Throw (UnsupportedMethod (Request.method (Step.request step))).
Proof.
  unfold absolute_url, setupStep.
  intros [url ->]%bool_decide_eq_true Hverb%lookup_method_unsupported.
  rewrite Hverb. reflexivity.
Qed.

Lemma setupStep_refused (step : Step.t) (url : Url.t) (e : exn) :
  URL (Request.url (Step.request step)) = Some url ->
  supported_verb (Request.method (Step.request step)) = true ->
  nock (Url.origin url) = Throw e ->
  setupStep URL nock step = Throw e.
Proof.
  unfold setupStep. intros -> [m Hm]%lookup_method_supported Hnock.
  rewrite Hm, Hnock. reflexivity.
Qed.

Lemma setupStep_unresolved (step : Step.t) :
  absolute_url URL step = true ->
  supported_verb (Request.method (Step.request step)) = true ->
  scope_built URL nock step = true ->
  resolved step = false ->
  setupStep URL nock step = Throw (UnresolvedStep (Step.request step)).
Proof.
  unfold absolute_url, scope_built, resolved, setupStep.
  intros [url ->]%bool_decide_eq_true [m Hm]%lookup_method_supported Hnock
         [Hnet Hfix]%orb_false_iff.
  rewrite Hm, Hnet. apply bool_decide_eq_false in Hfix.
  destruct (nock (Url.origin url)); [| discriminate Hnock].
  destruct (Step.fixtureData step); [| reflexivity].
  exfalso. apply Hfix. eauto.
Qed.

Lemma setupStep_ok (step : Step.t) :
  installable URL nock step = true -> exists scope, setupStep URL nock step = Ok scope.
Proof.
  unfold installable, absolute_url, scope_built, resolved, setupStep.
  intros [[[Hurl Hverb]%andb_true_iff Hnock]%andb_true_iff Hres]%andb_true_iff.
  apply bool_decide_eq_true in Hurl as [url Hurl]. rewrite Hurl in Hnock |- *.
  apply lookup_method_supported in Hverb as [method ->].
  destruct (nock (Url.origin url)); [| discriminate Hnock].
  destruct (Step.networkError step); [eauto |].
  cbn in Hres. apply bool_decide_eq_true in Hres as [f ->]. eauto.
Qed.

(** What an installed interceptor is made of. *)
Lemma setupStep_Ok_inv (step : Step.t) (scope : Interceptor.t) :
  setupStep URL nock step = Ok scope ->
  exists url,
    URL (Request.url (Step.request step)) = Some url
    /\ Interceptor.origin scope = Url.origin url
    /\ Interceptor.path scope = Url.pathname url +:+ Url.search url
    /\ lookup_method (Request.method (Step.request step))
       = Some (Interceptor.method scope)
    /\ Interceptor.reqheaders scope = Request.headers (Step.request step)
    /\ (Step.networkError step = true ->
        Interceptor.answer scope = ReplyWithError "Network error: connection refused")
    /\ (Step.networkError step = false ->
        exists f, Step.fixtureData step = Some f
                  /\ Interceptor.answer scope
                     = Reply (Fixture.statusCode f) (Fixture.body f) (Fixture.headers f)).
Proof.
  unfold setupStep. intros Hrun.
  destruct (URL (Request.url (Step.request step))) as [url |]; [| discriminate Hrun].
  destruct (lookup_method (Request.method (Step.request step)))
    as [method |]; [| discriminate Hrun].
  destruct (nock (Url.origin url)); [| discriminate Hrun].
  exists url. split; [reflexivity |].
  destruct (Step.networkError step).
  - injection Hrun as <-. cbn. repeat split; try reflexivity. discriminate.
  - destruct (Step.fixtureData step) as [f |]; [| discriminate Hrun].
    injection Hrun as <-. cbn. repeat split; try reflexivity; [discriminate | eauto].
Qed.

Lemma setupLoop_installable (steps : list Step.t) (scopes active : list Interceptor.t) :
  Forall (fun s => installable URL nock s = true) steps ->
  exists installed,
    Forall2 (fun step scope => setupStep URL nock step = Ok scope) steps installed
    /\ setupLoop URL nock steps scopes active
       = (Ok (scopes ++ installed), active ++ installed).
Proof.
  intros Hsteps. revert scopes active.
  induction Hsteps as [| step steps Hstep _ IH]; intros scopes active.
  - exists []. split; [constructor |]. cbn. rewrite !app_nil_r. reflexivity.
  - destruct (setupStep_ok step Hstep) as [scope Hrun].
    destruct (IH (scopes ++ [scope]) (active ++ [scope])) as (installed & Hall & Hloop).
    exists (scope :: installed). split; [constructor; [exact Hrun | exact Hall] |].
    cbn [setupLoop]. rewrite Hrun, Hloop, <- !app_assoc. reflexivity.
Qed.

Lemma setupLoop_app (pre rest : list Step.t) (scopes active : list Interceptor.t) :
  Forall (fun s => installable URL nock s = true) pre ->
  exists installed,
    Forall2 (fun step scope => setupStep URL nock step = Ok scope) pre installed
    /\ setupLoop URL nock (pre ++ rest) scopes active
       = setupLoop URL nock rest (scopes ++ installed) (active ++ installed).
Proof.
  intros Hpre. revert scopes active.
  induction Hpre as [| step pre Hstep _ IH]; intros scopes active.
  - exists []. split; [constructor |]. cbn. rewrite !app_nil_r. reflexivity.
  - destruct (setupStep_ok step Hstep) as [scope Hrun].
    destruct (IH (scopes ++ [scope]) (active ++ [scope])) as (installed & Hall & Hloop).
    exists (scope :: installed). split; [constructor; [exact Hrun | exact Hall] |].
    cbn [app setupLoop]. rewrite Hrun, Hloop, <- !app_assoc. reflexivity.
Qed.

End SetupNockFacts.

(** C7, as the code has it.  The steps are taken in order.  When every
    step has an absolute URL, a supported verb, an origin that nock
    builds a scope for, and either fixture data or the network-error
    flag, one interceptor is installed for each step and the handles
    are returned one for each step, in step order.  Otherwise the
    installation stops at the first step that is not so, and the
    interceptors of the steps before it stay installed.  It stops with
    the [TypeError] of [new URL] when the URL of that step is not
    absolute; with [UnsupportedMethod] when its URL is absolute and its
    verb, upper-cased, is not one of GET, POST, PUT, PATCH, DELETE,
    HEAD, OPTIONS; with what [nock(origin)] throws when the verb is
    supported and nock refuses the origin, as it does for a protocol
    other than [http:] and [https:]; and with [UnresolvedStep] when
    nothing of this stops it and the step has neither fixture data nor
    the flag. *)
Theorem setupNock_first_failure (URL : string -> option Url.t)
    (nock : string -> result unit)
    (steps : list Step.t) (active : list Interceptor.t) :
  (Forall (fun s => installable URL nock s = true) steps ->
   exists scopes,
     setupNock URL nock steps active = (Ok scopes, active ++ scopes)
     /\ length scopes = length steps
     /\ Forall2 (fun step scope => setupStep URL nock step = Ok scope) steps scopes)
  /\ (forall pre step post,
         steps = pre ++ step :: post ->
         Forall (fun s => installable URL nock s = true) pre ->
         exists installed,
           length installed = length pre
           /\ Forall2 (fun step scope => setupStep URL nock step = Ok scope)
                pre installed
           /\ (absolute_url URL step = false ->
               setupNock URL nock steps active = (Throw TypeError, active ++ installed))
           /\ (absolute_url URL step = true ->
               supported_verb (Request.method (Step.request step)) = false ->
               setupNock URL nock steps active
               = (Throw (UnsupportedMethod (Request.method (Step.request step))),
                  active ++ installed))
           /\ (forall url e,
                  URL (Request.url (Step.request step)) = Some url ->
                  supported_verb (Request.method (Step.request step)) = true ->
                  nock (Url.origin url) = Throw e ->
                  setupNock URL nock steps active = (Throw e, active ++ installed))
           /\ (absolute_url URL step = true ->
               supported_verb (Request.method (Step.request step)) = true ->
               scope_built URL nock step = true ->
               resolved step = false ->
               setupNock URL nock steps active
               = (Throw (UnresolvedStep (Step.request step)), active ++ installed)))
  /\ (forall step scope,
         setupStep URL nock step = Ok scope ->
         exists url,
           URL (Request.url (Step.request step)) = Some url
           /\ Interceptor.origin scope = Url.origin url
           /\ Interceptor.path scope = Url.pathname url +:+ Url.search url
           /\ lookup_method (Request.method (Step.request step))
              = Some (Interceptor.method scope)
           /\ Interceptor.reqheaders scope = Request.headers (Step.request step)
           /\ (Step.networkError step = true ->
               Interceptor.answer scope
               = ReplyWithError "Network error: connection refused")
           /\ (Step.networkError step = false ->
               exists f, Step.fixtureData step = Some f
                         /\ Interceptor.answer scope
                            = Reply (Fixture.statusCode f) (Fixture.body f)
                                (Fixture.headers f)))
  /\ (forall method verb,
         lookup_method method = Some verb ->
         exists upper,
           toUpperCase method = Some upper
           /\ upper ∈ VERBS
           /\ METHOD_MAP !! upper = Some verb).
Proof.
  split; [| split; [| split]].
  - intros Hsteps.
    destruct (setupLoop_installable URL nock steps [] active Hsteps)
      as (installed & Hall & Hloop).
    exists installed. split; [exact Hloop |]. split; [| exact Hall].
    symmetry. eapply Forall2_length, Hall.
  - intros pre step post -> Hpre.
    destruct (setupLoop_app URL nock pre (step :: post) [] active Hpre)
      as (installed & Hall & Hloop).
    exists installed. split; [symmetry; eapply Forall2_length, Hall |].
    split; [exact Hall |].
    unfold setupNock. rewrite Hloop. cbn [setupLoop].
    split; [| split; [| split]].
    + intros Hurl. rewrite setupStep_relative by assumption. reflexivity.
    + intros Hurl Hverb. rewrite setupStep_unsupported by assumption. reflexivity.
    + intros url e Hurl Hverb Hnock.
      rewrite (setupStep_refused URL nock step url e) by assumption. reflexivity.
    + intros Hurl Hverb Hnock Hres.
      rewrite setupStep_unresolved by assumption. reflexivity.
  - apply setupStep_Ok_inv.
  - intros method verb Hm. unfold lookup_method in Hm.
    destruct (toUpperCase method) as [upper |]; [| discriminate Hm].
    exists upper. split; [reflexivity |]. split; [| exact Hm].
    apply METHOD_MAP_lookup. eauto.
Qed.

(** A resolved step with the verb [post] in lower case is installed; a
    second step with the verb TRACE stops the installation, and the
    interceptor of the first stays. *)
Lemma setupNock_first_failure_witness :
  exists installed,
    length installed = 1
    /\ setupNock sample_URL sample_nock [lowercase_step; unsupported_step] []
       = (Throw (Error "Unsupported HTTP method: TRACE"), [] ++ installed).
Proof.
  pose proof (setupNock_first_failure sample_URL sample_nock
                [lowercase_step; unsupported_step] [])
    as (_ & Hfail & _).
  destruct (Hfail [lowercase_step] unsupported_step [] eq_refl
              ltac:(constructor; [reflexivity | constructor]))
    as (installed & Hlen & _ & _ & Hunsupported & _).
  exists installed. split; [exact Hlen | exact (Hunsupported eq_refl eq_refl)].
Defined.

(** C7, as stated, fails: a step has a verb outside the seven, and yet
    the installation does not fail with [UnsupportedMethod], because an
    earlier step is unresolved and fails first. *)
Lemma unsupported_verb_behind_unresolved_step :
  let steps := [unresolved_step; unsupported_step] in
  (exists step,
      In step steps
      /\ supported_verb (Request.method (Step.request step)) = false)
  /\ (setupNock sample_URL sample_nock steps []).1
     = Throw (UnresolvedStep (Step.request unresolved_step))
  /\ ~ fails_unsupported (setupNock sample_URL sample_nock steps []).1.
Proof.
  cbv zeta. split; [| split].
  - exists unsupported_step. split; [right; left; reflexivity | reflexivity].
  - reflexivity.
  - intros [method Hm]. vm_compute in Hm. discriminate Hm.
Qed.

(** A complete step with the verb GET whose URL has the protocol
    [ftp:]: neither of the two conditions applies to it, and the
    installation stops with the [TypeError] of [nock(origin)]. *)
Lemma refused_origin_stops_installation :
  installable sample_URL sample_nock lowercase_step = true
  /\ supported_verb (Request.method (Step.request ftp_step)) = true
  /\ resolved ftp_step = true
  /\ setupNock sample_URL sample_nock [lowercase_step; ftp_step] []
     = (Throw TypeError,
        [Interceptor.mk "https://example.com" "post" "/users" None
           (Reply 200 "{}" ∅)]).
Proof. repeat split; reflexivity. Qed.

(** ** Text lemmas for the fixture parser *)

Lemma has_char_app (c : ascii) (a b : string) :
  has_char c (a +:+ b) = has_char c a || has_char c b.
Proof.
  induction a as [| x a IH]; cbn; [reflexivity |].
  rewrite IH, orb_assoc. reflexivity.
Qed.

Lemma slice_to_app (a b : string) : slice_to (String.length a) (a +:+ b) = a.
Proof. induction a as [| x a IH]; cbn; [destruct b | rewrite IH]; reflexivity. Qed.

Lemma slice_from_app (a b : string) (k : nat) :
  slice_from (String.length a + k) (a +:+ b) = slice_from k b.
Proof. induction a as [| x a IH]; cbn; [reflexivity | exact IH]. Qed.

Lemma has_char_slice_to (c : ascii) (n : nat) (s : string) :
  has_char c s = false -> has_char c (slice_to n s) = false.
Proof.
  revert n. induction s as [| x s IH]; intros [| n] H; cbn in *; try reflexivity.
  apply orb_false_iff in H as [-> H]. cbn. apply IH, H.
Qed.

Lemma has_char_slice_from (c : ascii) (n : nat) (s : string) :
  has_char c s = false -> has_char c (slice_from n s) = false.
Proof.
  revert n. induction s as [| x s IH]; intros [| n] H; cbn in *; try assumption.
  apply orb_false_iff in H as [_ H]. apply IH, H.
Qed.

(** *** trim *)

Lemma trimStart_head (s : string) :
  match trimStart s with
  | EmptyString => True
  | String c _ => is_space c = false
  end.
Proof.
  induction s as [| c s IH]; cbn; [exact I |].
  destruct (is_space c) eqn:Hc; [exact IH | exact Hc].
Qed.

Lemma trimEnd_head (c : ascii) (s : string) :
  is_space c = false -> exists t, trimEnd (String c s) = String c t.
Proof.
  intros Hc. cbn. destruct (trimEnd s); [rewrite Hc |]; eauto.
Qed.

Lemma trimEnd_idem (s : string) : trimEnd (trimEnd s) = trimEnd s.
Proof.
  induction s as [| c s IH]; [reflexivity |].
  cbn. destruct (trimEnd s) as [| d t] eqn:Ht.
  - destruct (is_space c) eqn:Hc; [reflexivity |]. cbn. rewrite Hc. reflexivity.
  - cbn [trimEnd]. cbn [trimEnd] in IH. rewrite IH. reflexivity.
Qed.

Lemma trim_idem (s : string) : trim (trim s) = trim s.
Proof.
  unfold trim.
  assert (trimStart (trimEnd (trimStart s)) = trimEnd (trimStart s)) as ->.
  { pose proof (trimStart_head s) as Hhead.
    destruct (trimStart s) as [| c t]; [reflexivity |].
    destruct (trimEnd_head c t Hhead) as [u ->]. cbn. rewrite Hhead. reflexivity. }
  apply trimEnd_idem.
Qed.

Lemma has_char_trimStart (c : ascii) (s : string) :
  has_char c s = false -> has_char c (trimStart s) = false.
Proof.
  induction s as [| x s IH]; cbn; [reflexivity |]. intros H.
  destruct (is_space x); [| exact H].
  apply orb_false_iff in H as [_ H]. apply IH, H.
Qed.

Lemma has_char_trimEnd (c : ascii) (s : string) :
  has_char c s = false -> has_char c (trimEnd s) = false.
Proof.
  induction s as [| x s IH]; cbn; [reflexivity |]. intros H.
  apply orb_false_iff in H as [Hx H]. specialize (IH H).
  destruct (trimEnd s) as [| d t].
  - destruct (is_space x); cbn; [reflexivity | rewrite Hx; reflexivity].
  - cbn. cbn in IH. rewrite Hx, IH. reflexivity.
Qed.

Lemma has_char_trim (c : ascii) (s : string) :
  has_char c s = false -> has_char c (trim s) = false.
Proof. intros H. apply has_char_trimEnd, has_char_trimStart, H. Qed.

Lemma ends_with_CR_trimEnd (s : string) : ends_with_CR (trimEnd s) = false.
Proof.
  induction s as [| c s IH]; [reflexivity |].
  cbn [trimEnd]. destruct (trimEnd s) as [| d t].
  - destruct (is_space c) eqn:Hc; [reflexivity |]. cbn.
    destruct (Ascii.eqb c CR) eqn:Hcr; [| reflexivity].
    apply Ascii.eqb_eq in Hcr. subst c. discriminate Hc.
  - exact IH.
Qed.

Lemma ends_with_CR_app (a b : string) :
  b <> EmptyString -> ends_with_CR (a +:+ b) = ends_with_CR b.
Proof.
  intros Hb. induction a as [| c a IH]; [reflexivity |].
  cbn [append ends_with_CR]. rewrite IH.
  destruct (a +:+ b) eqn:Hab; [| reflexivity].
  destruct a; [cbn in Hab; contradiction | discriminate Hab].
Qed.

Lemma trim_space_prefix (v : string) : trim (" " +:+ v) = trim v.
Proof. reflexivity. Qed.

(** *** Line endings *)

Lemma replaceCRLF_cons (c : ascii) (s : string) :
  Ascii.eqb c CR = false -> replaceCRLF (String c s) = String c (replaceCRLF s).
Proof. intros Hc. destruct s as [| d s]; cbn; [| rewrite Hc]; reflexivity. Qed.

Lemma replaceCRLF_line (l t : string) :
  has_char LF l = false -> ends_with_CR l = false ->
  replaceCRLF (l +:+ String LF t) = l +:+ String LF (replaceCRLF t).
Proof.
  induction l as [| c l IH]; intros Hlf Hcr.
  - cbn [append]. apply replaceCRLF_cons. reflexivity.
  - cbn in Hlf. apply orb_false_iff in Hlf as [Hc Hlf].
    destruct l as [| d l].
    + cbn [append]. cbn in Hcr. rewrite (replaceCRLF_cons c) by exact Hcr.
      rewrite replaceCRLF_cons by reflexivity. reflexivity.
    + specialize (IH Hlf Hcr). cbn [append] in *.
      cbn in Hlf. apply orb_false_iff in Hlf as [Hd _].
      change (replaceCRLF (String c (String d (l +:+ String LF t))))
        with (if Ascii.eqb c CR && Ascii.eqb d LF
              then String LF (replaceCRLF (l +:+ String LF t))
              else String c (replaceCRLF (String d (l +:+ String LF t)))).
      rewrite Hd, andb_false_r, IH. reflexivity.
Qed.

Lemma prefix_cons (a b : ascii) (p s : string) :
  String.prefix (String a p) (String b s) = Ascii.eqb a b && String.prefix p s.
Proof.
  change (String.prefix (String a p) (String b s))
    with (if ascii_dec a b then String.prefix p s else false).
  destruct (ascii_dec a b) as [-> | Hne].
  - rewrite Ascii.eqb_refl. reflexivity.
  - apply Ascii.eqb_neq in Hne. rewrite Hne. reflexivity.
Qed.

Lemma prefix_empty (s : string) : String.prefix EmptyString s = true.
Proof. destruct s; reflexivity. Qed.

Lemma indexOf_cons (needle : string) (c : ascii) (s : string) :
  indexOf needle (String c s)
  = if String.prefix needle (String c s) then Some 0
    else option_map S (indexOf needle s).
Proof. reflexivity. Qed.

Lemma indexOf_here (needle rest : string) :
  indexOf needle (needle +:+ rest) = Some 0.
Proof.
  assert (String.prefix needle (needle +:+ rest) = true) as Hp
      by (apply prefix_spec; eauto).
  destruct (needle +:+ rest); cbn [indexOf]; rewrite Hp; reflexivity.
Qed.

Lemma replaceCRLF_free (s : string) :
  includes crlf s = false -> replaceCRLF s = s.
Proof.
  unfold includes.
  assert (forall n (t : string), String.length t <= n ->
             indexOf crlf t = None -> replaceCRLF t = t) as Hind.
  { induction n as [| n IH]; intros t Hlen Hidx.
    - destruct t; [reflexivity | cbn in Hlen; lia].
    - destruct t as [| c [| d t]]; [reflexivity | reflexivity |].
      rewrite indexOf_cons in Hidx.
      destruct (String.prefix crlf (String c (String d t))) eqn:Hp; [discriminate |].
      destruct (indexOf crlf (String d t)) eqn:Hrest; [discriminate Hidx |].
      change (replaceCRLF (String c (String d t)))
        with (if Ascii.eqb c CR && Ascii.eqb d LF
              then String LF (replaceCRLF t)
              else String c (replaceCRLF (String d t))).
      destruct (Ascii.eqb c CR && Ascii.eqb d LF) eqn:Hcd.
      + apply andb_true_iff in Hcd as [Hc Hd].
        apply Ascii.eqb_eq in Hc, Hd. subst c d.
        assert (String.prefix crlf (String CR (String LF t)) = true) as Hp'
            by (apply prefix_spec; exists t; reflexivity).
        congruence.
      + rewrite (IH (String d t)); [reflexivity | cbn in *; lia | exact Hrest]. }
  intros Hs. apply (Hind (String.length s)); [lia |].
  destruct (indexOf crlf s); [discriminate | reflexivity].
Qed.

Lemma replaceCRLF_fixed (s : string) :
  replaceCRLF s = s <-> includes crlf s = false.
Proof.
  split; [| apply replaceCRLF_free].
  unfold includes.
  assert (forall n (t : string), String.length t <= n ->
             replaceCRLF t = t -> indexOf crlf t = None) as Hind.
  { induction n as [| n IH]; intros t Hlen Hfix.
    - destruct t; [reflexivity | cbn in Hlen; lia].
    - destruct t as [| c [| d t]]; [reflexivity | |].
      + rewrite indexOf_cons. unfold crlf. rewrite prefix_cons.
        cbn. rewrite andb_false_r. reflexivity.
      + change (replaceCRLF (String c (String d t)))
          with (if Ascii.eqb c CR && Ascii.eqb d LF
                then String LF (replaceCRLF t)
                else String c (replaceCRLF (String d t))) in Hfix.
        rewrite indexOf_cons. unfold crlf at 1. rewrite !prefix_cons, prefix_empty.
        rewrite andb_true_r, (Ascii.eqb_sym CR c), (Ascii.eqb_sym LF d).
        destruct (Ascii.eqb c CR && Ascii.eqb d LF) eqn:Hcd.
        * apply andb_true_iff in Hcd as [Hc _]. apply Ascii.eqb_eq in Hc. subst c.
          discriminate Hfix.
        * injection Hfix as Hfix.
          rewrite (IH (String d t)); [reflexivity | cbn in *; lia | exact Hfix]. }
  intros Hfix. rewrite (Hind (String.length s)); [reflexivity | lia | exact Hfix].
Qed.

(** *** The blank line *)

Lemma indexOf_blank_skip (l t : string) :
  has_char LF l = false ->
  indexOf blank (l +:+ t) = option_map (Nat.add (String.length l)) (indexOf blank t).
Proof.
  induction l as [| c l IH]; intros Hlf.
  - cbn. destruct (indexOf blank t); reflexivity.
  - cbn in Hlf. apply orb_false_iff in Hlf as [Hc Hlf].
    cbn [append]. rewrite indexOf_cons, (IH Hlf).
    unfold blank at 1. rewrite prefix_cons, Ascii.eqb_sym, Hc. cbn [andb].
    destruct (indexOf blank t); reflexivity.
Qed.

Lemma header_text_head (l : string) (lines : list string) :
  l <> EmptyString -> has_char LF l = false ->
  exists c u, header_text l lines = String c u /\ Ascii.eqb c LF = false.
Proof.
  intros Hne Hlf. destruct l as [| c l]; [contradiction |].
  cbn in Hlf. apply orb_false_iff in Hlf as [Hc _].
  destruct lines; cbn; eauto.
Qed.

Lemma indexOf_header_text (l : string) (lines : list string) (body : string) :
  has_char LF l = false ->
  Forall (fun x => has_char LF x = false /\ x <> EmptyString) lines ->
  indexOf blank (header_text l lines +:+ blank +:+ body)
  = Some (String.length (header_text l lines)).
Proof.
  intros Hl Hlines. revert l Hl.
  induction Hlines as [| next rest [Hnext Hne] _ IH]; intros l Hl.
  - cbn [header_text]. rewrite indexOf_blank_skip by exact Hl.
    rewrite indexOf_here. cbn. rewrite Nat.add_0_r. reflexivity.
  - cbn [header_text]. rewrite append_assoc. cbn [append].
    rewrite indexOf_blank_skip by exact Hl.
    destruct (header_text_head next rest Hne Hnext) as (c & u & Hhead & Hc).
    specialize (IH next Hnext). rewrite Hhead in *. cbn [append] in *.
    rewrite indexOf_cons.
    assert (String.prefix blank (String LF (String c (u +:+ blank +:+ body))) = false)
      as ->.
    { unfold blank. rewrite !prefix_cons, (Ascii.eqb_sym LF c), Hc.
      rewrite andb_false_r. reflexivity. }
    rewrite IH, length_append. cbn [option_map String.length]. f_equal; lia.
Qed.

(** *** Lines *)

Lemma split_no_sep (l : string) :
  has_char LF l = false -> split LF l = [l].
Proof.
  induction l as [| c l IH]; intros Hlf; [reflexivity |].
  cbn in Hlf. apply orb_false_iff in Hlf as [Hc Hlf].
  cbn. rewrite Hc, (IH Hlf). reflexivity.
Qed.

Lemma split_line (l rest : string) :
  has_char LF l = false -> split LF (l +:+ String LF rest) = l :: split LF rest.
Proof.
  induction l as [| c l IH]; intros Hlf; [reflexivity |].
  cbn in Hlf. apply orb_false_iff in Hlf as [Hc Hlf].
  cbn [append split]. rewrite Hc, (IH Hlf). reflexivity.
Qed.

Lemma split_header_text (l : string) (lines : list string) :
  has_char LF l = false ->
  Forall (fun x => has_char LF x = false) lines ->
  split LF (header_text l lines) = l :: lines.
Proof.
  intros Hl Hlines. revert l Hl.
  induction Hlines as [| next rest Hnext _ IH]; intros l Hl.
  - apply split_no_sep, Hl.
  - cbn [header_text]. rewrite split_line by exact Hl. rewrite IH by exact Hnext.
    reflexivity.
Qed.

Lemma split_lines_one_line (s : string) :
  Forall (fun x => has_char LF x = false) (split LF s).
Proof.
  induction s as [| c s IH]; [repeat constructor |].
  cbn. destruct (Ascii.eqb c LF) eqn:Hc.
  - constructor; [reflexivity | exact IH].
  - destruct (split LF s) as [| l ls]; [repeat constructor; cbn; rewrite Hc; reflexivity |].
    apply Forall_cons_1 in IH as [Hl Hls].
    constructor; [cbn; rewrite Hc, Hl; reflexivity | exact Hls].
Qed.

Lemma replaceCRLF_header_text (l : string) (lines : list string) (body : string) :
  has_char LF l = false -> ends_with_CR l = false ->
  Forall (fun x => has_char LF x = false /\ ends_with_CR x = false) lines ->
  replaceCRLF (header_text l lines +:+ blank +:+ body)
  = header_text l lines +:+ blank +:+ replaceCRLF body.
Proof.
  intros Hl Hcr Hlines. revert l Hl Hcr.
  induction Hlines as [| next rest [Hnext Hncr] _ IH]; intros l Hl Hcr.
  - cbn [header_text blank append]. rewrite replaceCRLF_line by assumption.
    rewrite replaceCRLF_cons by reflexivity. reflexivity.
  - cbn [header_text]. rewrite !append_assoc. cbn [append].
    rewrite replaceCRLF_line by assumption.
    rewrite (IH next Hnext Hncr). reflexivity.
Qed.

Lemma serializeHeader_line (h : string * string) :
  serializeHeader h = header_line h +:+ nl.
Proof. unfold serializeHeader, header_line. rewrite !append_assoc. reflexivity. Qed.

Lemma serialize_shape (l : string) (headers : list (string * string)) (body : string) :
  l +:+ nl +:+ concat_strings (map serializeHeader headers) +:+ nl +:+ body
  = header_text l (map header_line headers) +:+ blank +:+ body.
Proof.
  revert l. induction headers as [| h headers IH]; intros l.
  - reflexivity.
  - cbn [map concat_strings header_text].
    rewrite serializeHeader_line, !append_assoc.
    cbn [append]. rewrite <- IH.
    unfold nl. cbn [append]. reflexivity.
Qed.

(** *** The status line *)

Lemma statusMatch_inv (statusLine digits : string) :
  statusMatch statusLine = Some digits ->
  exists d1 d2 d3,
    digits = digits3 d1 d2 d3
    /\ is_digit d1 = true /\ is_digit d2 = true /\ is_digit d3 = true.
Proof.
  unfold statusMatch.
  destruct (strip_prefix "HTTP/" statusLine) as [rest |]; [| discriminate].
  destruct rest as [| c rest]; [discriminate |].
  destruct (is_digit_or_dot c); [| discriminate].
  destruct (skip_while is_digit_or_dot (String c rest))
    as [| sp [| d1 [| d2 [| d3 r]]]]; try discriminate.
  destruct (Ascii.eqb sp " " && is_digit d1 && is_digit d2 && is_digit d3) eqn:Hcond;
    [| discriminate].
  intros [= <-].
  apply andb_true_iff in Hcond as [Hcond H3].
  apply andb_true_iff in Hcond as [Hcond H2].
  apply andb_true_iff in Hcond as [_ H1].
  exists d1, d2, d3. auto.
Qed.

Lemma statusMatch_serialized (d1 d2 d3 : ascii) :
  is_digit d1 = true -> is_digit d2 = true -> is_digit d3 = true ->
  statusMatch ("HTTP/1.1 " +:+ digits3 d1 d2 d3) = Some (digits3 d1 d2 d3).
Proof.
  intros H1 H2 H3. unfold statusMatch, digits3. cbn.
  assert (is_digit_or_dot "1" = true) as E1 by reflexivity.
  assert (is_digit_or_dot "." = true) as E2 by reflexivity.
  assert (is_digit_or_dot " " = false) as E3 by reflexivity.
  rewrite !E1, E2, E3, H1, H2, H3. reflexivity.
Qed.

Lemma is_digit_bounds (d : ascii) :
  is_digit d = true -> 48 <= nat_of_ascii d <= 57.
Proof.
  unfold is_digit. cbv zeta. intros [H1 H2]%andb_true_iff.
  apply Nat.leb_le in H1, H2. lia.
Qed.

Lemma digit_char_value (d : ascii) :
  is_digit d = true -> digit_char (digit_value d) = d.
Proof.
  intros Hd%is_digit_bounds. unfold digit_char, digit_value.
  replace (48 + (nat_of_ascii d - 48)) with (nat_of_ascii d) by lia.
  apply ascii_nat_embedding.
Qed.

Lemma three_digits_arith (a b c : nat) :
  a < 10 -> b < 10 -> c < 10 ->
  let n := 10 * (10 * (10 * 0 + a) + b) + c in
  n / 100 mod 10 = a /\ n / 10 mod 10 = b /\ n mod 10 = c.
Proof.
  intros Ha Hb Hc n. subst n.
  replace (10 * (10 * (10 * 0 + a) + b) + c) with (a * 100 + (b * 10 + c)) by lia.
  rewrite Nat.div_add_l by lia. rewrite (Nat.div_small (b * 10 + c)) by lia.
  rewrite Nat.add_0_r, (Nat.mod_small a) by lia. split; [reflexivity |].
  replace (a * 100 + (b * 10 + c)) with ((a * 10 + b) * 10 + c) by lia.
  rewrite Nat.div_add_l by lia. rewrite (Nat.div_small c) by lia.
  rewrite Nat.add_0_r. split.
  - rewrite Nat.add_comm, Nat.Div0.mod_add. apply Nat.mod_small. lia.
  - rewrite Nat.add_comm, Nat.Div0.mod_add. apply Nat.mod_small. lia.
Qed.

Lemma three_digits_parseInt (d1 d2 d3 : ascii) :
  is_digit d1 = true -> is_digit d2 = true -> is_digit d3 = true ->
  three_digits (parseInt (digits3 d1 d2 d3)) = digits3 d1 d2 d3.
Proof.
  intros H1 H2 H3.
  pose proof (is_digit_bounds _ H1). pose proof (is_digit_bounds _ H2).
  pose proof (is_digit_bounds _ H3).
  unfold three_digits, parseInt, digits3.
  cbn [list_ascii_of_string fold_left].
  destruct (three_digits_arith (digit_value d1) (digit_value d2) (digit_value d3))
    as (-> & -> & ->); try (unfold digit_value; lia).
  rewrite !digit_char_value by assumption. reflexivity.
Qed.

Lemma is_digit_not_LF (d : ascii) : is_digit d = true -> Ascii.eqb d LF = false.
Proof.
  intros Hd. destruct (Ascii.eqb d LF) eqn:He; [| reflexivity].
  apply Ascii.eqb_eq in He. subst d. discriminate Hd.
Qed.

Lemma is_digit_not_CR (d : ascii) : is_digit d = true -> Ascii.eqb d CR = false.
Proof.
  intros Hd. destruct (Ascii.eqb d CR) eqn:He; [| reflexivity].
  apply Ascii.eqb_eq in He. subst d. discriminate Hd.
Qed.

Lemma status_line_one_line (d1 d2 d3 : ascii) :
  is_digit d1 = true -> is_digit d2 = true -> is_digit d3 = true ->
  has_char LF ("HTTP/1.1 " +:+ digits3 d1 d2 d3) = false
  /\ ends_with_CR ("HTTP/1.1 " +:+ digits3 d1 d2 d3) = false.
Proof.
  intros H1 H2 H3. unfold digits3. cbn.
  rewrite !is_digit_not_LF by assumption. rewrite is_digit_not_CR by assumption.
  split; reflexivity.
Qed.

(** *** Header lines *)

Lemma indexOf_char_first (c : ascii) (k t : string) :
  has_char c k = false ->
  indexOf (String c EmptyString) (k +:+ String c t) = Some (String.length k).
Proof.
  induction k as [| x k IH]; intros Hk.
  - apply (indexOf_here (String c EmptyString) t).
  - cbn in Hk. apply orb_false_iff in Hk as [Hx Hk].
    cbn [append]. rewrite indexOf_cons, prefix_cons, (Ascii.eqb_sym c x), Hx.
    cbn [andb]. rewrite (IH Hk). reflexivity.
Qed.

Lemma indexOf_char_slice_to (c : ascii) (s : string) (i : nat) :
  indexOf (String c EmptyString) s = Some i -> has_char c (slice_to i s) = false.
Proof.
  revert i. induction s as [| x s IH]; intros i Hi.
  - cbn in Hi. discriminate Hi.
  - rewrite indexOf_cons, prefix_cons, prefix_empty, andb_true_r in Hi.
    destruct (Ascii.eqb c x) eqn:Hx.
    + injection Hi as <-. reflexivity.
    + destruct (indexOf (String c EmptyString) s) as [j |]; [| discriminate Hi].
      injection Hi as <-. cbn. rewrite (Ascii.eqb_sym x c), Hx. apply IH. reflexivity.
Qed.

Lemma header_line_one_line (k v : string) :
  clean_header k v ->
  has_char LF (header_line (k, v)) = false
  /\ header_line (k, v) <> EmptyString
  /\ ends_with_CR (header_line (k, v)) = false.
Proof.
  intros (_ & _ & Hk & _ & Hv & Hvlf). unfold header_line. cbn [fst snd].
  split; [| split].
  - rewrite !has_char_app, Hk, Hvlf. reflexivity.
  - destruct k; discriminate.
  - rewrite ends_with_CR_app by discriminate.
    destruct v as [| x v]; [reflexivity |].
    change (ends_with_CR (": " +:+ String x v)) with (ends_with_CR (String x v)).
    rewrite <- Hv. apply ends_with_CR_trimEnd.
Qed.

Lemma parseHeaderLine_header_line (h : gmap string string) (k v : string) :
  clean_header k v -> parseHeaderLine h (header_line (k, v)) = <[k := v]> h.
Proof.
  intros (Hk & Hcolon & _ & Hproto & Hv & _).
  unfold parseHeaderLine, header_line. cbn [fst snd].
  assert (indexOf ":" (k +:+ ": " +:+ v) = Some (String.length k)) as Hidx
      by (apply (indexOf_char_first ":" k (" " +:+ v)), Hcolon).
  rewrite Hidx.
  rewrite slice_to_app, Hk.
  change (k +:+ ": " +:+ v) with (k +:+ String ":" (" " +:+ v)).
  rewrite slice_from_app. cbn [slice_from]. rewrite trim_space_prefix, Hv.
  unfold set_header.
  destruct (String.eqb k "__proto__") eqn:Hp;
    [apply String.eqb_eq in Hp; contradiction |].
  destruct (k +:+ String ":" (" " +:+ v)) eqn:Hline; [| reflexivity].
  destruct k; discriminate Hline.
Qed.

Lemma parseHeaderLine_clean (h : gmap string string) (line : string) :
  has_char LF line = false ->
  map_Forall (fun k v => clean_header k v) h ->
  map_Forall (fun k v => clean_header k v) (parseHeaderLine h line).
Proof.
  intros Hline Hh. unfold parseHeaderLine.
  destruct line as [| c line]; [exact Hh |].
  destruct (indexOf ":" (String c line)) as [i |] eqn:Hi; [| exact Hh].
  unfold set_header.
  destruct (String.eqb (trim (slice_to i (String c line))) "__proto__") eqn:Hp;
    [exact Hh |].
  apply map_Forall_insert_2; [| exact Hh].
  repeat split.
  - apply trim_idem.
  - apply has_char_trim, indexOf_char_slice_to, Hi.
  - apply has_char_trim, has_char_slice_to, Hline.
  - apply String.eqb_neq, Hp.
  - apply trim_idem.
  - apply has_char_trim, has_char_slice_from, Hline.
Qed.

Lemma fold_parseHeaderLine_clean (lines : list string) (h : gmap string string) :
  Forall (fun x => has_char LF x = false) lines ->
  map_Forall (fun k v => clean_header k v) h ->
  map_Forall (fun k v => clean_header k v) (fold_left parseHeaderLine lines h).
Proof.
  intros Hlines. revert h. induction Hlines as [| line lines Hline _ IH]; intros h Hh.
  - exact Hh.
  - cbn. apply IH, parseHeaderLine_clean; assumption.
Qed.

Lemma fold_header_lines (headers : list (string * string)) (h : gmap string string) :
  Forall (fun kv => clean_header kv.1 kv.2) headers ->
  fold_left parseHeaderLine (map header_line headers) h
  = list_to_map (reverse headers) ∪ h.
Proof.
  intros Hheaders. revert h.
  induction Hheaders as [| [k v] headers Hkv _ IH]; intros h.
  - cbn. rewrite (left_id_L ∅ (∪)). reflexivity.
  - cbn [map fold_left]. rewrite parseHeaderLine_header_line by exact Hkv.
    rewrite IH, reverse_cons, list_to_map_app. cbn [list_to_map].
    rewrite <- (assoc_L (∪)). f_equal.
    rewrite insert_union_singleton_l. reflexivity.
Qed.

Lemma fold_serialized_headers (headers : gmap string string) :
  map_Forall (fun k v => clean_header k v) headers ->
  fold_left parseHeaderLine (map header_line (map_to_list headers)) ∅ = headers.
Proof.
  intros Hclean. rewrite fold_header_lines.
  - rewrite (right_id_L ∅ (∪)). symmetry.
    apply list_to_map_flip. symmetry. apply reverse_Permutation.
  - apply Forall_forall. intros [k v] Hin.
    apply (Hclean k v). apply elem_of_map_to_list. exact Hin.
Qed.

(** ** Parsing what was serialized *)

Lemma parseFixtureString_ok (raw digits : string) :
  statusMatch (status_line raw) = Some digits ->
  exists headers body,
    parseFixtureString raw = Ok (Fixture.mk (parseInt digits) headers body)
    /\ map_Forall (fun k v => clean_header k v) headers.
Proof.
  unfold parseFixtureString, status_line. cbv zeta. intros ->.
  eexists _, _. split; [reflexivity |].
  apply fold_parseHeaderLine_clean; [| apply map_Forall_empty].
  match goal with |- Forall _ (tl (split LF ?s)) =>
    pose proof (split_lines_one_line s) as Hlines;
    destruct (split LF s) as [| l ls]
  end.
  - constructor.
  - apply Forall_cons_1 in Hlines as [_ Hls]. exact Hls.
Qed.

Lemma parse_serialized (d1 d2 d3 : ascii) (headers : gmap string string)
    (body : string) :
  is_digit d1 = true -> is_digit d2 = true -> is_digit d3 = true ->
  map_Forall (fun k v => clean_header k v) headers ->
  parseFixtureString
    (serializeFixture (Fixture.mk (parseInt (digits3 d1 d2 d3)) headers body))
  = Ok (Fixture.mk (parseInt (digits3 d1 d2 d3)) headers (replaceCRLF body)).
Proof.
  intros H1 H2 H3 Hclean.
  destruct (status_line_one_line d1 d2 d3 H1 H2 H3) as [Hlf Hcr].
  assert (Forall (fun kv => clean_header kv.1 kv.2) (map_to_list headers)) as Hlist.
  { apply Forall_forall. intros [k v] Hin.
    apply (Hclean k v). apply elem_of_map_to_list. exact Hin. }
  assert (Forall (fun x => has_char LF x = false /\ x <> EmptyString
                           /\ ends_with_CR x = false)
            (map header_line (map_to_list headers))) as Hlines.
  { apply Forall_forall. intros x Hx.
    apply list_elem_of_In, in_map_iff in Hx as ([k v] & <- & Hin).
    apply header_line_one_line.
    apply list_elem_of_In in Hin. exact (proj1 (Forall_forall _ _) Hlist _ Hin). }
  unfold serializeFixture. cbn [Fixture.statusCode Fixture.headers Fixture.body].
  rewrite three_digits_parseInt by assumption.
  rewrite <- (append_assoc "HTTP/1.1 " (digits3 d1 d2 d3)).
  rewrite serialize_shape.
  unfold parseFixtureString. fold blank.
  rewrite replaceCRLF_header_text;
    [| exact Hlf | exact Hcr
     | eapply Forall_impl; [exact Hlines | cbn; intros x (? & ? & ?); auto]].
  rewrite indexOf_header_text;
    [| exact Hlf
     | eapply Forall_impl; [exact Hlines | cbn; intros x (? & ? & ?); auto]].
  rewrite slice_to_app.
  rewrite (slice_from_app _ (blank +:+ replaceCRLF body) 2).
  change (slice_from 2 (blank +:+ replaceCRLF body)) with (replaceCRLF body).
  rewrite split_header_text;
    [| exact Hlf
     | eapply Forall_impl; [exact Hlines | cbn; intros x (? & ? & ?); auto]].
  cbn [hd tl]. rewrite statusMatch_serialized by assumption.
  rewrite fold_serialized_headers by exact Hclean. reflexivity.
Qed.

(** C8, as the code has it.  Take a raw text whose first line matches
    the status-line pattern.  It parses.  Serializing the parsed fixture
    (status line with the three-digit code, each header as [Name: value]
    on a line of its own, a blank line, the body verbatim) and parsing
    the text again yields the same status code and the same headers, and
    the body with every CR LF pair replaced by LF; so it yields the same
    record exactly when the parsed body holds no CR LF pair. *)
Theorem parse_serialize_parse (raw digits : string) :
  statusMatch (status_line raw) = Some digits ->
  exists f,
    parseFixtureString raw = Ok f
    /\ parseFixtureString (serializeFixture f)
       = Ok (Fixture.mk (Fixture.statusCode f) (Fixture.headers f)
               (replaceCRLF (Fixture.body f)))
    /\ (includes crlf (Fixture.body f) = false ->
        parseFixtureString (serializeFixture f) = Ok f)
    /\ (parseFixtureString (serializeFixture f) = Ok f ->
        includes crlf (Fixture.body f) = false).
Proof.
  intros Hstatus.
  destruct (parseFixtureString_ok raw digits Hstatus) as (headers & body & Hparse & Hclean).
  destruct (statusMatch_inv _ _ Hstatus) as (d1 & d2 & d3 & -> & H1 & H2 & H3).
  eexists. split; [exact Hparse |].
  cbn [Fixture.statusCode Fixture.headers Fixture.body].
  rewrite (parse_serialized d1 d2 d3 headers body H1 H2 H3 Hclean).
  split; [reflexivity |]. split.
  - intros Hbody. rewrite (proj2 (replaceCRLF_fixed body) Hbody). reflexivity.
  - intros [= Hbody]. apply replaceCRLF_fixed, Hbody.
Qed.

(** The second test of the fixture parser: three headers and a body,
    with CR LF line ends. *)
Lemma parse_serialize_parse_witness :
  let raw :=
    "HTTP/1.1 429 Too Many Requests" +:+ crlf
    +:+ "Content-Type: application/json" +:+ crlf
    +:+ "Retry-After: 30" +:+ crlf +:+ crlf
    +:+ "{}" in
  exists f,
    parseFixtureString raw = Ok f
    /\ parseFixtureString (serializeFixture f)
       = Ok (Fixture.mk (Fixture.statusCode f) (Fixture.headers f)
               (replaceCRLF (Fixture.body f)))
    /\ (includes crlf (Fixture.body f) = false ->
        parseFixtureString (serializeFixture f) = Ok f)
    /\ (parseFixtureString (serializeFixture f) = Ok f ->
        includes crlf (Fixture.body f) = false).
Proof.
  intros raw. apply (parse_serialize_parse raw "429"). vm_compute. reflexivity.
Defined.

(** C8, as stated, fails: the body of this text is [A], CR, LF, [B]
    once the line ends are normalised; serialized verbatim and parsed
    again, the pair becomes a single LF. *)
Lemma body_with_CRLF_not_preserved :
  let parsed := Fixture.mk 200 ∅ ("A" +:+ crlf +:+ "B") in
  let reparsed := Fixture.mk 200 ∅ ("A" +:+ nl +:+ "B") in
  statusMatch (status_line raw_with_CR_CR_LF) = Some "200"
  /\ parseFixtureString raw_with_CR_CR_LF = Ok parsed
  /\ parseFixtureString (serializeFixture parsed) = Ok reparsed
  /\ parseFixtureString (serializeFixture parsed) <> Ok parsed.
Proof.
  cbv zeta. split; [vm_compute; reflexivity |].
  split; [vm_compute; reflexivity |].
  split; [vm_compute; reflexivity |].
  vm_compute. intros H. discriminate H.
Qed.

(* ================================================================= *)
(** * Part III: further properties of the modules *)
(* ================================================================= *)

(** ** parse-fixture.mjs: what a parsed fixture is *)

Lemma parseFixtureString_inv (raw : string) (f : Fixture.t) :
  parseFixtureString raw = Ok f ->
  exists digits,
    statusMatch (status_line raw) = Some digits
    /\ Fixture.statusCode f = parseInt digits
    /\ Fixture.headers f = fold_left parseHeaderLine (header_lines raw) ∅.
Proof.
  unfold parseFixtureString, status_line, header_lines. cbv zeta.
  match goal with |- context [statusMatch ?l] => destruct (statusMatch l) as [digits |] end;
    [| discriminate].
  intros [= <-]. exists digits. auto.
Qed.

Lemma parseInt_digits3 (d1 d2 d3 : ascii) :
  parseInt (digits3 d1 d2 d3)
  = 100 * digit_value d1 + 10 * digit_value d2 + digit_value d3.
Proof. unfold parseInt, digits3. cbn [list_ascii_of_string fold_left]. lia. Qed.

(** X1.  Whatever text it is read from, a parsed fixture has a status
    code below 1000, and each of its headers has a name and a value
    that are trimmed and on one line, a name without a colon, and a
    name other than [__proto__]. *)
Theorem parsed_fixture_invariants (raw : string) (f : Fixture.t) :
  parseFixtureString raw = Ok f ->
  Fixture.statusCode f < 1000
  /\ map_Forall (fun name value => clean_header name value) (Fixture.headers f).
Proof.
  intros Hparse.
  destruct (parseFixtureString_inv raw f Hparse) as (digits & Hstatus & Hcode & _).
  destruct (parseFixtureString_ok raw digits Hstatus) as (headers & body & Hparse' & Hclean).
  rewrite Hparse in Hparse'. injection Hparse' as ->.
  split; [| exact Hclean].
  destruct (statusMatch_inv _ _ Hstatus) as (d1 & d2 & d3 & -> & H1 & H2 & H3).
  cbn [Fixture.statusCode]. rewrite parseInt_digits3.
  apply is_digit_bounds in H1, H2, H3. unfold digit_value. lia.
Qed.

Lemma parsed_fixture_invariants_witness :
  Fixture.statusCode (Fixture.mk 429 {[ "Retry-After" := "30" ]} "{}") < 1000
  /\ map_Forall (fun name value => clean_header name value)
       (Fixture.headers (Fixture.mk 429 {[ "Retry-After" := "30" ]} "{}")).
Proof.
  apply (parsed_fixture_invariants
           ("HTTP/1.1 429 Too Many Requests" +:+ crlf +:+ "  Retry-After :30  "
            +:+ crlf +:+ crlf +:+ "{}")).
  vm_compute. reflexivity.
Defined.

(** ** parse-fixture.mjs: the status line *)

Lemma strip_prefix_app (p s : string) : strip_prefix p (p +:+ s) = Some s.
Proof.
  induction p as [| a p IH]; [destruct s; reflexivity |].
  cbn. rewrite Ascii.eqb_refl. exact IH.
Qed.

Lemma skip_while_run (p : ascii -> bool) (v : string) (c : ascii) (rest : string) :
  skip_while p v = EmptyString -> p c = false ->
  skip_while p (v +:+ String c rest) = String c rest.
Proof.
  induction v as [| x v IH]; intros Hv Hc.
  - cbn. rewrite Hc. reflexivity.
  - cbn in Hv |- *. destruct (p x); [apply IH; assumption | discriminate Hv].
Qed.

Lemma has_char_run (p : ascii -> bool) (c : ascii) (v : string) :
  skip_while p v = EmptyString -> p c = false -> has_char c v = false.
Proof.
  intros Hrun Hc. induction v as [| x v IH]; [reflexivity |].
  cbn in Hrun |- *. destruct (p x) eqn:Hx; [| discriminate Hrun].
  rewrite (IH Hrun), orb_false_r.
  destruct (Ascii.eqb x c) eqn:He; [| reflexivity].
  apply Ascii.eqb_eq in He. congruence.
Qed.

Lemma has_char_ends_with_CR (s : string) :
  has_char CR s = false -> ends_with_CR s = false.
Proof.
  induction s as [| x s IH]; [reflexivity |].
  cbn [has_char]. intros [Hx Hs]%orb_false_iff.
  destruct s as [| y s]; [exact Hx |].
  change (ends_with_CR (String x (String y s))) with (ends_with_CR (String y s)).
  apply IH, Hs.
Qed.

Lemma statusMatch_general (version rest : string) (d1 d2 d3 : ascii) :
  version_text version ->
  is_digit d1 = true -> is_digit d2 = true -> is_digit d3 = true ->
  statusMatch ("HTTP/" +:+ version +:+ " " +:+ digits3 d1 d2 d3 +:+ rest)
  = Some (digits3 d1 d2 d3).
Proof.
  intros [Hne Hrun] H1 H2 H3. unfold statusMatch.
  rewrite strip_prefix_app.
  destruct version as [| c version]; [contradiction |].
  cbn [append]. cbn [skip_while] in Hrun.
  destruct (is_digit_or_dot c) eqn:Hc; [| discriminate Hrun].
  change (String c (version +:+ String " " (digits3 d1 d2 d3 +:+ rest)))
    with (String c version +:+ String " " (digits3 d1 d2 d3 +:+ rest)).
  rewrite skip_while_run; [| cbn [skip_while]; rewrite Hc; exact Hrun | reflexivity].
  unfold digits3. cbn [append]. rewrite H1, H2, H3. reflexivity.
Qed.

(** X2.  The status line is read as follows: after [HTTP/], the
    version is any non-empty run of digits and dots; after one space,
    the three digits that follow are the status code; whatever follows
    them on the line, a reason phrase or even further digits, is
    ignored.  A text made of such a line, a blank line and a body has
    that code, no header, and the body with its line ends normalised. *)
Theorem status_line_reading (version reason body : string) (d1 d2 d3 : ascii) :
  version_text version ->
  is_digit d1 = true -> is_digit d2 = true -> is_digit d3 = true ->
  has_char LF reason = false -> has_char CR reason = false ->
  parseFixtureString
    ("HTTP/" +:+ version +:+ " " +:+ digits3 d1 d2 d3 +:+ reason +:+ blank +:+ body)
  = Ok (Fixture.mk (100 * digit_value d1 + 10 * digit_value d2 + digit_value d3)
          ∅ (replaceCRLF body)).
Proof.
  intros Hversion H1 H2 H3 Hlf Hcr.
  set (line := "HTTP/" +:+ version +:+ " " +:+ digits3 d1 d2 d3 +:+ reason).
  destruct Hversion as [Hne Hrun].
  assert (has_char LF line = false) as Hline.
  { unfold line, digits3. rewrite !has_char_app. cbn [has_char append]. rewrite Hlf.
    rewrite (is_digit_not_LF d1), (is_digit_not_LF d2), (is_digit_not_LF d3)
      by assumption.
    rewrite (has_char_run is_digit_or_dot) by (exact Hrun || reflexivity).
    reflexivity. }
  assert (ends_with_CR line = false) as Hend.
  { apply has_char_ends_with_CR.
    unfold line, digits3. rewrite !has_char_app. cbn [has_char append]. rewrite Hcr.
    rewrite (is_digit_not_CR d1), (is_digit_not_CR d2), (is_digit_not_CR d3)
      by assumption.
    rewrite (has_char_run is_digit_or_dot) by (exact Hrun || reflexivity).
    reflexivity. }
  replace ("HTTP/" +:+ version +:+ " " +:+ digits3 d1 d2 d3 +:+ reason +:+ blank +:+ body)
    with (header_text line [] +:+ blank +:+ body)
    by (unfold line; cbn [header_text]; rewrite !append_assoc; reflexivity).
  unfold parseFixtureString. fold blank.
  rewrite replaceCRLF_header_text by (try assumption; constructor).
  rewrite indexOf_header_text by (try assumption; constructor).
  rewrite slice_to_app.
  rewrite (slice_from_app _ (blank +:+ replaceCRLF body) 2).
  change (slice_from 2 (blank +:+ replaceCRLF body)) with (replaceCRLF body).
  rewrite split_header_text by (try assumption; constructor).
  cbn [hd tl fold_left header_text]. unfold line.
  rewrite statusMatch_general by (assumption || split; assumption).
  rewrite parseInt_digits3. reflexivity.
Qed.

(** The line [HTTP/2 2000 OK] is read as the code 200. *)
Lemma status_line_reading_witness :
  parseFixtureString ("HTTP/" +:+ "2" +:+ " " +:+ digits3 "2" "0" "0" +:+ "0 OK"
                      +:+ blank +:+ "a" +:+ crlf +:+ "b")
  = Ok (Fixture.mk (100 * digit_value "2" + 10 * digit_value "0" + digit_value "0")
          ∅ (replaceCRLF ("a" +:+ crlf +:+ "b"))).
Proof.
  apply (status_line_reading "2" "0 OK" ("a" +:+ crlf +:+ "b") "2" "0" "0");
    solve [reflexivity | split; [discriminate | reflexivity]].
Defined.

(** ** parse-fixture.mjs: repeated headers *)

Lemma parseHeaderLine_lookup (h : gmap string string) (line name : string) :
  parseHeaderLine h line !! name
  = match header_of_line line with
    | Some (k, v) =>
        if String.eqb k name && negb (String.eqb name "__proto__") then Some v
        else h !! name
    | None => h !! name
    end.
Proof.
  unfold parseHeaderLine, header_of_line.
  destruct line as [| c line]; [reflexivity |].
  destruct (indexOf ":" (String c line)) as [i |]; [| reflexivity].
  unfold set_header.
  destruct (String.eqb (trim (slice_to i (String c line))) name) eqn:Hk.
  - apply String.eqb_eq in Hk. rewrite Hk.
    destruct (String.eqb name "__proto__"); [reflexivity |].
    cbn [andb negb]. apply lookup_insert_eq.
  - apply String.eqb_neq in Hk. cbn [andb].
    destruct (String.eqb (trim (slice_to i (String c line))) "__proto__");
      [reflexivity |].
    apply lookup_insert_ne. exact Hk.
Qed.

Lemma fold_parseHeaderLine_lookup (lines : list string) (h : gmap string string)
    (name : string) :
  name <> "__proto__" ->
  fold_left parseHeaderLine lines h !! name
  = match last_header name lines with
    | Some v => Some v
    | None => h !! name
    end.
Proof.
  intros Hname%String.eqb_neq. revert h.
  induction lines as [| line lines IH]; intros h; [reflexivity |].
  cbn [fold_left]. rewrite IH, parseHeaderLine_lookup, Hname.
  unfold last_header. cbn [omap list_omap].
  destruct (header_of_line line) as [[k v] |]; [| reflexivity].
  rewrite andb_true_r.
  destruct (String.eqb k name); [| reflexivity].
  rewrite last_cons.
  match goal with |- context [last ?l] => destruct (last l) end; reflexivity.
Qed.

Lemma fold_parseHeaderLine_proto (lines : list string) (h : gmap string string) :
  fold_left parseHeaderLine lines h !! "__proto__" = h !! "__proto__".
Proof.
  revert h. induction lines as [| line lines IH]; intros h; [reflexivity |].
  cbn [fold_left]. rewrite IH, parseHeaderLine_lookup.
  destruct (header_of_line line) as [[k v] |]; [| reflexivity].
  rewrite andb_false_r. reflexivity.
Qed.

(** X3.  When a header name occurs on several lines of the header
    block, the parsed fixture holds the value of the last of them; a
    name is what precedes the first colon of its line, trimmed, and
    names that differ in case are different names.  The name
    [__proto__] is never stored. *)
Theorem last_header_wins (raw : string) (f : Fixture.t) (name : string) :
  parseFixtureString raw = Ok f ->
  Fixture.headers f !! name
  = if String.eqb name "__proto__" then None
    else last_header name (header_lines raw).
Proof.
  intros Hparse.
  destruct (parseFixtureString_inv raw f Hparse) as (_ & _ & _ & ->).
  destruct (String.eqb name "__proto__") eqn:Hname.
  - apply String.eqb_eq in Hname. subst name.
    rewrite fold_parseHeaderLine_proto. apply lookup_empty.
  - apply String.eqb_neq in Hname.
    rewrite fold_parseHeaderLine_lookup by exact Hname.
    rewrite lookup_empty. destruct (last_header name (header_lines raw)); reflexivity.
Qed.

(** The sample text has [Retry-After] twice, the second time with a
    space before the colon: the second value is the one kept. *)
Lemma last_header_wins_witness :
  Fixture.headers
    (Fixture.mk 429 {[ "Content-Type" := "text/plain"; "Retry-After" := "60" ]}
       ("slow down" +:+ nl +:+ nl +:+ "please"))
  !! "Retry-After"
  = if String.eqb "Retry-After" "__proto__" then None
    else last_header "Retry-After" (header_lines sample_fixture_text).
Proof.
  apply (last_header_wins sample_fixture_text). vm_compute. reflexivity.
Defined.

(** ** parse-fixture.mjs: line ends *)

Lemma to_crlf_head (s : string) :
  match to_crlf s with
  | String c _ => Ascii.eqb c LF = false
  | EmptyString => s = EmptyString
  end.
Proof.
  destruct s as [| c s]; [reflexivity |].
  cbn. destruct (Ascii.eqb c LF) eqn:Hc; [reflexivity | exact Hc].
Qed.

Lemma replaceCRLF_to_crlf (s : string) : replaceCRLF (to_crlf s) = s.
Proof.
  induction s as [| c s IH]; [reflexivity |].
  cbn [to_crlf]. destruct (Ascii.eqb c LF) eqn:Hc.
  - apply Ascii.eqb_eq in Hc. subst c. cbn. rewrite IH. reflexivity.
  - pose proof (to_crlf_head s) as Hhead.
    destruct (to_crlf s) as [| d t] eqn:Ht.
    + subst s. reflexivity.
    + change (replaceCRLF (String c (String d t)))
        with (if Ascii.eqb c CR && Ascii.eqb d LF
              then String LF (replaceCRLF t)
              else String c (replaceCRLF (String d t))).
      rewrite Hhead, andb_false_r, IH. reflexivity.
Qed.

(** X4.  A fixture text may be saved with LF or with CR LF line ends:
    for a text that holds no CR LF pair, the text with every line feed
    turned into CR LF parses to the same outcome, be it a fixture or
    the failure. *)
Theorem line_ends_equivalent (raw : string) :
  includes crlf raw = false ->
  parseFixtureString (to_crlf raw) = parseFixtureString raw.
Proof.
  intros Hfree. unfold parseFixtureString.
  rewrite replaceCRLF_to_crlf, (proj2 (replaceCRLF_fixed raw) Hfree). reflexivity.
Qed.

Lemma line_ends_equivalent_witness :
  parseFixtureString (to_crlf sample_fixture_text)
  = parseFixtureString sample_fixture_text.
Proof. apply (line_ends_equivalent sample_fixture_text). vm_compute. reflexivity. Defined.

(** ** parse-fixture.mjs: where the body starts *)

Lemma includes_cons_false (needle : string) (c : ascii) (s : string) :
  includes needle (String c s) = false ->
  String.prefix needle (String c s) = false /\ includes needle s = false.
Proof.
  unfold includes. rewrite indexOf_cons.
  destruct (String.prefix needle (String c s)); [discriminate |].
  destruct (indexOf needle s); [discriminate | auto].
Qed.

Lemma indexOf_first_blank (head rest : string) :
  includes blank (head +:+ nl) = false ->
  indexOf blank (head +:+ blank +:+ rest) = Some (String.length head).
Proof.
  induction head as [| c head IH]; intros Hfirst.
  - apply (indexOf_here blank rest).
  - cbn [append] in Hfirst |- *.
    apply includes_cons_false in Hfirst as [Hp Hrest].
    rewrite indexOf_cons, (IH Hrest). cbn [option_map String.length].
    assert (String.prefix blank (String c (head +:+ blank +:+ rest)) = false) as ->;
      [| reflexivity].
    unfold blank, nl in *. rewrite prefix_cons in Hp |- *.
    destruct (Ascii.eqb LF c); [| reflexivity]. cbn [andb] in Hp |- *.
    destruct head as [| d head]; cbn [append] in Hp |- *.
    + rewrite prefix_cons, prefix_empty in Hp. rewrite prefix_cons, prefix_empty.
      exact Hp.
    + rewrite prefix_cons, prefix_empty in Hp. rewrite prefix_cons, prefix_empty.
      exact Hp.
Qed.

(** X5.  The body is what follows the first blank line of the
    normalised text, to the end and verbatim, later blank lines
    included; the lines before that blank line, the first apart, are
    the header lines.  A text without a blank line has an empty body. *)
Theorem body_after_first_blank_line (raw : string) (f : Fixture.t) :
  parseFixtureString raw = Ok f ->
  (includes blank (normalised raw) = false -> Fixture.body f = EmptyString)
  /\ (forall head rest,
         normalised raw = head +:+ blank +:+ rest ->
         includes blank (head +:+ nl) = false ->
         Fixture.body f = rest
         /\ status_line raw = hd EmptyString (split LF head)
         /\ header_lines raw = tl (split LF head)).
Proof.
  unfold normalised, status_line, header_lines, parseFixtureString, includes.
  fold blank. intros Hparse. split.
  - intros Hnone.
    destruct (indexOf blank (replaceCRLF raw)); [discriminate Hnone |].
    destruct (statusMatch _); [| discriminate Hparse].
    injection Hparse as <-. reflexivity.
  - intros head rest Hsplit Hfirst.
    rewrite Hsplit in *. rewrite indexOf_first_blank in * by exact Hfirst.
    rewrite slice_to_app in *.
    rewrite (slice_from_app head (blank +:+ rest) 2) in Hparse.
    change (slice_from 2 (blank +:+ rest)) with rest in Hparse.
    destruct (statusMatch _); [| discriminate Hparse].
    injection Hparse as <-. auto.
Qed.

(** In the sample text the body holds a blank line of its own. *)
Lemma body_after_first_blank_line_witness :
  let head :=
    "HTTP/1.1 429 Too Many Requests" +:+ nl +:+ "Content-Type: text/plain" +:+ nl
    +:+ "Retry-After: 30" +:+ nl +:+ "Retry-After : 60" in
  let rest := "slow down" +:+ nl +:+ nl +:+ "please" in
  let f :=
    Fixture.mk 429 {[ "Content-Type" := "text/plain"; "Retry-After" := "60" ]} rest in
  Fixture.body f = rest
  /\ status_line sample_fixture_text = hd EmptyString (split LF head)
  /\ header_lines sample_fixture_text = tl (split LF head).
Proof.
  intros head rest f.
  apply (proj2 (body_after_first_blank_line sample_fixture_text f
                  ltac:(vm_compute; reflexivity)) head rest);
    vm_compute; reflexivity.
Defined.

(** ** parse-fixture.mjs: the failure *)

Lemma split_hd_first_line (s : string) :
  has_char LF (hd EmptyString (split LF s)) = false
  /\ (s = hd EmptyString (split LF s)
      \/ exists rest, s = hd EmptyString (split LF s) +:+ String LF rest).
Proof.
  induction s as [| c s [IHlf IH]]; [cbn; auto |].
  cbn [split]. destruct (Ascii.eqb c LF) eqn:Hc.
  - apply Ascii.eqb_eq in Hc. subst c. cbn. split; [reflexivity |]. right. eauto.
  - destruct (split LF s) as [| l ls] eqn:Hsplit; cbn [hd] in *.
    + cbn. rewrite Hc. split; [reflexivity |].
      destruct IH as [-> | [rest ->]]; [auto |]. right. exists rest. reflexivity.
    + cbn [has_char]. rewrite Hc, IHlf. split; [reflexivity |].
      destruct IH as [-> | [rest ->]]; [auto |]. right. exists rest. reflexivity.
Qed.

Lemma slice_to_prefix (i : nat) (s : string) :
  exists rest, s = slice_to i s +:+ rest.
Proof.
  revert s. induction i as [| i IH]; intros s; [exists s; reflexivity |].
  destruct s as [| c s]; [exists EmptyString; reflexivity |].
  destruct (IH s) as [rest Hrest]. exists rest. cbn. congruence.
Qed.

(** X6.  The one way [parseFixtureString] fails is on the first line:
    it throws exactly when the first line of the normalised text does
    not match the status-line pattern, and then with the message
    [Invalid HTTP fixture: expected status line, got] followed by that
    line between double quotes.  The line is the text up to its first
    line feed.  In particular the empty text, a text that starts with a
    blank line, and a line with [http] in lower case all fail. *)
Theorem parseFixtureString_failure (raw : string) :
  (forall e,
      parseFixtureString raw = Throw e
      <-> statusMatch (status_line raw) = None
          /\ e = Error ("Invalid HTTP fixture: expected status line, got "
                        +:+ dq +:+ status_line raw +:+ dq))
  /\ has_char LF (status_line raw) = false
  /\ (exists rest, normalised raw = status_line raw +:+ rest)
  /\ (forall rest, raw = nl +:+ rest ->
      parseFixtureString raw = Throw (MalformedFixture EmptyString))
  /\ parseFixtureString EmptyString = Throw (MalformedFixture EmptyString)
  /\ forall rest, statusMatch ("http/1.1 200 OK" +:+ rest) = None.
Proof.
  split; [| split; [| split; [| split; [| split]]]].
  - intros e. unfold parseFixtureString, status_line, MalformedFixture. cbv zeta.
    match goal with |- context [statusMatch ?l] => destruct (statusMatch l) end.
    + split; [discriminate | intros [H _]; discriminate H].
    + split; [intros [= <-]; auto | intros [_ ->]; reflexivity].
  - unfold status_line. apply split_hd_first_line.
  - unfold status_line, normalised. cbv zeta.
    destruct (indexOf (String LF (String LF EmptyString)) (replaceCRLF raw)) as [i |].
    + destruct (slice_to_prefix i (replaceCRLF raw)) as [rest Hrest].
      destruct (split_hd_first_line (slice_to i (replaceCRLF raw)))
        as [_ [Hline | [rest' Hline]]].
      * exists rest. rewrite <- Hline. exact Hrest.
      * exists (String LF rest' +:+ rest). rewrite <- append_assoc, <- Hline. exact Hrest.
    + destruct (split_hd_first_line (replaceCRLF raw)) as [_ [Hline | [rest' Hline]]].
      * exists EmptyString. rewrite <- Hline. clear. 
        induction (replaceCRLF raw) as [| c s IH]; cbn; congruence.
      * eauto.
  - intros rest ->. unfold parseFixtureString.
    change (nl +:+ rest) with (String LF rest).
    rewrite replaceCRLF_cons by reflexivity.
    destruct (indexOf (String LF (String LF EmptyString)) (String LF (replaceCRLF rest)))
      as [[| i] |]; reflexivity.
  - reflexivity.
  - intros rest. reflexivity.
Qed.

(** A status line with a code of two digits. *)
Lemma parseFixtureString_failure_witness :
  parseFixtureString ("HTTP/1.1 20 OK" +:+ nl +:+ nl +:+ "{}")
  = Throw (Error ("Invalid HTTP fixture: expected status line, got "
                  +:+ dq +:+ "HTTP/1.1 20 OK" +:+ dq)).
Proof.
  apply (proj1 (parseFixtureString_failure ("HTTP/1.1 20 OK" +:+ nl +:+ nl +:+ "{}"))).
  split; vm_compute; reflexivity.
Defined.

(** ** index.mjs: resolveStepFixtures *)

Section ResolveFacts.
Variable isAbsolute : string -> bool.
Variable resolve : string -> string -> string.
Variable readFileSync : string -> result string.
Variable scenariosDir : string.

Lemma resolveStep_resolved (step : Step.t) :
  resolved step = true ->
  resolveStep isAbsolute resolve readFileSync scenariosDir step = Ok step.
Proof.
  unfold resolved, resolveStep. rewrite orb_comm. intros ->. reflexivity.
Qed.

Lemma resolveStep_unresolved (step : Step.t) :
  resolved step = false ->
  resolveStep isAbsolute resolve readFileSync scenariosDir step
  = match Step.fixture step with
    | None | Some EmptyString => Throw (MissingFixture (Step.request step))
    | Some path =>
        match parseFixture isAbsolute resolve readFileSync path scenariosDir with
        | Throw e => Throw e
        | Ok fixtureData =>
            Ok (Step.mk (Step.request step) (Step.fixture step) (Some fixtureData)
                  (Step.networkError step))
        end
    end.
Proof.
  unfold resolved, resolveStep. rewrite orb_comm. intros ->. reflexivity.
Qed.

Lemma resolveStep_resolution (step step' : Step.t) :
  resolveStep isAbsolute resolve readFileSync scenariosDir step = Ok step' ->
  resolution (fun path => parseFixture isAbsolute resolve readFileSync path scenariosDir)
    step step'.
Proof.
  destruct (resolved step) eqn:Hres.
  - rewrite resolveStep_resolved by exact Hres. intros [= <-].
    unfold resolution. rewrite Hres. repeat split; auto. discriminate.
  - rewrite resolveStep_unresolved by exact Hres.
    destruct (Step.fixture step) as [[| c path] |] eqn:Hfix; try discriminate.
    destruct (parseFixture _ _ _ (String c path) scenariosDir) as [f |] eqn:Hload;
      [| discriminate].
    intros [= <-]. unfold resolution. cbn [Step.request Step.fixture Step.networkError].
    repeat split; auto.
    + unfold resolved. cbn [Step.networkError Step.fixtureData].
      apply orb_true_iff. right. apply bool_decide_eq_true. eauto.
    + intros Hres'. congruence.
    + intros _. exists (String c path), f. repeat split; auto.
Qed.

Lemma resolveStepFixtures_app (pre rest : list Step.t) :
  Forall (fun s => resolvable isAbsolute resolve readFileSync scenariosDir s = true) pre ->
  exists pre',
    length pre' = length pre
    /\ resolveStepFixtures isAbsolute resolve readFileSync (pre ++ rest) scenariosDir
       = match resolveStepFixtures isAbsolute resolve readFileSync rest scenariosDir with
         | Ok rest' => Ok (pre' ++ rest')
         | Throw e => Throw e
         end.
Proof.
  induction 1 as [| step pre Hstep _ (pre' & Hlen & IH)].
  - exists []. split; [reflexivity |]. cbn.
    destruct (resolveStepFixtures _ _ _ rest scenariosDir); reflexivity.
  - unfold resolvable in Hstep.
    destruct (resolveStep isAbsolute resolve readFileSync scenariosDir step)
      as [step' |] eqn:Hrun; [| discriminate Hstep].
    exists (step' :: pre'). split; [cbn; congruence |].
    cbn [app resolveStepFixtures]. rewrite Hrun, IH.
    destruct (resolveStepFixtures _ _ _ rest scenariosDir); reflexivity.
Qed.

Lemma resolveStepFixtures_Forall2 (steps steps' : list Step.t) :
  resolveStepFixtures isAbsolute resolve readFileSync steps scenariosDir = Ok steps' ->
  Forall2
    (resolution (fun path => parseFixture isAbsolute resolve readFileSync path scenariosDir))
    steps steps'.
Proof.
  revert steps'. induction steps as [| step steps IH]; intros steps'.
  - intros [= <-]. constructor.
  - cbn [resolveStepFixtures].
    destruct (resolveStep isAbsolute resolve readFileSync scenariosDir step)
      as [step' |] eqn:Hstep; [| discriminate].
    destruct (resolveStepFixtures _ _ _ steps scenariosDir) as [rest |]; [| discriminate].
    intros [= <-]. constructor; [apply resolveStep_resolution, Hstep | apply IH; reflexivity].
Qed.

End ResolveFacts.

(** X7.  When [resolveStepFixtures] returns, it returns one step for
    each step it was given, in order; each has the request, the fixture
    path and the network-error flag of the step it comes from, and has
    fixture data or the flag; a step that had either is returned as it
    was, and its fixture file, if it names one, is not looked at; a
    step that had neither carries the fixture parsed from the file it
    names, which is not empty. *)
Theorem resolveStepFixtures_resolves (isAbsolute : string -> bool)
    (resolve : string -> string -> string) (readFileSync : string -> result string)
    (steps steps' : list Step.t) (scenariosDir : string) :
  resolveStepFixtures isAbsolute resolve readFileSync steps scenariosDir = Ok steps' ->
  length steps' = length steps
  /\ Forall2
       (resolution
          (fun path => parseFixture isAbsolute resolve readFileSync path scenariosDir))
       steps steps'.
Proof.
  intros Hrun%resolveStepFixtures_Forall2.
  split; [symmetry; eapply Forall2_length, Hrun | exact Hrun].
Qed.

(** A step that names [200.http], relative to the directory [/t], and a
    step with the network-error flag. *)
Lemma resolveStepFixtures_resolves_witness :
  let steps' :=
    [ Step.mk (Request.mk "get" "https://example.com/users" None) (Some "200.http")
        (Some (Fixture.mk 200 ∅ "{}")) false;
      network_error_step ] in
  length steps' = length [fixture_step; network_error_step]
  /\ Forall2
       (resolution
          (fun path => parseFixture sample_isAbsolute sample_resolve sample_readFileSync
                         path "/t"))
       [fixture_step; network_error_step] steps'.
Proof.
  intros steps'.
  apply (resolveStepFixtures_resolves sample_isAbsolute sample_resolve
           sample_readFileSync [fixture_step; network_error_step] steps' "/t").
  vm_compute. reflexivity.
Defined.

(** X8.  The steps are resolved in order and the first one that cannot
    be resolved decides the failure: a step without fixture data,
    without the flag and without a fixture path fails with a message
    that names its method and its URL; a step whose fixture file cannot
    be read or parsed fails with the error of the reading or of the
    parsing.  The steps after it play no part. *)
Theorem resolveStepFixtures_first_failure (isAbsolute : string -> bool)
    (resolve : string -> string -> string) (readFileSync : string -> result string)
    (scenariosDir : string) (pre post : list Step.t) (step : Step.t) :
  Forall (fun s => resolvable isAbsolute resolve readFileSync scenariosDir s = true) pre ->
  resolved step = false ->
  let outcome :=
    resolveStepFixtures isAbsolute resolve readFileSync (pre ++ step :: post)
      scenariosDir in
  (no_fixture step = true ->
   outcome
   = Throw (Error ("Step for " +:+ Request.method (Step.request step) +:+ " "
                   +:+ Request.url (Step.request step)
                   +:+ " has no fixture, fixtureData, or networkError")))
  /\ (forall path e,
         Step.fixture step = Some path -> path <> EmptyString ->
         parseFixture isAbsolute resolve readFileSync path scenariosDir = Throw e ->
         outcome = Throw e)
  /\ (forall path e,
         Step.fixture step = Some path -> path <> EmptyString ->
         readFileSync (if isAbsolute path then path else resolve scenariosDir path)
         = Throw e ->
         outcome = Throw e).
Proof.
  intros Hpre Hres outcome. subst outcome.
  destruct (resolveStepFixtures_app isAbsolute resolve readFileSync scenariosDir
              pre (step :: post) Hpre) as (pre' & _ & ->).
  cbn [resolveStepFixtures].
  rewrite resolveStep_unresolved by exact Hres.
  split; [| split].
  - unfold no_fixture. intros Hnone.
    destruct (Step.fixture step) as [[| c path] |]; try discriminate Hnone; reflexivity.
  - intros path e -> Hpath Hload. rewrite Hload.
    destruct path; [contradiction | reflexivity].
  - intros path e -> Hpath Hread. unfold parseFixture. rewrite Hread.
    destruct path; [contradiction | reflexivity].
Qed.

(** Behind the step that names [200.http], a step names a file that is
    not there: the failure is the one of the reading. *)
Lemma resolveStepFixtures_first_failure_witness :
  resolveStepFixtures sample_isAbsolute sample_resolve sample_readFileSync
    ([fixture_step]
       ++ Step.mk (Request.mk "GET" "https://example.com/users" None) (Some "/t/404.http")
            None false
       :: [unresolved_step])
    "/t"
  = Throw (Error "ENOENT: no such file or directory, open '/t/404.http'").
Proof.
  pose proof (resolveStepFixtures_first_failure sample_isAbsolute sample_resolve
                sample_readFileSync "/t" [fixture_step] [unresolved_step]
                (Step.mk (Request.mk "GET" "https://example.com/users" None)
                   (Some "/t/404.http") None false)
                ltac:(constructor; [reflexivity | constructor]) eq_refl)
    as (_ & _ & Hread).
  apply (Hread "/t/404.http"); [reflexivity | discriminate | reflexivity].
Defined.

(** ** index.mjs and setup-nock.mjs: resolved steps are installed *)

Lemma setupStep_resolved (URL : string -> option Url.t) (nock : string -> result unit)
    (step : Step.t) :
  resolved step = true ->
  (exists scope, setupStep URL nock step = Ok scope)
  \/ exists e,
       setupStep URL nock step = Throw e
       /\ ((absolute_url URL step = false /\ e = TypeError)
           \/ (absolute_url URL step = true
               /\ supported_verb (Request.method (Step.request step)) = false
               /\ e = UnsupportedMethod (Request.method (Step.request step)))
           \/ (exists url,
                  URL (Request.url (Step.request step)) = Some url
                  /\ supported_verb (Request.method (Step.request step)) = true
                  /\ nock (Url.origin url) = Throw e)).
Proof.
  intros Hres.
  destruct (absolute_url URL step) eqn:Hurl.
  - destruct (supported_verb (Request.method (Step.request step))) eqn:Hverb.
    + pose proof Hurl as [url Hsome]%bool_decide_eq_true.
      destruct (nock (Url.origin url)) as [[] | e] eqn:Hnock.
      * left. apply setupStep_ok. unfold installable, scope_built.
        rewrite Hurl, Hverb, Hsome, Hnock, Hres. reflexivity.
      * right. exists e. split; [eapply setupStep_refused; eassumption |].
        right. right. eauto.
    + right. eexists. split; [apply setupStep_unsupported; assumption |].
      right. left. auto.
  - right. eexists. split; [apply setupStep_relative; assumption |]. left. auto.
Qed.

Lemma setupLoop_resolved (URL : string -> option Url.t) (nock : string -> result unit)
    (steps : list Step.t) (scopes active active' : list Interceptor.t) (e : exn) :
  Forall (fun s => resolved s = true) steps ->
  setupLoop URL nock steps scopes active = (Throw e, active') ->
  exists step,
    In step steps
    /\ ((absolute_url URL step = false /\ e = TypeError)
        \/ (absolute_url URL step = true
            /\ supported_verb (Request.method (Step.request step)) = false
            /\ e = UnsupportedMethod (Request.method (Step.request step)))
        \/ (exists url,
               URL (Request.url (Step.request step)) = Some url
               /\ supported_verb (Request.method (Step.request step)) = true
               /\ nock (Url.origin url) = Throw e)).
Proof.
  intros Hsteps. revert scopes active.
  induction Hsteps as [| step steps Hstep _ IH]; intros scopes active Hrun.
  - discriminate Hrun.
  - cbn [setupLoop] in Hrun.
    destruct (setupStep_resolved URL nock step Hstep)
      as [[scope Hok] | (e1 & Hfail & Hwhy)].
    + rewrite Hok in Hrun. destruct (IH _ _ Hrun) as (s & Hin & Hs).
      exists s. split; [right; exact Hin | exact Hs].
    + rewrite Hfail in Hrun. injection Hrun as -> _.
      exists step. split; [left; reflexivity | exact Hwhy].
Qed.

(** X9.  The steps that [resolveStepFixtures] returns never make
    [setupNock] fail for want of fixture data: when it fails on them,
    it does so at a step whose URL is not absolute, with the
    [TypeError] of [new URL], or whose verb is not supported, with
    [UnsupportedMethod], or whose origin nock refuses, with what
    [nock(origin)] throws.  When every step has an absolute URL, a
    supported verb and an origin that nock builds a scope for,
    [setupNock] installs one interceptor for each step. *)
Theorem resolved_steps_install (isAbsolute : string -> bool)
    (resolve : string -> string -> string) (readFileSync : string -> result string)
    (URL : string -> option Url.t) (nock : string -> result unit)
    (steps steps' : list Step.t) (scenariosDir : string) :
  resolveStepFixtures isAbsolute resolve readFileSync steps scenariosDir = Ok steps' ->
  (forall active e active',
      setupNock URL nock steps' active = (Throw e, active') ->
      exists step,
        In step steps'
        /\ ((absolute_url URL step = false /\ e = TypeError)
            \/ (absolute_url URL step = true
                /\ supported_verb (Request.method (Step.request step)) = false
                /\ e = UnsupportedMethod (Request.method (Step.request step)))
            \/ (exists url,
                   URL (Request.url (Step.request step)) = Some url
                   /\ supported_verb (Request.method (Step.request step)) = true
                   /\ nock (Url.origin url) = Throw e)))
  /\ (Forall (fun s => addressable URL nock s = true) steps ->
      forall active, exists scopes,
        setupNock URL nock steps' active = (Ok scopes, active ++ scopes)
        /\ length scopes = length steps).
Proof.
  intros Hrun%resolveStepFixtures_Forall2.
  assert (Forall (fun s => resolved s = true) steps') as Hres.
  { induction Hrun as [| s s' l l' (_ & _ & _ & Hs & _) _ IH]; constructor; auto. }
  split.
  - intros active e active' Hfail. eapply setupLoop_resolved; eassumption.
  - intros Haddr active.
    assert (Forall (fun s => installable URL nock s = true) steps') as Hinst.
    { clear Hres. induction Hrun as [| s s' l l' (Hreq & _ & _ & Hs & _) _ IH].
      - constructor.
      - apply Forall_cons_1 in Haddr as [Ha Hl].
        constructor; [| apply IH, Hl].
        unfold installable. unfold addressable, absolute_url, scope_built in Ha.
        unfold absolute_url, scope_built. rewrite Hreq, Ha, Hs. reflexivity. }
    destruct (setupLoop_installable URL nock steps' [] active Hinst)
      as (installed & Hall & Hloop).
    exists installed. split; [exact Hloop |].
    rewrite <- (Forall2_length _ _ _ Hall). symmetry. eapply Forall2_length, Hrun.
Qed.

(** The two sample steps, resolved, are installed on top of whatever
    was registered. *)
Lemma resolved_steps_install_witness :
  let steps' :=
    [ Step.mk (Request.mk "get" "https://example.com/users" None) (Some "200.http")
        (Some (Fixture.mk 200 ∅ "{}")) false;
      network_error_step ] in
  exists scopes,
    setupNock sample_URL sample_nock steps' [] = (Ok scopes, [] ++ scopes)
    /\ length scopes = length [fixture_step; network_error_step].
Proof.
  intros steps'.
  apply (proj2 (resolved_steps_install sample_isAbsolute sample_resolve
                  sample_readFileSync sample_URL sample_nock
                  [fixture_step; network_error_step]
                  steps' "/t" ltac:(vm_compute; reflexivity))).
  repeat constructor.
Defined.

(** ** parse-scenarios.mjs: normaliseScenario *)

(** X10.  Normalising is idempotent: what [normaliseScenario] returns
    has [steps] and is returned as it is when normalised again.  A
    scenario that has [steps] is returned unchanged, an empty list of
    steps included; a shorthand scenario gets one step, made of its
    [request] and its [fixture], and loses these two keys; every other
    key is kept. *)
Theorem normaliseScenario_idempotent (s n : Scenario.t) :
  normaliseScenario s = Ok n ->
  normaliseScenario n = Ok n
  /\ is_Some (Scenario.steps n)
  /\ (is_Some (Scenario.steps s) -> n = s)
  /\ (Scenario.steps s = None ->
      exists request,
        Scenario.request s = Some request
        /\ Scenario.steps n = Some [Step.mk request (Scenario.fixture s) None false]
        /\ Scenario.request n = None
        /\ Scenario.fixture n = None)
  /\ Scenario.name n = Scenario.name s
  /\ Scenario.params n = Scenario.params s
  /\ Scenario.context n = Scenario.context s
  /\ Scenario.invoke n = Scenario.invoke s
  /\ Scenario.error n = Scenario.error s
  /\ Scenario._common n = Scenario._common s.
Proof.
  unfold normaliseScenario. cbv zeta.
  destruct (Scenario.steps s) as [steps |] eqn:Hsteps.
  - intros [= <-]. rewrite Hsteps. repeat split; eauto. discriminate.
  - destruct (Scenario.request s) as [request |] eqn:Hreq; [| discriminate].
    intros [= <-]. cbn. repeat split; eauto.
    intros [x Hx]. discriminate Hx.
Qed.

Lemma normaliseScenario_idempotent_witness :
  let n :=
    Scenario.mk (Some "basic test")
      (Some [Step.mk sample_request (Some "f.http") None false]) None None None None
      (Some (Expectation.mk (VObject 1 []) None)) None false in
  normaliseScenario n = Ok n
  /\ is_Some (Scenario.steps n)
  /\ (is_Some (Scenario.steps (sample_scenario "basic test")) ->
      n = sample_scenario "basic test")
  /\ (Scenario.steps (sample_scenario "basic test") = None ->
      exists request,
        Scenario.request (sample_scenario "basic test") = Some request
        /\ Scenario.steps n
           = Some [Step.mk request (Scenario.fixture (sample_scenario "basic test"))
                     None false]
        /\ Scenario.request n = None
        /\ Scenario.fixture n = None)
  /\ Scenario.name n = Scenario.name (sample_scenario "basic test")
  /\ Scenario.params n = Scenario.params (sample_scenario "basic test")
  /\ Scenario.context n = Scenario.context (sample_scenario "basic test")
  /\ Scenario.invoke n = Scenario.invoke (sample_scenario "basic test")
  /\ Scenario.error n = Scenario.error (sample_scenario "basic test")
  /\ Scenario._common n = Scenario._common (sample_scenario "basic test").
Proof.
  intros n. apply (normaliseScenario_idempotent (sample_scenario "basic test") n).
  reflexivity.
Defined.

(** ** parse-scenarios.mjs: which documents are accepted *)

Lemma scenario_ok_checks (s : Scenario.t) :
  scenario_ok s
  = is_Ok (match validateScenario s 0 with
           | Throw e => Throw e
           | Ok _ => normaliseScenario s
           end).
Proof.
  unfold scenario_ok, validateScenario, normaliseScenario. cbv zeta.
  destruct (name_falsy (Scenario.name s)); [reflexivity |].
  destruct (Scenario.invoke s); [| reflexivity].
  destruct (Scenario.steps s); [reflexivity |].
  destruct (Scenario.request s); reflexivity.
Qed.

Lemma validateScenario_index (s : Scenario.t) (i j : nat) :
  is_Ok (validateScenario s i) = is_Ok (validateScenario s j).
Proof.
  unfold validateScenario.
  destruct (name_falsy (Scenario.name s)); [reflexivity |].
  destruct (Scenario.invoke s); reflexivity.
Qed.

Lemma map_scenarios_accepts (l : list Scenario.t) (i : nat) :
  is_Ok (map_scenarios i l) = forallb scenario_ok l.
Proof.
  revert i. induction l as [| s l IH]; intros i; [reflexivity |].
  cbn [map_scenarios forallb]. rewrite scenario_ok_checks, <- (IH (S i)).
  pose proof (validateScenario_index s i 0) as Hv.
  destruct (validateScenario s i), (validateScenario s 0); try discriminate Hv;
    [| reflexivity].
  destruct (normaliseScenario s); [| reflexivity].
  destruct (map_scenarios (S i) l); reflexivity.
Qed.

Lemma normalised_first_step (s n : Scenario.t) :
  normaliseScenario s = Ok n ->
  match Scenario.steps n with
  | Some (step :: _) => first_step_request s = Some (Step.request step)
  | Some [] | None => first_step_request s = None
  end.
Proof.
  unfold normaliseScenario, first_step_request. cbv zeta.
  destruct (Scenario.steps s) as [steps |] eqn:Hsteps.
  - intros [= <-]. rewrite Hsteps. destruct steps; reflexivity.
  - destruct (Scenario.request s); [| discriminate]. intros [= <-]. reflexivity.
Qed.

(** X11.  [parseScenariosString] returns exactly for the documents
    that have an [action] and a non-empty [scenarios] sequence whose
    entries all have a non-empty name, an [invoke], and [steps] or a
    [request]; with [includeCommon] the first scenario must, besides,
    have a first step, which the shorthand form always gives and an
    empty list of steps does not. *)
Theorem parseScenariosString_accepts (yaml_load : string -> Doc.t)
    (yamlString : string) (includeCommon : bool) :
  is_Ok (parseScenariosString yaml_load yamlString
           (Some (ParseOptions.mk (Some includeCommon))))
  = well_formed (yaml_load yamlString)
    && (negb includeCommon
        || bool_decide (is_Some (template_request (yaml_load yamlString)))).
Proof.
  unfold parseScenariosString, well_formed, template_request. cbn [default ParseOptions.includeCommon].
  destruct (Doc.action (yaml_load yamlString)) as [action |]; [| reflexivity].
  destruct (Doc.scenarios (yaml_load yamlString)) as [[| first others] |];
    [reflexivity | | reflexivity].
  rewrite <- (map_scenarios_accepts (first :: others) 0).
  assert (bool_decide (is_Some (Some action)) = true) as ->
      by (apply bool_decide_eq_true; eauto).
  cbn [andb].
  destruct (map_scenarios 0 (first :: others)) as [userScenarios |] eqn:Hmap;
    [| reflexivity].
  destruct includeCommon; [| reflexivity].
  cbn [andb negb orb is_Ok].
  cbn [map_scenarios] in Hmap.
  destruct (validateScenario first 0); [| discriminate Hmap].
  destruct (normaliseScenario first) as [n |] eqn:Hn; [| discriminate Hmap].
  destruct (map_scenarios 1 others); [| discriminate Hmap].
  injection Hmap as <-.
  pose proof (normalised_first_step first n Hn) as Hfirst.
  destruct (Scenario.steps n) as [[| step steps] |]; rewrite Hfirst; reflexivity.
Qed.

(** ** parse-scenarios.mjs: an empty list of steps *)

(** X12.  A first scenario written with [steps: []] passes every
    check, and the document is accepted without the common scenarios;
    with them, and so in [runScenarios] by default, the parse does not
    end in a [MalformedScenarioFile] but in the [TypeError] of reading
    the request of a step that is not there. *)
Theorem empty_steps_TypeError (yaml_load : string -> Doc.t) (yamlString : string)
    (action : Action.t) (first : Scenario.t) (others : list Scenario.t) :
  Doc.action (yaml_load yamlString) = Some action ->
  Doc.scenarios (yaml_load yamlString) = Some (first :: others) ->
  Forall (fun s => scenario_ok s = true) (first :: others) ->
  Scenario.steps first = Some [] ->
  (exists rest,
      parseScenariosString yaml_load yamlString None
      = Ok (Parsed.mk action (first :: rest) None))
  /\ parseScenariosString yaml_load yamlString (Some (ParseOptions.mk (Some true)))
     = Throw TypeError
  /\ (forall readFileSync resolve dirname cwd scenariosPath callerDir,
         readFileSync (resolve (baseDir_of cwd callerDir) scenariosPath) = Ok yamlString ->
         runScenarios yaml_load readFileSync resolve dirname cwd
           (RunOptions.mk scenariosPath None callerDir)
         = Throw TypeError).
Proof.
  intros Haction Hscenarios Hok Hsteps.
  destruct (map_scenarios_ok (first :: others) 0 Hok) as (ns & Hmap & Hall).
  apply Forall2_cons_inv_l in Hall as (n & rest & Hn & _ & ->).
  assert (n = first) as ->.
  { unfold normaliseScenario in Hn. cbv zeta in Hn. rewrite Hsteps in Hn.
    injection Hn as <-. reflexivity. }
  assert (parseScenariosString yaml_load yamlString (Some (ParseOptions.mk (Some true)))
          = Throw TypeError) as Hcommon.
  { unfold parseScenariosString. cbn [default ParseOptions.includeCommon].
    rewrite Haction, Hscenarios, Hmap, Hsteps. reflexivity. }
  split; [| split].
  - exists rest. unfold parseScenariosString. cbn [default ParseOptions.includeCommon].
    rewrite Haction, Hscenarios, Hmap. reflexivity.
  - exact Hcommon.
  - intros readFileSync resolve dirname cwd scenariosPath callerDir Hread.
    unfold runScenarios, parseScenarios.
    cbn [RunOptions.scenarios RunOptions.includeCommon RunOptions.callerDir default].
    rewrite Hread, Hcommon. reflexivity.
Qed.

Lemma empty_steps_TypeError_witness :
  let yaml_load := fun _ : string =>
    Doc.mk (Some (Action.mk None None)) (Some [scenario_without_steps]) in
  (exists rest,
      parseScenariosString yaml_load "text" None
      = Ok (Parsed.mk (Action.mk None None) (scenario_without_steps :: rest) None))
  /\ parseScenariosString yaml_load "text" (Some (ParseOptions.mk (Some true)))
     = Throw TypeError
  /\ runScenarios yaml_load (fun _ => Ok "text") (fun base path => path)
       (fun path => path) "/" (RunOptions.mk "scenarios.yaml" None None)
     = Throw TypeError.
Proof.
  intros yaml_load.
  destruct (empty_steps_TypeError yaml_load "text" (Action.mk None None)
              scenario_without_steps [] eq_refl eq_refl
              ltac:(constructor; [reflexivity | constructor]) eq_refl)
    as (Huser & Hcommon & Hrun).
  split; [exact Huser |]. split; [exact Hcommon |].
  apply Hrun. reflexivity.
Defined.

(** ** parse-scenarios.mjs: the common scenarios need no file *)

Lemma COMMON_SCENARIOS_shape (c : CommonScenario.t) (templateRequest : Request.t) :
  In c COMMON_SCENARIOS ->
  exists step,
    Generated.steps (CommonScenario.generate c templateRequest) = [step]
    /\ Step.request step = method_and_url templateRequest
    /\ Step.fixture step = None
    /\ (Step.networkError step = true /\ Step.fixtureData step = None
        \/ Step.networkError step = false
           /\ exists f, Step.fixtureData step = Some f
                        /\ 400 <= Fixture.statusCode f < 600).
Proof.
  unfold COMMON_SCENARIOS. cbn [In].
  intros [<- | [<- | [<- | [<- | [<- | [<- | [<- | [<- | []]]]]]]]];
    cbn; (eexists; split; [reflexivity |]);
    (split; [reflexivity |]); (split; [reflexivity |]);
    solve [ left; split; reflexivity
          | right; split; [reflexivity |]; eexists; split; [reflexivity | cbn; lia] ].
Qed.

(** X13.  Each scenario synthesized from a template is complete in
    itself: it has one step, for the method and the URL of the template
    request and without its header constraint; the step names no
    fixture file and carries either a fixture with a status code from
    400 to 599 or the network-error flag, so that resolving it reads no
    file and returns it unchanged; when the template request has an
    absolute URL, a supported verb and an origin that nock builds a
    scope for, the step is installed as one interceptor, which is given
    no header constraint; and when the verb is supported and nock
    refuses the origin, the installation throws what [nock(origin)]
    throws and registers nothing. *)
Theorem common_scenarios_self_contained (c : CommonScenario.t)
    (templateRequest : Request.t) :
  In c COMMON_SCENARIOS ->
  exists step,
    Scenario.steps (common_scenario c templateRequest) = Some [step]
    /\ Step.request step = method_and_url templateRequest
    /\ Step.fixture step = None
    /\ (Step.networkError step = true /\ Step.fixtureData step = None
        \/ Step.networkError step = false
           /\ exists f, Step.fixtureData step = Some f
                        /\ 400 <= Fixture.statusCode f < 600)
    /\ (forall isAbsolute resolve readFileSync scenariosDir,
           resolveStepFixtures isAbsolute resolve readFileSync [step] scenariosDir
           = Ok [step])
    /\ (forall URL nock active,
           addressable URL nock (Step.mk templateRequest None None false) = true ->
           exists scope,
             setupNock URL nock [step] active = (Ok [scope], active ++ [scope])
             /\ Interceptor.reqheaders scope = None)
    /\ (forall URL nock active url e,
           URL (Request.url templateRequest) = Some url ->
           supported_verb (Request.method templateRequest) = true ->
           nock (Url.origin url) = Throw e ->
           setupNock URL nock [step] active = (Throw e, active)).
Proof.
  intros Hin.
  destruct (COMMON_SCENARIOS_shape c templateRequest Hin)
    as (step & Hsteps & Hreq & Hfix & Hdata).
  assert (resolved step = true) as Hres.
  { unfold resolved. destruct Hdata as [[-> _] | (_ & f & -> & _)]; [reflexivity |].
    apply orb_true_iff. right. apply bool_decide_eq_true. eauto. }
  exists step. unfold common_scenario. cbn [Scenario.steps]. rewrite Hsteps.
  repeat (split; [solve [auto] |]). split; [| split].
  - intros isAbsolute resolve readFileSync scenariosDir.
    cbn [resolveStepFixtures]. rewrite resolveStep_resolved by exact Hres. reflexivity.
  - intros URL nock active Haddr.
    assert (installable URL nock step = true) as Hinst.
    { unfold installable. unfold addressable, absolute_url, scope_built in Haddr.
      unfold absolute_url, scope_built. rewrite Hreq. cbn in Haddr |- *.
      rewrite Haddr, Hres. reflexivity. }
    destruct (setupStep_ok URL nock step Hinst) as [scope Hscope].
    exists scope. unfold setupNock. cbn [setupLoop app]. rewrite Hscope.
    split; [reflexivity |].
    destruct (setupStep_Ok_inv URL nock step scope Hscope)
      as (_ & _ & _ & _ & _ & -> & _).
    rewrite Hreq. reflexivity.
  - intros URL nock active url e Hurl Hverb Hnock.
    unfold setupNock. cbn [setupLoop].
    rewrite (setupStep_refused URL nock step url e); [reflexivity | | | exact Hnock];
      rewrite Hreq; assumption.
Qed.

(** The template for the status 429, instantiated with a request that
    constrains the headers. *)
Lemma common_scenarios_self_contained_witness :
  let c :=
    CommonScenario.mk "handles 429 rate limit"
      (generate_status 429 (<["Retry-After" := "30"]> json_headers)
         (qq "{'error':'Too Many Requests','message':'Rate limit exceeded'}")) in
  let templateRequest :=
    Request.mk "post" "https://example.com/users"
      (Some {[ "Authorization" := "Bearer t" ]}) in
  exists step,
    Scenario.steps (common_scenario c templateRequest) = Some [step]
    /\ Step.request step = method_and_url templateRequest
    /\ Step.fixture step = None
    /\ (Step.networkError step = true /\ Step.fixtureData step = None
        \/ Step.networkError step = false
           /\ exists f, Step.fixtureData step = Some f
                        /\ 400 <= Fixture.statusCode f < 600)
    /\ (forall isAbsolute resolve readFileSync scenariosDir,
           resolveStepFixtures isAbsolute resolve readFileSync [step] scenariosDir
           = Ok [step])
    /\ (forall URL nock active,
           addressable URL nock (Step.mk templateRequest None None false) = true ->
           exists scope,
             setupNock URL nock [step] active = (Ok [scope], active ++ [scope])
             /\ Interceptor.reqheaders scope = None)
    /\ (forall URL nock active url e,
           URL (Request.url templateRequest) = Some url ->
           supported_verb (Request.method templateRequest) = true ->
           nock (Url.origin url) = Throw e ->
           setupNock URL nock [step] active = (Throw e, active)).
Proof.
  intros c templateRequest. apply (common_scenarios_self_contained c templateRequest).
  right. right. left. reflexivity.
Defined.

(** ** index.mjs: how many tests are registered *)

Lemma filter_split_length {A} (p : A -> bool) (l : list A) :
  length (List.filter (fun x => negb (p x)) l) + length (List.filter p l) = length l.
Proof.
  induction l as [| x l IH]; [reflexivity |].
  cbn. destruct (p x); cbn; lia.
Qed.

(** X14.  With the options left at their defaults, [runScenarios]
    registers one test for each user-defined scenario, in the order of
    the file, and after them one test for each of the eight templates
    that no user-defined scenario overrides by name: the number of
    tests is the number of user-defined scenarios plus eight minus the
    number of templates overridden, and it is the number the title of
    the block gives. *)
Theorem runScenarios_count (yaml_load : string -> Doc.t)
    (readFileSync : string -> result string) (resolve : string -> string -> string)
    (dirname : string -> string) (cwd scenariosPath yamlString : string)
    (callerDir : option string) (action : Action.t)
    (first : Scenario.t) (others : list Scenario.t) (templateRequest : Request.t) :
  readFileSync (resolve (baseDir_of cwd callerDir) scenariosPath) = Ok yamlString ->
  Doc.action (yaml_load yamlString) = Some action ->
  Doc.scenarios (yaml_load yamlString) = Some (first :: others) ->
  Forall (fun s => scenario_ok s = true) (first :: others) ->
  first_step_request first = Some templateRequest ->
  exists suite userScenarios,
    runScenarios yaml_load readFileSync resolve dirname cwd
      (RunOptions.mk scenariosPath None callerDir) = Ok suite
    /\ Suite.tests suite = userScenarios ++ synthesized userScenarios templateRequest
    /\ map Scenario.name userScenarios = map Scenario.name (first :: others)
    /\ length (Suite.tests suite) + length (overridden_templates (first :: others))
       = length (first :: others) + 8
    /\ Suite.title suite
       = "scenarios: " +:+ string_of_nat (length (Suite.tests suite)) +:+ " defined"
    /\ Suite.scenariosDir suite
       = dirname (resolve (baseDir_of cwd callerDir) scenariosPath).
Proof.
  intros Hread Haction Hscenarios Hok Hfirst.
  destruct (map_scenarios_ok (first :: others) 0 Hok) as (userScenarios & Hmap & Hall).
  pose proof (normalised_names _ _ Hall) as Hnames.
  assert (parseScenariosString yaml_load yamlString (Some (ParseOptions.mk (Some true)))
          = Ok (Parsed.mk action
                  (userScenarios ++ synthesized userScenarios templateRequest) None))
    as Hparse.
  { unfold parseScenariosString. cbn [default ParseOptions.includeCommon].
    rewrite Haction, Hscenarios, Hmap.
    apply Forall2_cons_inv_l in Hall as (n & rest & Hn & _ & ->).
    apply Forall_cons_1 in Hok as [Hok1 _].
    destruct (normaliseScenario_ok first Hok1) as (n' & Hn' & _ & Hstep).
    rewrite Hn in Hn'. injection Hn' as <-.
    destruct (Hstep templateRequest Hfirst) as (step & steps & -> & ->).
    rewrite fold_push_common, filter_userNames. reflexivity. }
  eexists _, userScenarios. unfold runScenarios, parseScenarios.
  cbn [RunOptions.scenarios RunOptions.includeCommon RunOptions.callerDir default].
  rewrite Hread, Hparse. cbn [Parsed.scenarios Parsed.action].
  split; [reflexivity |]. cbn [Suite.tests Suite.title Suite.scenariosDir].
  split; [reflexivity |]. split; [exact Hnames |]. split; [| split; reflexivity].
  rewrite length_app. unfold synthesized, overridden_templates. rewrite length_map.
  assert (length userScenarios = length (first :: others)) as ->
      by (rewrite <- (length_map Scenario.name), Hnames, length_map; reflexivity).
  assert (List.filter (fun c => negb (overridden_by userScenarios c)) COMMON_SCENARIOS
          = List.filter (fun c => negb (overridden_by (first :: others) c))
              COMMON_SCENARIOS) as ->.
  { unfold overridden_by. rewrite Hnames. reflexivity. }
  pose proof (filter_split_length (overridden_by (first :: others)) COMMON_SCENARIOS)
    as Hsplit.
  change (length COMMON_SCENARIOS) with 8 in Hsplit. lia.
Qed.

(** The file that overrides the template for 401 gets nine tests: its
    own two and seven of the templates. *)
Lemma runScenarios_count_witness :
  suite_count
    (runScenarios (fun _ => doc_overriding_401) (fun _ => Ok "text")
       (fun base path => path) (fun path => path) "/"
       (RunOptions.mk "scenarios.yaml" None None))
  = Some 9.
Proof.
  destruct (runScenarios_count (fun _ => doc_overriding_401) (fun _ => Ok "text")
              (fun base path => path) (fun path => path) "/" "scenarios.yaml" "text"
              None (Action.mk None None) (sample_scenario "handles 401 unauthorized")
              [sample_scenario "basic test"] sample_request eq_refl eq_refl eq_refl
              ltac:(repeat constructor) eq_refl)
    as (suite & userScenarios & -> & _ & _ & Hcount & _).
  cbn [suite_count]. f_equal.
  change (length (overridden_templates
                    [sample_scenario "handles 401 unauthorized";
                     sample_scenario "basic test"])) with 1 in Hcount.
  cbn [length] in Hcount. lia.
Defined.

(** ** index.mjs: mergeDefaults, continued *)

Lemma spread2_absorb {A} (a b : gmap string A) : spread2 (spread2 a b) b = spread2 a b.
Proof.
  unfold spread2. rewrite (assoc_L (∪)), (idemp_L (∪)). reflexivity.
Qed.

(** X15.  Merging is idempotent: merging the scenario again over what
    a merge gave changes nothing.  The keys of the merged [params] are
    those of the action together with those of the scenario, so that a
    scenario can replace an action-level value and cannot remove one.
    A key of the context other than [secrets] and [environment] holds
    the scenario-level value when the scenario context has the key and
    the action-level value otherwise. *)
Theorem mergeDefaults_absorbs (action : Action.t) (scenario : Scenario.t) :
  let merged := mergeDefaults action scenario in
  mergeDefaults
    (Action.mk (Some (Merged.params merged)) (Some (Merged.context merged))) scenario
  = merged
  /\ dom (Merged.params merged)
     = dom (default ∅ (Action.params action)) ∪ dom (default ∅ (Scenario.params scenario))
  /\ (forall k,
         Context.rest (Merged.context merged) !! k
         = match Context.rest (context_or_empty (Scenario.context scenario)) !! k with
           | Some v => Some v
           | None => Context.rest (context_or_empty (Action.context action)) !! k
           end).
Proof.
  cbv zeta. unfold mergeDefaults, context_or_empty.
  cbn [Merged.params Merged.context Action.params Action.context default from_option id
       Context.secrets Context.environment Context.rest].
  split; [| split].
  - rewrite !spread2_absorb. reflexivity.
  - unfold spread2. rewrite dom_union_L. apply (comm_L (∪)).
  - intros k. apply spread2_lookup.
Qed.

(** ** setup-nock.mjs: what an installation leaves registered *)

Lemma setupLoop_trace (URL : string -> option Url.t)
    (nock : string -> result unit) (steps : list Step.t)
    (scopes active : list Interceptor.t) :
  exists installed,
    (setupLoop URL nock steps scopes active).2 = active ++ installed
    /\ Forall2 (fun step scope => setupStep URL nock step = Ok scope)
         (take (length installed) steps) installed
    /\ match (setupLoop URL nock steps scopes active).1 with
       | Ok result => result = scopes ++ installed /\ length installed = length steps
       | Throw e =>
           exists step,
             steps !! length installed = Some step /\ setupStep URL nock step = Throw e
       end.
Proof.
  revert scopes active. induction steps as [| step steps IH]; intros scopes active.
  - exists []. cbn. rewrite !app_nil_r. repeat split. constructor.
  - cbn [setupLoop]. destruct (setupStep URL nock step) as [scope |] eqn:Hstep.
    + destruct (IH (scopes ++ [scope]) (active ++ [scope]))
        as (installed & Hactive & Hall & Hres).
      exists (scope :: installed). rewrite Hactive, <- app_assoc.
      split; [reflexivity |]. split; [cbn; constructor; assumption |].
      destruct (setupLoop URL nock steps (scopes ++ [scope]) (active ++ [scope])).1.
      * destruct Hres as [-> Hlen]. rewrite <- app_assoc. cbn. auto.
      * exact Hres.
    + exists []. cbn. rewrite app_nil_r. repeat split; [constructor |]. eauto.
Qed.

Lemma setupNock_trace_failure (URL : string -> option Url.t)
    (nock : string -> result unit) (steps : list Step.t)
    (active : list Interceptor.t) (e : exn) (active' : list Interceptor.t) :
  setupNock URL nock steps active = (Throw e, active') ->
  exists installed,
    active' = active ++ installed /\ length installed < length steps.
Proof.
  unfold setupNock. intros Hrun.
  destruct (setupLoop_trace URL nock steps [] active) as (installed & Hactive & _ & Hres).
  rewrite Hrun in Hactive, Hres. cbn [fst snd] in Hactive, Hres.
  destruct Hres as (step & Hstep & _).
  exists installed. split; [exact Hactive |].
  eapply lookup_lt_Some, Hstep.
Qed.

Lemma setupNock_only_appends_Ok (URL : string -> option Url.t)
    (nock : string -> result unit) (steps : list Step.t)
    (active scopes active' : list Interceptor.t) :
  setupNock URL nock steps active = (Ok scopes, active') ->
  active' = active ++ scopes /\ length scopes = length steps.
Proof.
  unfold setupNock. intros Hrun.
  destruct (setupLoop_trace URL nock steps [] active) as (installed & Hactive & _ & Hres).
  rewrite Hrun in Hactive, Hres. cbn [fst snd app] in Hactive, Hres.
  destruct Hres as [-> Hlen]. auto.
Qed.

(** X16.  Whatever the steps are, [setupNock] leaves registered what
    was registered before, followed by the interceptors of an initial
    run of the steps, one for each and in step order.  When it returns,
    the run is the whole list and what it returns is exactly what it
    registered; when it throws, the run ends before the step that
    caused the throw, an unparsable URL and an origin that nock refuses
    included, and the interceptors of the run stay registered. *)
Theorem setupNock_only_appends (URL : string -> option Url.t)
    (nock : string -> result unit) (steps : list Step.t)
    (active : list Interceptor.t) :
  exists installed,
    (setupNock URL nock steps active).2 = active ++ installed
    /\ Forall2 (fun step scope => setupStep URL nock step = Ok scope)
         (take (length installed) steps) installed
    /\ match (setupNock URL nock steps active).1 with
       | Ok scopes => scopes = installed /\ length installed = length steps
       | Throw e =>
           exists step,
             steps !! length installed = Some step /\ setupStep URL nock step = Throw e
       end.
Proof.
  unfold setupNock.
  destruct (setupLoop_trace URL nock steps [] active)
    as (installed & Hactive & Hall & Hres).
  exists installed. split; [exact Hactive |]. split; [exact Hall |]. exact Hres.
Qed.

(** ** setup-nock.mjs: the verb *)

Lemma METHOD_MAP_inv (verb method : string) :
  METHOD_MAP !! verb = Some method ->
  toUpperCase method = Some verb /\ method ∈ NOCK_METHODS.
Proof.
  unfold METHOD_MAP, NOCK_METHODS. rewrite !list_elem_of_In.
  repeat (rewrite lookup_insert; case_decide;
          [intros [= <-]; subst verb; split; [reflexivity | cbn; tauto] |]).
  rewrite lookup_singleton. case_decide; [| discriminate].
  intros [= <-]. subst verb. split; [reflexivity | cbn; tauto].
Qed.

(** X17.  The verb of a request is matched without regard to case.
    The interceptor installed for a step uses one of the seven
    lower-case method names of nock, the one that agrees with the
    request's verb up to case; and the same step with its verb written
    in any other mix of cases yields the same interceptor. *)
Theorem interceptor_verb (URL : string -> option Url.t) (nock : string -> result unit)
    (step : Step.t) (scope : Interceptor.t) :
  setupStep URL nock step = Ok scope ->
  Interceptor.method scope ∈ NOCK_METHODS
  /\ toUpperCase (Interceptor.method scope)
     = toUpperCase (Request.method (Step.request step))
  /\ (forall method,
         toUpperCase method = toUpperCase (Request.method (Step.request step)) ->
         setupStep URL nock (with_method method step) = Ok scope).
Proof.
  intros Hrun.
  destruct (setupStep_Ok_inv URL nock step scope Hrun) as (url & Hurl & _ & _ & Hm & _).
  assert (exists upper,
             toUpperCase (Request.method (Step.request step)) = Some upper
             /\ METHOD_MAP !! upper = Some (Interceptor.method scope))
    as (upper & Hup & Hmap).
  { unfold lookup_method in Hm.
    destruct (toUpperCase (Request.method (Step.request step))) as [upper |];
      [eauto | discriminate Hm]. }
  destruct (METHOD_MAP_inv _ _ Hmap) as [Hupper Hin].
  split; [exact Hin |]. split; [congruence |].
  intros method Hsame. unfold setupStep, with_method, lookup_method in *.
  cbn [Step.request Request.url Request.method Request.headers Step.networkError
       Step.fixtureData].
  rewrite Hsame. rewrite Hurl, Hup, Hmap in Hrun |- *.
  destruct (nock (Url.origin url)); [| discriminate Hrun].
  destruct (Step.networkError step); [exact Hrun |].
  destruct (Step.fixtureData step); [exact Hrun | discriminate Hrun].
Qed.

(** The sample step has the verb [post]; written [PoSt] it yields the
    same interceptor, whose method is [post]. *)
Lemma interceptor_verb_witness :
  let scope :=
    Interceptor.mk "https://example.com" "post" "/users" None (Reply 200 "{}" ∅) in
  Interceptor.method scope ∈ NOCK_METHODS
  /\ toUpperCase (Interceptor.method scope)
     = toUpperCase (Request.method (Step.request lowercase_step))
  /\ setupStep sample_URL sample_nock (with_method "PoSt" lowercase_step) = Ok scope.
Proof.
  intros scope.
  destruct (interceptor_verb sample_URL sample_nock lowercase_step scope eq_refl)
    as (Hin & Hupper & Hsame).
  split; [exact Hin |]. split; [exact Hupper |]. apply Hsame. reflexivity.
Defined.
(** ** assertions.mjs: the verdict of a scenario *)

Section Verdicts.
Context {W : Type}.
Variable JSON_stringify : value -> string.
Variable inherited : value -> string -> value.




Lemma call_handler_outcome (cap : capability) (h : handler W)
    (params : gmap string value) (context : Context.t) (st : state W) :
  (call_handler cap h params context st).1 = (h params context (world st)).1
  /\ world (call_handler cap h params context st).2 = (h params context (world st)).2.
Proof.
  unfold call_handler. destruct (h params context (world st)). split; reflexivity.
Qed.


End Verdicts.



(** A script that rejects without a reason does not pass a scenario
    that expects any throw at all. *)
Lemma rejection_without_reason_fails :
  let script : Script.t unit := Script.mk (fun _ _ w => (Rejected VUndefined, w)) None in
  let scenario :=
    Scenario.mk (Some "throws") (Some []) None None None None
      (Some (Expectation.mk VUndefined (Some EmptyString))) None false in
  runScenarioHandlers (fun _ => EmptyString) sample_inherited script ∅ Context.empty
    scenario (mkState tt [])
  = (Throw (Error "Expected invoke to throw, but it returned successfully"),
     mkState tt [mkCall InvokeCapability ∅ Context.empty]).
Proof. reflexivity. Qed.

(** ** assertions.mjs: which capabilities a scenario calls *)

Lemma runScenarioHandlers_log {W : Type} (JSON_stringify : value -> string)
    (inherited : value -> string -> value)
    (script : Script.t W) (params : gmap string value) (context : Context.t)
    (scenario : Scenario.t) (st : state W) :
  calls (runScenarioHandlers JSON_stringify inherited script params context scenario st).2
  = calls st
    ++ match Scenario.invoke scenario with
       | None => []
       | Some invokeExpect =>
           if truthy (Expectation.returns invokeExpect) then [invoke_call params context]
           else
             match Expectation.throws invokeExpect with
             | None => []
             | Some invokeThrows =>
                 invoke_call params context
                 :: match (assertInvokeThrows inherited
                             (call_handler InvokeCapability (Script.invoke script)
                                params context) invokeThrows st).1 with
                    | Throw _ => []
                    | Ok caught =>
                        if error_phase_runs script scenario
                        then [error_call params context caught]
                        else []
                    end
             end
       end.
Proof.
  destruct (Scenario.invoke scenario) as [invokeExpect |] eqn:Hinvoke;
    [| unfold runScenarioHandlers; rewrite Hinvoke; cbn; rewrite app_nil_r; reflexivity].
  destruct (truthy (Expectation.returns invokeExpect)) eqn:Hret.
  - unfold runScenarioHandlers. rewrite Hinvoke, Hret.
    rewrite bind_ret_state. unfold assertInvokeReturns.
    rewrite assertReturns_state, call_handler_calls. reflexivity.
  - destruct (Expectation.throws invokeExpect) as [invokeThrows |] eqn:Hthrows;
      [| unfold runScenarioHandlers; rewrite Hinvoke, Hret, Hthrows; cbn;
         rewrite app_nil_r; reflexivity].
    unfold assertInvokeThrows.
    destruct (assertThrows inherited "invoke"
                (call_handler InvokeCapability (Script.invoke script) params context)
                invokeThrows st) as [[caught | e] st1] eqn:Hphase1; cbn [fst].
    + pose proof Hphase1 as [Hcall Hacc]%assertThrows_Ok_inv.
      destruct (Script.invoke script params context (world st)) as [outcome w] eqn:Hrun.
      rewrite (call_handler_run InvokeCapability _ _ _ _ _ _ Hrun) in Hcall.
      injection Hcall as -> _.
      rewrite (runScenarioHandlers_throws_calls JSON_stringify inherited script params
                 context scenario invokeExpect invokeThrows caught w st
                 Hinvoke Hret Hthrows Hrun Hacc).
      destruct (error_phase_runs script scenario); reflexivity.
    + pose proof (assertThrows_state inherited "invoke"
                    (call_handler InvokeCapability (Script.invoke script) params context)
                    invokeThrows st) as Hstate.
      rewrite Hphase1 in Hstate. cbn [snd] in Hstate.
      unfold runScenarioHandlers. rewrite Hinvoke, Hret, Hthrows.
      unfold bind at 1. unfold assertInvokeThrows. rewrite Hphase1. cbn [snd].
      rewrite Hstate, call_handler_calls. reflexivity.
Qed.



(** ** assertions.mjs: numbers *)

(** X20.  Expected numbers are compared as the language compares them:
    an expected NaN is strictly equal to no value, so that an
    expectation with NaN under some key is met by no result, and the
    assertion fails whatever the capability resolves to; and the two
    zeros are strictly equal, so that an expected 0 is met by -0. *)
Theorem NaN_never_matches {W : Type} (JSON_stringify : value -> string)
    (inherited : value -> string -> value)
    (what : string) (fn : thunk W) (expected : value)
    (entries : list (string * value)) (key : string) (st : state W) :
  Object_entries expected = Some entries ->
  In (key, VNumber S754_nan) entries ->
  is_Ok (assertReturns JSON_stringify inherited what fn expected st).1 = false
  /\ (forall result, all_match inherited result entries = false)
  /\ strict_eq (VNumber (S754_zero true)) (VNumber (S754_zero false)) = true.
Proof.
  intros Hentries Hin.
  assert (forall result, all_match inherited result entries = false) as Hnever.
  { intros result. unfold all_match.
    destruct (forallb (entry_matches inherited result) entries) eqn:Hall; [| reflexivity].
    rewrite forallb_forall in Hall. specialize (Hall _ Hin).
    unfold entry_matches in Hall. cbn [fst snd] in Hall.
    destruct (read_prop inherited result key) as [actual | e];
      [| discriminate Hall].
    destruct actual as [| | | x | |]; try discriminate Hall.
    destruct x; discriminate Hall. }
  split; [| split; [exact Hnever | reflexivity]].
  destruct (fn st) as [[result | e] st'] eqn:Hfn.
  - rewrite (assertReturns_resolved _ _ _ _ _ entries _ _ _ Hentries Hfn).
    destruct (assertEntries JSON_stringify inherited what result entries st')
      as [[u | e] st'']
      eqn:Hloop; [| reflexivity].
    apply assertEntries_ok_inv in Hloop. rewrite Hnever in Hloop. discriminate Hloop.
  - rewrite (assertReturns_rejected _ _ _ _ _ _ _ _ Hfn). reflexivity.
Qed.

(** A result that itself holds NaN under the key does not meet the
    expectation. *)
Lemma NaN_never_matches_witness :
  let fn : thunk unit := fun st =>
    (Resolved (VObject 4 [("ratio", VNumber S754_nan)]), st) in
  is_Ok (assertReturns (fun _ => "null") sample_inherited "invoke" fn
           (VObject 1 [("ratio", VNumber S754_nan)]) (mkState tt [])).1 = false.
Proof.
  intros fn.
  apply (NaN_never_matches (fun _ => "null") sample_inherited "invoke" fn
           (VObject 1 [("ratio", VNumber S754_nan)]) [("ratio", VNumber S754_nan)]
           "ratio" (mkState tt []) eq_refl).
  left. reflexivity.
Defined.

(** ** index.mjs: the body of a test *)

Section TestFacts.
Context {W C : Type}.
Variable JSON_stringify : value -> string.
Variable inherited : value -> string -> value.
Variable URL : string -> option Url.t.
Variable nock : string -> result unit.
Variable isAbsolute : string -> bool.
Variable resolve : string -> string -> string.
Variable readFileSync : string -> result string.
Variable scope_done : Env.t W C -> Interceptor.t -> result unit.
Variable muted : C.

Lemma verifyScopes_Ok (scopes : list Interceptor.t) (env : Env.t W C) :
  verifyScopes scope_done scopes env = Ok tt
  <-> Forall (fun scope => scope_done env scope = Ok tt) scopes.
Proof.
  induction scopes as [| scope scopes IH]; cbn.
  - split; [constructor | reflexivity].
  - destruct (scope_done env scope) as [[] | e] eqn:Hdone.
    + rewrite IH. split; [intros H; constructor; assumption |].
      intros H. apply Forall_cons_1 in H as [_ H]. exact H.
    + split; [discriminate |]. intros H. apply Forall_cons_1 in H as [H _].
      rewrite Hdone in H. discriminate H.
Qed.

Lemma verifyScopes_first (pre post : list Interceptor.t) (scope : Interceptor.t)
    (env : Env.t W C) (e : exn) :
  Forall (fun scope => scope_done env scope = Ok tt) pre ->
  scope_done env scope = Throw e ->
  verifyScopes scope_done (pre ++ scope :: post) env = Throw e.
Proof.
  intros Hpre Hscope. induction Hpre as [| s pre Hs _ IH]; cbn.
  - rewrite Hscope. reflexivity.
  - rewrite Hs. exact IH.
Qed.

Lemma runTest_run (script : Script.t (Env.t W C)) (action : Action.t)
    (scenario : Scenario.t) (scenariosDir : string) (st : state (Env.t W C))
    (steps resolvedSteps : list Step.t) (scopes active : list Interceptor.t) :
  Scenario.steps scenario = Some steps ->
  resolveStepFixtures isAbsolute resolve readFileSync steps scenariosDir
  = Ok resolvedSteps ->
  setupNock URL nock resolvedSteps (Env.active (world st)) = (Ok scopes, active) ->
  let merged := mergeDefaults action scenario in
  let handlers :=
    runScenarioHandlers JSON_stringify inherited script (Merged.params merged)
      (Merged.context merged) scenario (handlers_state muted active st) in
  runTest JSON_stringify inherited URL nock isAbsolute resolve readFileSync
    scope_done muted script action scenario scenariosDir st
  = (match handlers.1 with
     | Throw e => Throw e
     | Ok _ => verifyScopes scope_done scopes (world handlers.2)
     end,
     mkState
       (Env.mk (Env.world (world handlers.2)) (Env.active (world handlers.2))
          (Env.netConnect (world handlers.2)) (Env.console (world st)))
       (calls handlers.2)).
Proof.
  intros Hsteps Hresolve Hsetup merged handlers. subst handlers merged.
  unfold runTest, handlers_state. rewrite Hsteps, Hresolve. cbn [Env.active].
  rewrite Hsetup. cbn [Env.world Env.console].
  destruct (runScenarioHandlers _ _ _ _ _ _) as [outcome st']. reflexivity.
Qed.

End TestFacts.

(** X21.  Whatever a test does and however it ends, the console it
    leaves is the console it found, even when the script replaced it
    during the run, and the call log only grew; and after the
    [afterEach] hook no interceptor is registered and real connections
    are allowed again, while the world of the script, the call log and
    the console stay as the test left them. *)
Theorem test_isolation {W C : Type} (JSON_stringify : value -> string)
    (inherited : value -> string -> value)
    (URL : string -> option Url.t)
    (nock : string -> result unit) (isAbsolute : string -> bool)
    (resolve : string -> string -> string) (readFileSync : string -> result string)
    (scope_done : Env.t W C -> Interceptor.t -> result unit) (muted : C)
    (script : Script.t (Env.t W C)) (action : Action.t) (scenario : Scenario.t)
    (scenariosDir : string) (st : state (Env.t W C)) :
  let after :=
    (runTest JSON_stringify inherited URL nock isAbsolute resolve readFileSync
       scope_done muted script action scenario scenariosDir st).2 in
  Env.console (world after) = Env.console (world st)
  /\ (exists log, calls after = calls st ++ log)
  /\ Env.active (world (afterEach after)) = []
  /\ Env.netConnect (world (afterEach after)) = true
  /\ Env.console (world (afterEach after)) = Env.console (world st)
  /\ Env.world (world (afterEach after)) = Env.world (world after)
  /\ calls (afterEach after) = calls after.
Proof.
  intros after.
  assert (Env.console (world after) = Env.console (world st)
          /\ exists log, calls after = calls st ++ log) as [Hconsole Hlog].
  { subst after. unfold runTest.
    destruct (Scenario.steps scenario) as [steps |];
      [| split; [reflexivity | exists []; rewrite app_nil_r; reflexivity]].
    destruct (resolveStepFixtures _ _ _ steps scenariosDir) as [resolvedSteps |];
      [| split; [reflexivity | exists []; rewrite app_nil_r; reflexivity]].
    cbn [Env.active Env.world Env.console].
    destruct (setupNock URL nock resolvedSteps (Env.active (world st)))
      as [[scopes | e] active];
      [| split; [reflexivity | exists []; cbn; rewrite app_nil_r; reflexivity]].
    pose proof (runScenarioHandlers_log JSON_stringify inherited script
                  (Merged.params (mergeDefaults action scenario))
                  (Merged.context (mergeDefaults action scenario)) scenario
                  {| world := Env.mk (Env.world (world st)) active false muted;
                     calls := calls st |}) as Hcalls.
    destruct (runScenarioHandlers _ _ _ _ _ _) as [outcome st'].
    cbn [snd world calls Env.console] in *. split; [reflexivity | eauto]. }
  unfold afterEach. cbn. auto 10.
Qed.

(** X22.  The script is called only once the fixtures are resolved and
    the interceptors installed: a scenario without steps, a step that
    cannot be resolved and a step that cannot be installed each make
    the test fail with the error of that stage, with no capability
    called, the world of the script untouched and the console never
    muted.  A failed installation has already blocked real connections
    and leaves the interceptors of the earlier steps registered. *)
Theorem setup_failure_skips_script {W C : Type} (JSON_stringify : value -> string)
    (inherited : value -> string -> value)
    (URL : string -> option Url.t)
    (nock : string -> result unit) (isAbsolute : string -> bool)
    (resolve : string -> string -> string) (readFileSync : string -> result string)
    (scope_done : Env.t W C -> Interceptor.t -> result unit) (muted : C)
    (script : Script.t (Env.t W C)) (action : Action.t) (scenario : Scenario.t)
    (scenariosDir : string) (st : state (Env.t W C)) :
  let run :=
    runTest JSON_stringify inherited URL nock isAbsolute resolve readFileSync
      scope_done muted script action scenario scenariosDir st in
  (Scenario.steps scenario = None -> run = (Throw TypeError, st))
  /\ (forall steps e,
         Scenario.steps scenario = Some steps ->
         resolveStepFixtures isAbsolute resolve readFileSync steps scenariosDir = Throw e ->
         run = (Throw e, st))
  /\ (forall steps resolvedSteps e active,
         Scenario.steps scenario = Some steps ->
         resolveStepFixtures isAbsolute resolve readFileSync steps scenariosDir
         = Ok resolvedSteps ->
         setupNock URL nock resolvedSteps (Env.active (world st)) = (Throw e, active) ->
         run.1 = Throw e
         /\ calls run.2 = calls st
         /\ Env.world (world run.2) = Env.world (world st)
         /\ Env.console (world run.2) = Env.console (world st)
         /\ Env.netConnect (world run.2) = false
         /\ Env.active (world run.2) = active
         /\ exists installed,
              active = Env.active (world st) ++ installed
              /\ length installed < length steps).
Proof.
  intros run. subst run. unfold runTest. split; [| split].
  - intros ->. reflexivity.
  - intros steps e -> ->. reflexivity.
  - intros steps resolvedSteps e active -> Hresolve Hsetup.
    rewrite Hresolve. cbn [Env.active Env.world Env.console]. rewrite Hsetup.
    cbn. repeat (split; [reflexivity |]).
    destruct (setupNock_trace_failure URL nock resolvedSteps (Env.active (world st)) e
                active Hsetup) as (installed & -> & Hlen).
    exists installed. split; [reflexivity |].
    apply resolveStepFixtures_Forall2, Forall2_length in Hresolve. lia.
Qed.

(** The fixture file of the scenario is not there: the test fails with
    the error of the reading and leaves the state as it found it. *)
Lemma setup_failure_skips_script_witness :
  runTest (fun _ => EmptyString) sample_inherited sample_URL sample_nock
    sample_isAbsolute sample_resolve sample_readFileSync sample_scope_done false
    quiet_script (Action.mk None None) missing_fixture_scenario "/t" fresh_state
  = (Throw (Error "ENOENT: no such file or directory, open '/t/404.http'"), fresh_state).
Proof.
  pose proof (setup_failure_skips_script (fun _ => EmptyString) sample_inherited
                sample_URL sample_nock
                sample_isAbsolute sample_resolve sample_readFileSync sample_scope_done
                false quiet_script (Action.mk None None) missing_fixture_scenario "/t"
                fresh_state) as (_ & Hresolve & _).
  eapply Hresolve; reflexivity.
Defined.

(** X23.  Once the fixtures are resolved and the interceptors
    installed, the handlers run with real connections blocked and the
    console muted, on top of the interceptors just installed.  If they
    throw, the test fails with what they threw, and the interceptors
    are not verified.  If they return, the interceptors are verified in
    step order, as the handlers left them, and the first that was not
    used fails the test.  So the test passes exactly when the handlers
    return and every interceptor of the scenario was used. *)
Theorem test_verdict {W C : Type} (JSON_stringify : value -> string)
    (inherited : value -> string -> value)
    (URL : string -> option Url.t)
    (nock : string -> result unit) (isAbsolute : string -> bool)
    (resolve : string -> string -> string) (readFileSync : string -> result string)
    (scope_done : Env.t W C -> Interceptor.t -> result unit) (muted : C)
    (script : Script.t (Env.t W C)) (action : Action.t) (scenario : Scenario.t)
    (scenariosDir : string) (st : state (Env.t W C))
    (steps resolvedSteps : list Step.t) (scopes active : list Interceptor.t) :
  Scenario.steps scenario = Some steps ->
  resolveStepFixtures isAbsolute resolve readFileSync steps scenariosDir
  = Ok resolvedSteps ->
  setupNock URL nock resolvedSteps (Env.active (world st)) = (Ok scopes, active) ->
  let merged := mergeDefaults action scenario in
  let handlers :=
    runScenarioHandlers JSON_stringify inherited script (Merged.params merged)
      (Merged.context merged) scenario (handlers_state muted active st) in
  let run :=
    runTest JSON_stringify inherited URL nock isAbsolute resolve readFileSync
      scope_done muted script action scenario scenariosDir st in
  active = Env.active (world st) ++ scopes
  /\ (forall e, handlers.1 = Throw e -> run.1 = Throw e)
  /\ (forall pre scope post e,
         handlers.1 = Ok tt ->
         scopes = pre ++ scope :: post ->
         Forall (fun s => scope_done (world handlers.2) s = Ok tt) pre ->
         scope_done (world handlers.2) scope = Throw e ->
         run.1 = Throw e)
  /\ (run.1 = Ok tt
      <-> handlers.1 = Ok tt
          /\ Forall (fun s => scope_done (world handlers.2) s = Ok tt) scopes)
  /\ calls run.2 = calls handlers.2
  /\ Env.world (world run.2) = Env.world (world handlers.2).
Proof.
  intros Hsteps Hresolve Hsetup merged handlers run.
  assert (run = (match handlers.1 with
                 | Throw e => Throw e
                 | Ok _ => verifyScopes scope_done scopes (world handlers.2)
                 end,
                 mkState
                   (Env.mk (Env.world (world handlers.2))
                      (Env.active (world handlers.2))
                      (Env.netConnect (world handlers.2)) (Env.console (world st)))
                   (calls handlers.2))) as ->
      by (apply (runTest_run JSON_stringify inherited URL nock isAbsolute resolve
                   readFileSync
                   scope_done muted script action scenario scenariosDir st steps
                   resolvedSteps scopes active Hsteps Hresolve Hsetup)).
  cbn [fst snd world calls Env.world].
  split; [| split; [| split; [| split; [| split]]]]; try reflexivity.
  - destruct (setupNock_only_appends_Ok URL nock resolvedSteps (Env.active (world st))
                scopes active Hsetup) as [-> _]. reflexivity.
  - intros e ->. reflexivity.
  - intros pre scope post e -> -> Hpre Hscope.
    apply verifyScopes_first; assumption.
  - destruct handlers.1 as [[] | e].
    + rewrite verifyScopes_Ok. split; [auto | intros [_ H]; exact H].
    + split; [discriminate | intros [H _]; discriminate H].
Qed.

(** The fixture of the scenario is there and the script uses the
    interceptor up: the test passes. *)
Lemma test_verdict_witness :
  (runTest (fun _ => EmptyString) sample_inherited sample_URL sample_nock
     sample_isAbsolute sample_resolve sample_readFileSync sample_scope_done false
     fetching_script (Action.mk None None) fixture_scenario "/t" fresh_state).1
  = Ok tt.
Proof.
  pose proof (test_verdict (fun _ => EmptyString) sample_inherited sample_URL sample_nock
                sample_isAbsolute
                sample_resolve sample_readFileSync sample_scope_done false
                fetching_script (Action.mk None None) fixture_scenario "/t" fresh_state
                [fixture_step]
                [Step.mk (Request.mk "get" "https://example.com/users" None)
                   (Some "200.http") (Some (Fixture.mk 200 ∅ "{}")) false]
                [Interceptor.mk "https://example.com" "get" "/users" None
                   (Reply 200 "{}" ∅)]
                [Interceptor.mk "https://example.com" "get" "/users" None
                   (Reply 200 "{}" ∅)]
                eq_refl ltac:(vm_compute; reflexivity) ltac:(vm_compute; reflexivity))
    as (_ & _ & _ & Hpass & _).
  apply Hpass. split; [vm_compute; reflexivity |].
  constructor; [vm_compute; reflexivity | constructor].
Defined.
(** ** index.mjs: the test of a common scenario *)

(** X24.  Take the test of a scenario synthesized from a template.
    When the template request has an absolute URL, a supported verb
    and an origin that nock builds a scope for, the test installs one
    interceptor, whatever files there are.  The script's [invoke] is
    called once, with the params and the context of the action, and its
    error capability is never called.  The test passes exactly when
    [invoke] rejects with a truthy value, whatever its message, and the
    interceptor was used: a script that resolves on an error response
    fails the test, and so does one that rejects with a falsy value.
    When nock refuses the origin, as for a URL whose protocol is
    neither [http:] nor [https:], the test fails with what
    [nock(origin)] throws and the script is not called. *)
Theorem common_scenario_verdict {W C : Type} (JSON_stringify : value -> string)
    (inherited : value -> string -> value) (URL : string -> option Url.t)
    (nock : string -> result unit) (isAbsolute : string -> bool)
    (resolve : string -> string -> string) (readFileSync : string -> result string)
    (scope_done : Env.t W C -> Interceptor.t -> result unit) (muted : C)
    (script : Script.t (Env.t W C)) (action : Action.t) (c : CommonScenario.t)
    (templateRequest : Request.t) (scenariosDir : string) (st : state (Env.t W C)) :
  In c COMMON_SCENARIOS ->
  let scenario := common_scenario c templateRequest in
  let merged := mergeDefaults action scenario in
  let run :=
    runTest JSON_stringify inherited URL nock isAbsolute resolve readFileSync
      scope_done muted script action scenario scenariosDir st in
  (addressable URL nock (Step.mk templateRequest None None false) = true ->
   exists step scope,
     Scenario.steps scenario = Some [step]
     /\ setupStep URL nock step = Ok scope
     /\ Merged.params merged = default ∅ (Action.params action)
     /\ let invoked :=
          Script.invoke script (Merged.params merged) (Merged.context merged)
            (Env.mk (Env.world (world st)) (Env.active (world st) ++ [scope]) false
               muted) in
        new_calls st run.2 = [invoke_call (Merged.params merged) (Merged.context merged)]
        /\ (run.1 = Ok tt
            <-> (exists thrown, invoked.1 = Rejected thrown /\ truthy thrown = true)
                /\ scope_done invoked.2 scope = Ok tt)
        /\ (forall result,
               invoked.1 = Resolved result ->
               run.1
               = Throw (Error "Expected invoke to throw, but it returned successfully"))
        /\ (forall thrown,
               invoked.1 = Rejected thrown ->
               truthy thrown = false ->
               run.1
               = Throw (Error "Expected invoke to throw, but it returned successfully")))
  /\ (forall url e,
         URL (Request.url templateRequest) = Some url ->
         supported_verb (Request.method templateRequest) = true ->
         nock (Url.origin url) = Throw e ->
         run.1 = Throw e /\ new_calls st run.2 = []).
Proof.
  intros Hin scenario merged run.
  destruct (COMMON_SCENARIOS_shape c templateRequest Hin)
    as (step & Hsteps & Hreq & Hfix & Hdata).
  assert (resolved step = true) as Hres.
  { unfold resolved. destruct Hdata as [[-> _] | (_ & f & -> & _)]; [reflexivity |].
    apply orb_true_iff. right. apply bool_decide_eq_true. eauto. }
  assert (Scenario.steps scenario = Some [step]) as Hscenario
      by (unfold scenario, common_scenario; cbn [Scenario.steps]; rewrite Hsteps;
          reflexivity).
  assert (resolveStepFixtures isAbsolute resolve readFileSync [step] scenariosDir
          = Ok [step]) as Hresolve
      by (cbn [resolveStepFixtures]; rewrite resolveStep_resolved by exact Hres;
          reflexivity).
  split.
  2: { intros url e Hurl Hverb Hnock.
       assert (setupStep URL nock step = Throw e) as Hstep
           by (apply (setupStep_refused URL nock step url e);
               [rewrite Hreq; exact Hurl | rewrite Hreq; exact Hverb | exact Hnock]).
       subst run. unfold runTest. rewrite Hscenario, Hresolve.
       cbn [Env.active Env.world Env.console].
       unfold setupNock. cbn [setupLoop]. rewrite Hstep. cbn [fst snd].
       split; [reflexivity |]. unfold new_calls. cbn [calls]. apply drop_all. }
  intros Haddr.
  assert (installable URL nock step = true) as Hinst.
  { unfold installable. unfold addressable, absolute_url, scope_built in Haddr.
    unfold absolute_url, scope_built. rewrite Hreq. cbn in Haddr |- *.
    rewrite Haddr, Hres. reflexivity. }
  destruct (setupStep_ok URL nock step Hinst) as [scope Hscope].
  exists step, scope.
  assert (Scenario.invoke scenario = Some throws_anything) as Hinvoke.
  { unfold scenario, common_scenario, throws_anything. cbn [Scenario.invoke].
    revert Hin. unfold COMMON_SCENARIOS. cbn [In].
    intros [<- | [<- | [<- | [<- | [<- | [<- | [<- | [<- | []]]]]]]]]; reflexivity. }
  split; [exact Hscenario |]. split; [exact Hscope |].
  split; [unfold merged, mergeDefaults, spread2; cbn; apply (left_id_L ∅ (∪)) |].
  intros invoked.
  assert (run = _) as Hrun
      by (apply (runTest_run JSON_stringify inherited URL nock isAbsolute resolve
                   readFileSync scope_done muted script action scenario scenariosDir st
                   [step] [step] [scope] (Env.active (world st) ++ [scope])
                   Hscenario Hresolve);
          unfold setupNock; cbn [setupLoop app]; rewrite Hscope; reflexivity).
  cbv zeta in Hrun. fold merged in Hrun.
  pose proof (runScenarioHandlers_log JSON_stringify inherited script
                (Merged.params merged) (Merged.context merged) scenario
                (handlers_state muted (Env.active (world st) ++ [scope]) st)) as Hlog.
  rewrite Hinvoke in Hlog.
  cbn [throws_anything Expectation.returns Expectation.throws truthy] in Hlog.
  assert (error_phase_runs script scenario = false) as Hphase
      by (unfold error_phase_runs, scenario, common_scenario; reflexivity).
  rewrite Hphase in Hlog.
  assert (exists handlers,
             runScenarioHandlers JSON_stringify inherited script (Merged.params merged)
               (Merged.context merged) scenario
               (handlers_state muted (Env.active (world st) ++ [scope]) st) = handlers
             /\ handlers.1
                = match invoked.1 with
                  | Resolved _ => Throw (AssertionFailed (not_thrown_message "invoke"))
                  | Rejected thrown =>
                      if truthy thrown then Ok tt
                      else Throw (AssertionFailed (not_thrown_message "invoke"))
                  end
             /\ world handlers.2 = invoked.2) as (handlers & Hhandlers & Hout & Hworld).
  { eexists. split; [reflexivity |].
    unfold runScenarioHandlers. rewrite Hinvoke.
    cbn [throws_anything Expectation.returns Expectation.throws truthy].
    assert (Scenario.error scenario = None) as -> by reflexivity.
    destruct (call_handler_outcome InvokeCapability (Script.invoke script)
                (Merged.params merged) (Merged.context merged)
                (handlers_state muted (Env.active (world st) ++ [scope]) st))
      as [Hsettled Hw].
    unfold handlers_state in Hsettled, Hw. cbn [world] in Hsettled, Hw.
    fold invoked in Hsettled, Hw.
    unfold assertInvokeThrows, handlers_state. split.
    - unfold bind. rewrite assertThrows_run, Hsettled. cbv zeta.
      destruct invoked.1 as [result | thrown]; [reflexivity |].
      destruct (truthy thrown); reflexivity.
    - rewrite bind_ret_state, assertThrows_state. exact Hw. }
  rewrite Hhandlers in Hrun, Hlog. rewrite Hrun. cbn [fst snd].
  split; [| split; [| split]].
  - unfold new_calls. cbn [calls]. rewrite Hlog. unfold handlers_state. cbn [calls].
    rewrite drop_app_length.
    match goal with |- context [match ?x with _ => _ end] => destruct x end; reflexivity.
  - rewrite Hout, Hworld. destruct invoked.1 as [result | thrown].
    + split; [discriminate | intros [(t & Ht & _) _]; discriminate Ht].
    + destruct (truthy thrown) eqn:Htruthy.
      * cbn [verifyScopes]. destruct (scope_done invoked.2 scope) as [[] | e'].
        -- split; [eauto | reflexivity].
        -- split; [discriminate | intros [_ H]; discriminate H].
      * split; [discriminate |]. intros [(t & [= <-] & Ht) _]. congruence.
  - intros result Hresolved. rewrite Hout, Hresolved. reflexivity.
  - intros thrown Hrejected Hfalsy. rewrite Hout, Hrejected, Hfalsy. reflexivity.
Qed.

(** The template for 429 against the script that resolves whatever the
    response is: the test fails in the first phase. *)
Lemma common_scenario_verdict_witness :
  (runTest (fun _ => EmptyString) sample_inherited sample_URL sample_nock
     sample_isAbsolute sample_resolve sample_readFileSync sample_scope_done false
     fetching_script (Action.mk None None)
     (common_scenario
        (CommonScenario.mk "handles 429 rate limit"
           (generate_status 429 (<["Retry-After" := "30"]> json_headers)
              (qq "{'error':'Too Many Requests','message':'Rate limit exceeded'}")))
        (Request.mk "GET" "https://example.com/users" None))
     "/t" fresh_state).1
  = Throw (Error "Expected invoke to throw, but it returned successfully").
Proof.
  destruct (proj1 (common_scenario_verdict (fun _ => EmptyString) sample_inherited
              sample_URL sample_nock sample_isAbsolute
              sample_resolve sample_readFileSync sample_scope_done false fetching_script
              (Action.mk None None)
              (CommonScenario.mk "handles 429 rate limit"
                 (generate_status 429 (<["Retry-After" := "30"]> json_headers)
                    (qq "{'error':'Too Many Requests','message':'Rate limit exceeded'}")))
              (Request.mk "GET" "https://example.com/users" None) "/t" fresh_state
              ltac:(right; right; left; reflexivity)) eq_refl)
    as (step & scope & _ & _ & _ & _ & _ & Hresolved & _).
  apply (Hresolved (VObject 3 [("ok", VBool true)])). reflexivity.
Defined.

(** The same template for a request over [ftp:]: nock refuses the
    origin, the test fails with its [TypeError], and the script is not
    called. *)
Lemma common_scenario_refused_origin :
  let run :=
    runTest (fun _ => EmptyString) sample_inherited sample_URL sample_nock
      sample_isAbsolute sample_resolve sample_readFileSync sample_scope_done false
      fetching_script (Action.mk None None)
      (common_scenario
         (CommonScenario.mk "handles 429 rate limit"
            (generate_status 429 (<["Retry-After" := "30"]> json_headers)
               (qq "{'error':'Too Many Requests','message':'Rate limit exceeded'}")))
         (Request.mk "GET" "ftp://example.com/users" None))
      "/t" fresh_state in
  run.1 = Throw TypeError /\ calls run.2 = [].
Proof. split; reflexivity. Qed.

(** ** cli/init.mjs *)

Section InitFacts.
Variable FS : Type.
Variable existsSync : FS -> string -> bool.
Variable readFileSync : FS -> string -> result string.
Variable mkdirSync : FS -> string -> result unit * FS.
Variable writeFileSync : FS -> string -> string -> result unit * FS.
Variable join : list string -> string.
Variable Metadata : Type.
Variable load_metadata : string -> result Metadata.
Variable metadata_name : Metadata -> string.
Variable generateScenariosYaml : Metadata -> result string.
Variable generateFixture : result string.

Lemma write_unless_exists_log (path content label : string) (p : Progress.t FS) :
  let step := write_unless_exists FS existsSync writeFileSync path content label p in
  exists existed : bool,
    existsSync (Progress.fs p) path = existed
    /\ Progress.writes step.2
       = Progress.writes p ++ (if existed then [] else [(Progress.fs p, path, content)])
    /\ (step.1 = Ok tt ->
        Progress.created step.2
        = Progress.created p ++ (if existed then [] else [label])
        /\ Progress.skipped step.2
           = Progress.skipped p ++ (if existed then [label] else []))
    /\ Progress.fs step.2
       = (if existed then Progress.fs p
          else (writeFileSync (Progress.fs p) path content).2).
Proof.
  cbv zeta. unfold write_unless_exists.
  destruct (existsSync (Progress.fs p) path).
  - exists true. cbn. rewrite !app_nil_r. auto.
  - exists false. destruct (writeFileSync (Progress.fs p) path content) as [[[] | e] fs'];
      cbn; rewrite ?app_nil_r; repeat split; auto; discriminate.
Qed.

End InitFacts.

(** X25.  The command never overwrites a file: each call of
    [writeFileSync] is for a path that, on the file system as it was at
    that call, did not exist.  It writes at most twice; it writes only
    to [tests/scenarios.yaml] and to [tests/fixtures/200-success.http]
    under the current directory, and only what the two generators
    returned for the metadata read from [metadata.yaml].  When
    [metadata.yaml] does not exist it exits with the code 1, having
    written two lines to the error stream and nothing else, and the
    file system is as it was. *)
Theorem init_never_overwrites (FS : Type) (existsSync : FS -> string -> bool)
    (readFileSync : FS -> string -> result string)
    (mkdirSync : FS -> string -> result unit * FS)
    (writeFileSync : FS -> string -> string -> result unit * FS)
    (join : list string -> string) (Metadata : Type)
    (load_metadata : string -> result Metadata) (metadata_name : Metadata -> string)
    (generateScenariosYaml : Metadata -> result string) (generateFixture : result string)
    (cwd : string) (fs : FS) :
  let run :=
    init FS existsSync readFileSync mkdirSync writeFileSync join Metadata load_metadata
      metadata_name generateScenariosYaml generateFixture cwd fs in
  length (InitResult.writes run) <= 2
  /\ Forall
       (fun w : FS * string * string =>
          existsSync w.1.1 w.1.2 = false
          /\ exists raw metadata,
               readFileSync fs (join [cwd; "metadata.yaml"]) = Ok raw
               /\ load_metadata raw = Ok metadata
               /\ (w.1.2 = join [cwd; "tests"; "scenarios.yaml"]
                   /\ generateScenariosYaml metadata = Ok w.2
                   \/ w.1.2 = join [join [cwd; "tests"; "fixtures"]; "200-success.http"]
                      /\ generateFixture = Ok w.2))
       (InitResult.writes run)
  /\ (existsSync fs (join [cwd; "metadata.yaml"]) = false ->
      run = InitResult.mk (Exit.Code 1)
              [ "Error: metadata.yaml not found in current directory." +:+ nl;
                "Run this command from the root of an action repository." +:+ nl ]
              [] fs []).
Proof.
  intros run. subst run.
  match goal with |- _ /\ Forall ?P _ /\ _ => set (allowed := P) end.
  unfold init. cbv zeta.
  destruct (existsSync fs (join [cwd; "metadata.yaml"])) eqn:Hmeta; cbn [negb];
    [| cbn [InitResult.writes length]; split; [lia | split; [constructor | reflexivity]]].
  assert (forall e p, length (Progress.writes p) <= 2 ->
            Forall allowed (Progress.writes p) ->
            length (InitResult.writes (uncaught FS e p)) <= 2
            /\ Forall allowed (InitResult.writes (uncaught FS e p))
            /\ (true = false ->
                uncaught FS e p
                = InitResult.mk (Exit.Code 1)
                    [ "Error: metadata.yaml not found in current directory." +:+ nl;
                      "Run this command from the root of an action repository." +:+ nl ]
                    [] fs [])) as Hstop.
  { intros e p Hlen Hall. unfold uncaught. cbn [InitResult.writes].
    split; [exact Hlen | split; [exact Hall | discriminate]]. }
  assert (forall fs0, length (Progress.writes (Progress.mk fs0 [] [] [])) <= 2
                      /\ Forall allowed (Progress.writes (Progress.mk fs0 [] [] [])))
    as Hstart by (intros fs0; cbn; split; [lia | constructor]).
  destruct (readFileSync fs (join [cwd; "metadata.yaml"])) as [raw |] eqn:Hraw;
    [| apply Hstop; apply (Hstart fs)].
  destruct (load_metadata raw) as [metadata |] eqn:Hload;
    [| apply Hstop; apply (Hstart fs)].
  destruct (generateScenariosYaml metadata) as [scenariosContent |] eqn:Hgen;
    [| apply Hstop; apply (Hstart fs)].
  destruct generateFixture as [fixtureContent |] eqn:Hfix;
    [| apply Hstop; apply (Hstart fs)].
  destruct (mkdirSync fs (join [cwd; "tests"; "fixtures"])) as [[[] | e] fs1];
    [| apply Hstop; apply (Hstart fs1)].
  destruct (write_unless_exists_log FS existsSync writeFileSync
              (join [cwd; "tests"; "scenarios.yaml"]) scenariosContent
              "tests/scenarios.yaml" (Progress.mk fs1 [] [] []))
    as (existed1 & Hexisted1 & Hlog1 & _).
  destruct (write_unless_exists FS existsSync writeFileSync
              (join [cwd; "tests"; "scenarios.yaml"]) scenariosContent
              "tests/scenarios.yaml" (Progress.mk fs1 [] [] [])) as [outcome1 p1].
  cbn [fst snd Progress.fs Progress.writes app] in Hexisted1, Hlog1.
  assert (Forall allowed (Progress.writes p1)) as Hfirst.
  { rewrite Hlog1. destruct existed1; constructor; [| constructor].
    subst allowed. cbn [fst snd]. split; [exact Hexisted1 |]. exists raw, metadata. auto. }
  assert (length (Progress.writes p1) <= 1) as Hlen1
      by (rewrite Hlog1; destruct existed1; cbn; lia).
  destruct outcome1 as [[] | e]; [| apply Hstop; [lia | exact Hfirst]].
  destruct (write_unless_exists_log FS existsSync writeFileSync
              (join [join [cwd; "tests"; "fixtures"]; "200-success.http"])
              fixtureContent "tests/fixtures/200-success.http" p1)
    as (existed2 & Hexisted2 & Hlog2 & _).
  destruct (write_unless_exists FS existsSync writeFileSync
              (join [join [cwd; "tests"; "fixtures"]; "200-success.http"])
              fixtureContent "tests/fixtures/200-success.http" p1) as [outcome2 p2].
  cbn [fst snd] in Hexisted2, Hlog2.
  assert (length (Progress.writes p2) <= 2 /\ Forall allowed (Progress.writes p2))
    as [Hlen2 Hsecond].
  { rewrite Hlog2. rewrite length_app. split; [destruct existed2; cbn; lia |].
    apply Forall_app. split; [exact Hfirst |].
    destruct existed2; constructor; [| constructor].
    subst allowed. cbn [fst snd]. split; [exact Hexisted2 |].
    exists raw, metadata. auto. }
  destruct outcome2 as [[] | e]; [| apply Hstop; assumption].
  cbn [InitResult.writes]. split; [exact Hlen2 | split; [exact Hsecond | discriminate]].
Qed.

(** In the sample repository the scenarios file exists: the one write
    is for the fixture, which did not. *)
Lemma init_never_overwrites_witness :
  sample_existsSync sample_repo "/repo/metadata.yaml" = true
  /\ InitResult.writes (sample_init sample_repo)
     = [(sample_repo, "/repo/tests/fixtures/200-success.http", "HTTP/1.1 200 OK")]
  /\ Forall (fun w : gmap string string * string * string =>
               sample_existsSync w.1.1 w.1.2 = false)
       (InitResult.writes (sample_init sample_repo)).
Proof.
  split; [reflexivity |]. split; [vm_compute; reflexivity |].
  pose proof (init_never_overwrites (gmap string string) sample_existsSync
                sample_readFile sample_mkdirSync sample_writeFileSync sample_join string
                (fun raw => Ok raw) (fun name => name) (fun _ => Ok "scenarios: []")
                (Ok "HTTP/1.1 200 OK") "/repo" sample_repo) as (_ & Hall & _).
  eapply Forall_impl; [exact Hall |]. cbn. intros w [Hw _]. exact Hw.
Defined.

(** X26.  A run that ends with the exit code 0 wrote nothing to the
    error stream and logged, in this order: the line that names the
    action, one line [Created] for each file it wrote, one line
    [Skipped] for each file that existed, and the next steps.  Whether
    a file existed is what [existsSync] answered for its path when its
    turn came: for the scenarios file on the file system that
    [mkdirSync] left, for the fixture on the file system after the
    scenarios file was dealt with.  The files written are exactly those
    reported as created, each with what its generator returned, and a
    file reported as skipped was not written.  Each of the two files is
    reported exactly once, the scenarios file before the fixture within
    either group. *)
Theorem init_reports (FS : Type) (existsSync : FS -> string -> bool)
    (readFileSync : FS -> string -> result string)
    (mkdirSync : FS -> string -> result unit * FS)
    (writeFileSync : FS -> string -> string -> result unit * FS)
    (join : list string -> string) (Metadata : Type)
    (load_metadata : string -> result Metadata) (metadata_name : Metadata -> string)
    (generateScenariosYaml : Metadata -> result string) (generateFixture : result string)
    (cwd : string) (fs : FS) :
  let run :=
    init FS existsSync readFileSync mkdirSync writeFileSync join Metadata load_metadata
      metadata_name generateScenariosYaml generateFixture cwd fs in
  let scenariosPath := join [cwd; "tests"; "scenarios.yaml"] in
  let fixturesDir := join [cwd; "tests"; "fixtures"] in
  let fixturePath := join [fixturesDir; "200-success.http"] in
  InitResult.exit run = Exit.Code 0 ->
  InitResult.stderr run = []
  /\ exists raw metadata scenariosContent fixtureContent,
       readFileSync fs (join [cwd; "metadata.yaml"]) = Ok raw
       /\ load_metadata raw = Ok metadata
       /\ generateScenariosYaml metadata = Ok scenariosContent
       /\ generateFixture = Ok fixtureContent
       /\ let fs1 := (mkdirSync fs fixturesDir).2 in
          let existed1 := existsSync fs1 scenariosPath in
          let fs2 :=
            if existed1 then fs1
            else (writeFileSync fs1 scenariosPath scenariosContent).2 in
          let existed2 := existsSync fs2 fixturePath in
          InitResult.stdout run
          = [initialized_message (metadata_name metadata)]
            ++ map created_message
                 ((if existed1 then [] else [scenarios_label])
                  ++ (if existed2 then [] else [fixture_label]))
            ++ map skipped_message
                 ((if existed1 then [scenarios_label] else [])
                  ++ (if existed2 then [fixture_label] else []))
            ++ [next_steps]
          /\ InitResult.writes run
             = (if existed1 then [] else [(fs1, scenariosPath, scenariosContent)])
               ++ (if existed2 then [] else [(fs2, fixturePath, fixtureContent)])
          /\ InitResult.fs run
             = (if existed2 then fs2
                else (writeFileSync fs2 fixturePath fixtureContent).2)
          /\ length (InitResult.writes run)
             = length ((if existed1 then [] else [scenarios_label])
                       ++ (if existed2 then [] else [fixture_label])).
Proof.
  intros run scenariosPath fixturesDir fixturePath.
  subst run scenariosPath fixturePath fixturesDir. unfold init. cbv zeta.
  destruct (existsSync fs (join [cwd; "metadata.yaml"])); cbn [negb];
    [| discriminate].
  destruct (readFileSync fs (join [cwd; "metadata.yaml"])) as [raw |] eqn:Hraw;
    [| discriminate].
  destruct (load_metadata raw) as [metadata |] eqn:Hload; [| discriminate].
  destruct (generateScenariosYaml metadata) as [scenariosContent |] eqn:Hgen;
    [| discriminate].
  destruct generateFixture as [fixtureContent |] eqn:Hfix; [| discriminate].
  destruct (mkdirSync fs (join [cwd; "tests"; "fixtures"])) as [[[] | e] fs1];
    [| discriminate].
  destruct (write_unless_exists_log FS existsSync writeFileSync
              (join [cwd; "tests"; "scenarios.yaml"]) scenariosContent
              "tests/scenarios.yaml" (Progress.mk fs1 [] [] []))
    as (existed1 & Hexisted1 & Hlog1 & Hlists1 & Hfs1).
  destruct (write_unless_exists FS existsSync writeFileSync
              (join [cwd; "tests"; "scenarios.yaml"]) scenariosContent
              "tests/scenarios.yaml" (Progress.mk fs1 [] [] [])) as [[[] | e] p1];
    [| discriminate].
  destruct (Hlists1 eq_refl) as [Hcreated1 Hskipped1].
  cbn [fst snd Progress.created Progress.skipped Progress.writes Progress.fs app]
    in Hexisted1, Hlog1, Hcreated1, Hskipped1, Hfs1.
  destruct (write_unless_exists_log FS existsSync writeFileSync
              (join [join [cwd; "tests"; "fixtures"]; "200-success.http"])
              fixtureContent "tests/fixtures/200-success.http" p1)
    as (existed2 & Hexisted2 & Hlog2 & Hlists2 & Hfs2).
  destruct (write_unless_exists FS existsSync writeFileSync
              (join [join [cwd; "tests"; "fixtures"]; "200-success.http"])
              fixtureContent "tests/fixtures/200-success.http" p1) as [[[] | e] p2];
    [| discriminate].
  destruct (Hlists2 eq_refl) as [Hcreated2 Hskipped2].
  cbn [fst snd] in Hexisted2, Hlog2, Hcreated2, Hskipped2, Hfs2.
  intros _.
  cbn [InitResult.stderr InitResult.stdout InitResult.writes InitResult.fs snd].
  split; [reflexivity |]. exists raw, metadata, scenariosContent, fixtureContent.
  split; [reflexivity |]. split; [exact Hload |]. split; [exact Hgen |].
  split; [reflexivity |].
  rewrite Hexisted1, <- Hfs1, Hexisted2.
  rewrite Hcreated2, Hskipped2, Hcreated1, Hskipped1, Hlog2, Hlog1, Hfs2.
  unfold scenarios_label, fixture_label.
  split; [reflexivity |]. split; [reflexivity |]. split; [reflexivity |].
  destruct existed1, existed2; reflexivity.
Qed.

(** In the sample repository the scenarios file exists and the fixture
    does not: the fixture is written and reported as created, the
    scenarios file is reported as skipped and not written. *)
Lemma init_reports_witness :
  sample_existsSync sample_repo "/repo/tests/scenarios.yaml" = true
  /\ sample_existsSync sample_repo "/repo/tests/fixtures/200-success.http" = false
  /\ InitResult.stderr (sample_init sample_repo) = []
  /\ InitResult.stdout (sample_init sample_repo)
     = [ nl +:+ "Initialized scenario tests for suspend-user" +:+ nl;
         "  Created: tests/fixtures/200-success.http";
         "  Skipped: tests/scenarios.yaml (already exists)";
         next_steps ]
  /\ InitResult.writes (sample_init sample_repo)
     = [(sample_repo, "/repo/tests/fixtures/200-success.http", "HTTP/1.1 200 OK")].
Proof.
  destruct (init_reports (gmap string string) sample_existsSync sample_readFile
              sample_mkdirSync sample_writeFileSync sample_join string
              (fun raw => Ok raw) (fun name => name) (fun _ => Ok "scenarios: []")
              (Ok "HTTP/1.1 200 OK") "/repo" sample_repo
              ltac:(vm_compute; reflexivity))
    as [Hstderr (raw & metadata & scenariosContent & fixtureContent & _ & _
                 & [= <-] & [= <-] & Hout & Hwrites & _)].
  split; [reflexivity |]. split; [reflexivity |]. split; [exact Hstderr |].
  split; [vm_compute; reflexivity |].
  etransitivity; [exact Hwrites | vm_compute; reflexivity].
Defined.
